(** * Vibe Kanban MCP bridge: a shallow embedding and its properties

    The development follows the TypeScript sources:
    - [src/api/client.ts]   executor normalization, [listTasks];
    - the tools module      the [send_message] handler and its busy-queue
      heuristic;
    - [src/resources.ts]    URI parsing and the [SubscriptionManager];
    - [src/tasks.ts]        [mapStatus] and the execution tracker loop.

    Strings are UTF-8 text, byte by byte: [trim], [toUpperCase] and the
    white space class of regular expressions work on the characters of a
    string, with the white space of ECMAScript and the upper-case
    mappings of Unicode.  Calls that leave the process (Gateway requests,
    the notification transport) are answered by an explicit world record,
    so every function here is total and can be evaluated. *)

From stdpp Require Import gmap strings list pretty.
From Stdlib Require Import ZArith Ascii String.

Local Open Scope string_scope.
Local Open Scope list_scope.

(** ** Unicode upper case

    The characters whose upper-case form differs from them, beyond the
    ASCII letters: the simple mappings of the Unicode Character Database
    (UnicodeData.txt) together with the unconditional full mappings of
    SpecialCasing.txt, version 14.0, which [String.prototype.toUpperCase]
    applies character by character. *)

Module Unicode.

Definition upperTable : list (string * string) :=
  [
   ("µ", "Μ"); ("ß", "SS"); ("à", "À"); ("á", "Á"); ("â", "Â"); ("ã", "Ã");
   ("ä", "Ä"); ("å", "Å"); ("æ", "Æ"); ("ç", "Ç"); ("è", "È"); ("é", "É");
   ("ê", "Ê"); ("ë", "Ë"); ("ì", "Ì"); ("í", "Í"); ("î", "Î"); ("ï", "Ï");
   ("ð", "Ð"); ("ñ", "Ñ"); ("ò", "Ò"); ("ó", "Ó"); ("ô", "Ô"); ("õ", "Õ");
   ("ö", "Ö"); ("ø", "Ø"); ("ù", "Ù"); ("ú", "Ú"); ("û", "Û"); ("ü", "Ü");
   ("ý", "Ý"); ("þ", "Þ"); ("ÿ", "Ÿ"); ("ā", "Ā"); ("ă", "Ă"); ("ą", "Ą");
   ("ć", "Ć"); ("ĉ", "Ĉ"); ("ċ", "Ċ"); ("č", "Č"); ("ď", "Ď"); ("đ", "Đ");
   ("ē", "Ē"); ("ĕ", "Ĕ"); ("ė", "Ė"); ("ę", "Ę"); ("ě", "Ě"); ("ĝ", "Ĝ");
   ("ğ", "Ğ"); ("ġ", "Ġ"); ("ģ", "Ģ"); ("ĥ", "Ĥ"); ("ħ", "Ħ"); ("ĩ", "Ĩ");
   ("ī", "Ī"); ("ĭ", "Ĭ"); ("į", "Į"); ("ı", "I"); ("ĳ", "Ĳ"); ("ĵ", "Ĵ");
   ("ķ", "Ķ"); ("ĺ", "Ĺ"); ("ļ", "Ļ"); ("ľ", "Ľ"); ("ŀ", "Ŀ"); ("ł", "Ł");
   ("ń", "Ń"); ("ņ", "Ņ"); ("ň", "Ň"); ("ŉ", "ʼN"); ("ŋ", "Ŋ"); ("ō", "Ō");
   ("ŏ", "Ŏ"); ("ő", "Ő"); ("œ", "Œ"); ("ŕ", "Ŕ"); ("ŗ", "Ŗ"); ("ř", "Ř");
   ("ś", "Ś"); ("ŝ", "Ŝ"); ("ş", "Ş"); ("š", "Š"); ("ţ", "Ţ"); ("ť", "Ť");
   ("ŧ", "Ŧ"); ("ũ", "Ũ"); ("ū", "Ū"); ("ŭ", "Ŭ"); ("ů", "Ů"); ("ű", "Ű");
   ("ų", "Ų"); ("ŵ", "Ŵ"); ("ŷ", "Ŷ"); ("ź", "Ź"); ("ż", "Ż"); ("ž", "Ž");
   ("ſ", "S"); ("ƀ", "Ƀ"); ("ƃ", "Ƃ"); ("ƅ", "Ƅ"); ("ƈ", "Ƈ"); ("ƌ", "Ƌ");
   ("ƒ", "Ƒ"); ("ƕ", "Ƕ"); ("ƙ", "Ƙ"); ("ƚ", "Ƚ"); ("ƞ", "Ƞ"); ("ơ", "Ơ");
   ("ƣ", "Ƣ"); ("ƥ", "Ƥ"); ("ƨ", "Ƨ"); ("ƭ", "Ƭ"); ("ư", "Ư"); ("ƴ", "Ƴ");
   ("ƶ", "Ƶ"); ("ƹ", "Ƹ"); ("ƽ", "Ƽ"); ("ƿ", "Ƿ"); ("ǅ", "Ǆ"); ("ǆ", "Ǆ");
   ("ǈ", "Ǉ"); ("ǉ", "Ǉ"); ("ǋ", "Ǌ"); ("ǌ", "Ǌ"); ("ǎ", "Ǎ"); ("ǐ", "Ǐ");
   ("ǒ", "Ǒ"); ("ǔ", "Ǔ"); ("ǖ", "Ǖ"); ("ǘ", "Ǘ"); ("ǚ", "Ǚ"); ("ǜ", "Ǜ");
   ("ǝ", "Ǝ"); ("ǟ", "Ǟ"); ("ǡ", "Ǡ"); ("ǣ", "Ǣ"); ("ǥ", "Ǥ"); ("ǧ", "Ǧ");
   ("ǩ", "Ǩ"); ("ǫ", "Ǫ"); ("ǭ", "Ǭ"); ("ǯ", "Ǯ"); ("ǰ", "J̌"); ("ǲ", "Ǳ");
   ("ǳ", "Ǳ"); ("ǵ", "Ǵ"); ("ǹ", "Ǹ"); ("ǻ", "Ǻ"); ("ǽ", "Ǽ"); ("ǿ", "Ǿ");
   ("ȁ", "Ȁ"); ("ȃ", "Ȃ"); ("ȅ", "Ȅ"); ("ȇ", "Ȇ"); ("ȉ", "Ȉ"); ("ȋ", "Ȋ");
   ("ȍ", "Ȍ"); ("ȏ", "Ȏ"); ("ȑ", "Ȑ"); ("ȓ", "Ȓ"); ("ȕ", "Ȕ"); ("ȗ", "Ȗ");
   ("ș", "Ș"); ("ț", "Ț"); ("ȝ", "Ȝ"); ("ȟ", "Ȟ"); ("ȣ", "Ȣ"); ("ȥ", "Ȥ");
   ("ȧ", "Ȧ"); ("ȩ", "Ȩ"); ("ȫ", "Ȫ"); ("ȭ", "Ȭ"); ("ȯ", "Ȯ"); ("ȱ", "Ȱ");
   ("ȳ", "Ȳ"); ("ȼ", "Ȼ"); ("ȿ", "Ȿ"); ("ɀ", "Ɀ"); ("ɂ", "Ɂ"); ("ɇ", "Ɇ");
   ("ɉ", "Ɉ"); ("ɋ", "Ɋ"); ("ɍ", "Ɍ"); ("ɏ", "Ɏ"); ("ɐ", "Ɐ"); ("ɑ", "Ɑ");
   ("ɒ", "Ɒ"); ("ɓ", "Ɓ"); ("ɔ", "Ɔ"); ("ɖ", "Ɖ"); ("ɗ", "Ɗ"); ("ə", "Ə");
   ("ɛ", "Ɛ"); ("ɜ", "Ɜ"); ("ɠ", "Ɠ"); ("ɡ", "Ɡ"); ("ɣ", "Ɣ"); ("ɥ", "Ɥ");
   ("ɦ", "Ɦ"); ("ɨ", "Ɨ"); ("ɩ", "Ɩ"); ("ɪ", "Ɪ"); ("ɫ", "Ɫ"); ("ɬ", "Ɬ");
   ("ɯ", "Ɯ"); ("ɱ", "Ɱ"); ("ɲ", "Ɲ"); ("ɵ", "Ɵ"); ("ɽ", "Ɽ"); ("ʀ", "Ʀ");
   ("ʂ", "Ʂ"); ("ʃ", "Ʃ"); ("ʇ", "Ʇ"); ("ʈ", "Ʈ"); ("ʉ", "Ʉ"); ("ʊ", "Ʊ");
   ("ʋ", "Ʋ"); ("ʌ", "Ʌ"); ("ʒ", "Ʒ"); ("ʝ", "Ʝ"); ("ʞ", "Ʞ"); ("ͅ", "Ι");
   ("ͱ", "Ͱ"); ("ͳ", "Ͳ"); ("ͷ", "Ͷ"); ("ͻ", "Ͻ"); ("ͼ", "Ͼ"); ("ͽ", "Ͽ");
   ("ΐ", "Ϊ́"); ("ά", "Ά"); ("έ", "Έ"); ("ή", "Ή"); ("ί", "Ί"); ("ΰ", "Ϋ́");
   ("α", "Α"); ("β", "Β"); ("γ", "Γ"); ("δ", "Δ"); ("ε", "Ε"); ("ζ", "Ζ");
   ("η", "Η"); ("θ", "Θ"); ("ι", "Ι"); ("κ", "Κ"); ("λ", "Λ"); ("μ", "Μ");
   ("ν", "Ν"); ("ξ", "Ξ"); ("ο", "Ο"); ("π", "Π"); ("ρ", "Ρ"); ("ς", "Σ");
   ("σ", "Σ"); ("τ", "Τ"); ("υ", "Υ"); ("φ", "Φ"); ("χ", "Χ"); ("ψ", "Ψ");
   ("ω", "Ω"); ("ϊ", "Ϊ"); ("ϋ", "Ϋ"); ("ό", "Ό"); ("ύ", "Ύ"); ("ώ", "Ώ");
   ("ϐ", "Β"); ("ϑ", "Θ"); ("ϕ", "Φ"); ("ϖ", "Π"); ("ϗ", "Ϗ"); ("ϙ", "Ϙ");
   ("ϛ", "Ϛ"); ("ϝ", "Ϝ"); ("ϟ", "Ϟ"); ("ϡ", "Ϡ"); ("ϣ", "Ϣ"); ("ϥ", "Ϥ");
   ("ϧ", "Ϧ"); ("ϩ", "Ϩ"); ("ϫ", "Ϫ"); ("ϭ", "Ϭ"); ("ϯ", "Ϯ"); ("ϰ", "Κ");
   ("ϱ", "Ρ"); ("ϲ", "Ϲ"); ("ϳ", "Ϳ"); ("ϵ", "Ε"); ("ϸ", "Ϸ"); ("ϻ", "Ϻ");
   ("а", "А"); ("б", "Б"); ("в", "В"); ("г", "Г"); ("д", "Д"); ("е", "Е");
   ("ж", "Ж"); ("з", "З"); ("и", "И"); ("й", "Й"); ("к", "К"); ("л", "Л")]
  ++
  [
   ("м", "М"); ("н", "Н"); ("о", "О"); ("п", "П"); ("р", "Р"); ("с", "С");
   ("т", "Т"); ("у", "У"); ("ф", "Ф"); ("х", "Х"); ("ц", "Ц"); ("ч", "Ч");
   ("ш", "Ш"); ("щ", "Щ"); ("ъ", "Ъ"); ("ы", "Ы"); ("ь", "Ь"); ("э", "Э");
   ("ю", "Ю"); ("я", "Я"); ("ѐ", "Ѐ"); ("ё", "Ё"); ("ђ", "Ђ"); ("ѓ", "Ѓ");
   ("є", "Є"); ("ѕ", "Ѕ"); ("і", "І"); ("ї", "Ї"); ("ј", "Ј"); ("љ", "Љ");
   ("њ", "Њ"); ("ћ", "Ћ"); ("ќ", "Ќ"); ("ѝ", "Ѝ"); ("ў", "Ў"); ("џ", "Џ");
   ("ѡ", "Ѡ"); ("ѣ", "Ѣ"); ("ѥ", "Ѥ"); ("ѧ", "Ѧ"); ("ѩ", "Ѩ"); ("ѫ", "Ѫ");
   ("ѭ", "Ѭ"); ("ѯ", "Ѯ"); ("ѱ", "Ѱ"); ("ѳ", "Ѳ"); ("ѵ", "Ѵ"); ("ѷ", "Ѷ");
   ("ѹ", "Ѹ"); ("ѻ", "Ѻ"); ("ѽ", "Ѽ"); ("ѿ", "Ѿ"); ("ҁ", "Ҁ"); ("ҋ", "Ҋ");
   ("ҍ", "Ҍ"); ("ҏ", "Ҏ"); ("ґ", "Ґ"); ("ғ", "Ғ"); ("ҕ", "Ҕ"); ("җ", "Җ");
   ("ҙ", "Ҙ"); ("қ", "Қ"); ("ҝ", "Ҝ"); ("ҟ", "Ҟ"); ("ҡ", "Ҡ"); ("ң", "Ң");
   ("ҥ", "Ҥ"); ("ҧ", "Ҧ"); ("ҩ", "Ҩ"); ("ҫ", "Ҫ"); ("ҭ", "Ҭ"); ("ү", "Ү");
   ("ұ", "Ұ"); ("ҳ", "Ҳ"); ("ҵ", "Ҵ"); ("ҷ", "Ҷ"); ("ҹ", "Ҹ"); ("һ", "Һ");
   ("ҽ", "Ҽ"); ("ҿ", "Ҿ"); ("ӂ", "Ӂ"); ("ӄ", "Ӄ"); ("ӆ", "Ӆ"); ("ӈ", "Ӈ");
   ("ӊ", "Ӊ"); ("ӌ", "Ӌ"); ("ӎ", "Ӎ"); ("ӏ", "Ӏ"); ("ӑ", "Ӑ"); ("ӓ", "Ӓ");
   ("ӕ", "Ӕ"); ("ӗ", "Ӗ"); ("ә", "Ә"); ("ӛ", "Ӛ"); ("ӝ", "Ӝ"); ("ӟ", "Ӟ");
   ("ӡ", "Ӡ"); ("ӣ", "Ӣ"); ("ӥ", "Ӥ"); ("ӧ", "Ӧ"); ("ө", "Ө"); ("ӫ", "Ӫ");
   ("ӭ", "Ӭ"); ("ӯ", "Ӯ"); ("ӱ", "Ӱ"); ("ӳ", "Ӳ"); ("ӵ", "Ӵ"); ("ӷ", "Ӷ");
   ("ӹ", "Ӹ"); ("ӻ", "Ӻ"); ("ӽ", "Ӽ"); ("ӿ", "Ӿ"); ("ԁ", "Ԁ"); ("ԃ", "Ԃ");
   ("ԅ", "Ԅ"); ("ԇ", "Ԇ"); ("ԉ", "Ԉ"); ("ԋ", "Ԋ"); ("ԍ", "Ԍ"); ("ԏ", "Ԏ");
   ("ԑ", "Ԑ"); ("ԓ", "Ԓ"); ("ԕ", "Ԕ"); ("ԗ", "Ԗ"); ("ԙ", "Ԙ"); ("ԛ", "Ԛ");
   ("ԝ", "Ԝ"); ("ԟ", "Ԟ"); ("ԡ", "Ԡ"); ("ԣ", "Ԣ"); ("ԥ", "Ԥ"); ("ԧ", "Ԧ");
   ("ԩ", "Ԩ"); ("ԫ", "Ԫ"); ("ԭ", "Ԭ"); ("ԯ", "Ԯ"); ("ա", "Ա"); ("բ", "Բ");
   ("գ", "Գ"); ("դ", "Դ"); ("ե", "Ե"); ("զ", "Զ"); ("է", "Է"); ("ը", "Ը");
   ("թ", "Թ"); ("ժ", "Ժ"); ("ի", "Ի"); ("լ", "Լ"); ("խ", "Խ"); ("ծ", "Ծ");
   ("կ", "Կ"); ("հ", "Հ"); ("ձ", "Ձ"); ("ղ", "Ղ"); ("ճ", "Ճ"); ("մ", "Մ");
   ("յ", "Յ"); ("ն", "Ն"); ("շ", "Շ"); ("ո", "Ո"); ("չ", "Չ"); ("պ", "Պ");
   ("ջ", "Ջ"); ("ռ", "Ռ"); ("ս", "Ս"); ("վ", "Վ"); ("տ", "Տ"); ("ր", "Ր");
   ("ց", "Ց"); ("ւ", "Ւ"); ("փ", "Փ"); ("ք", "Ք"); ("օ", "Օ"); ("ֆ", "Ֆ");
   ("և", "ԵՒ"); ("ა", "Ა"); ("ბ", "Ბ"); ("გ", "Გ"); ("დ", "Დ"); ("ე", "Ე");
   ("ვ", "Ვ"); ("ზ", "Ზ"); ("თ", "Თ"); ("ი", "Ი"); ("კ", "Კ"); ("ლ", "Ლ");
   ("მ", "Მ"); ("ნ", "Ნ"); ("ო", "Ო"); ("პ", "Პ"); ("ჟ", "Ჟ"); ("რ", "Რ");
   ("ს", "Ს"); ("ტ", "Ტ"); ("უ", "Უ"); ("ფ", "Ფ"); ("ქ", "Ქ"); ("ღ", "Ღ");
   ("ყ", "Ყ"); ("შ", "Შ"); ("ჩ", "Ჩ"); ("ც", "Ც"); ("ძ", "Ძ"); ("წ", "Წ");
   ("ჭ", "Ჭ"); ("ხ", "Ხ"); ("ჯ", "Ჯ"); ("ჰ", "Ჰ"); ("ჱ", "Ჱ"); ("ჲ", "Ჲ");
   ("ჳ", "Ჳ"); ("ჴ", "Ჴ"); ("ჵ", "Ჵ"); ("ჶ", "Ჶ"); ("ჷ", "Ჷ"); ("ჸ", "Ჸ");
   ("ჹ", "Ჹ"); ("ჺ", "Ჺ"); ("ჽ", "Ჽ"); ("ჾ", "Ჾ"); ("ჿ", "Ჿ"); ("ᏸ", "Ᏸ");
   ("ᏹ", "Ᏹ"); ("ᏺ", "Ᏺ"); ("ᏻ", "Ᏻ"); ("ᏼ", "Ᏼ"); ("ᏽ", "Ᏽ"); ("ᲀ", "В");
   ("ᲁ", "Д"); ("ᲂ", "О"); ("ᲃ", "С"); ("ᲄ", "Т"); ("ᲅ", "Т"); ("ᲆ", "Ъ");
   ("ᲇ", "Ѣ"); ("ᲈ", "Ꙋ"); ("ᵹ", "Ᵹ"); ("ᵽ", "Ᵽ"); ("ᶎ", "Ᶎ"); ("ḁ", "Ḁ");
   ("ḃ", "Ḃ"); ("ḅ", "Ḅ"); ("ḇ", "Ḇ"); ("ḉ", "Ḉ"); ("ḋ", "Ḋ"); ("ḍ", "Ḍ");
   ("ḏ", "Ḏ"); ("ḑ", "Ḑ"); ("ḓ", "Ḓ"); ("ḕ", "Ḕ"); ("ḗ", "Ḗ"); ("ḙ", "Ḙ");
   ("ḛ", "Ḛ"); ("ḝ", "Ḝ"); ("ḟ", "Ḟ"); ("ḡ", "Ḡ"); ("ḣ", "Ḣ"); ("ḥ", "Ḥ");
   ("ḧ", "Ḧ"); ("ḩ", "Ḩ"); ("ḫ", "Ḫ"); ("ḭ", "Ḭ"); ("ḯ", "Ḯ"); ("ḱ", "Ḱ");
   ("ḳ", "Ḳ"); ("ḵ", "Ḵ"); ("ḷ", "Ḷ"); ("ḹ", "Ḹ"); ("ḻ", "Ḻ"); ("ḽ", "Ḽ");
   ("ḿ", "Ḿ"); ("ṁ", "Ṁ"); ("ṃ", "Ṃ"); ("ṅ", "Ṅ"); ("ṇ", "Ṇ"); ("ṉ", "Ṉ");
   ("ṋ", "Ṋ"); ("ṍ", "Ṍ"); ("ṏ", "Ṏ"); ("ṑ", "Ṑ"); ("ṓ", "Ṓ"); ("ṕ", "Ṕ");
   ("ṗ", "Ṗ"); ("ṙ", "Ṙ"); ("ṛ", "Ṛ"); ("ṝ", "Ṝ"); ("ṟ", "Ṟ"); ("ṡ", "Ṡ");
   ("ṣ", "Ṣ"); ("ṥ", "Ṥ"); ("ṧ", "Ṧ"); ("ṩ", "Ṩ"); ("ṫ", "Ṫ"); ("ṭ", "Ṭ");
   ("ṯ", "Ṯ"); ("ṱ", "Ṱ"); ("ṳ", "Ṳ"); ("ṵ", "Ṵ"); ("ṷ", "Ṷ"); ("ṹ", "Ṹ")]
  ++
  [
   ("ṻ", "Ṻ"); ("ṽ", "Ṽ"); ("ṿ", "Ṿ"); ("ẁ", "Ẁ"); ("ẃ", "Ẃ"); ("ẅ", "Ẅ");
   ("ẇ", "Ẇ"); ("ẉ", "Ẉ"); ("ẋ", "Ẋ"); ("ẍ", "Ẍ"); ("ẏ", "Ẏ"); ("ẑ", "Ẑ");
   ("ẓ", "Ẓ"); ("ẕ", "Ẕ"); ("ẖ", "H̱"); ("ẗ", "T̈"); ("ẘ", "W̊"); ("ẙ", "Y̊");
   ("ẚ", "Aʾ"); ("ẛ", "Ṡ"); ("ạ", "Ạ"); ("ả", "Ả"); ("ấ", "Ấ"); ("ầ", "Ầ");
   ("ẩ", "Ẩ"); ("ẫ", "Ẫ"); ("ậ", "Ậ"); ("ắ", "Ắ"); ("ằ", "Ằ"); ("ẳ", "Ẳ");
   ("ẵ", "Ẵ"); ("ặ", "Ặ"); ("ẹ", "Ẹ"); ("ẻ", "Ẻ"); ("ẽ", "Ẽ"); ("ế", "Ế");
   ("ề", "Ề"); ("ể", "Ể"); ("ễ", "Ễ"); ("ệ", "Ệ"); ("ỉ", "Ỉ"); ("ị", "Ị");
   ("ọ", "Ọ"); ("ỏ", "Ỏ"); ("ố", "Ố"); ("ồ", "Ồ"); ("ổ", "Ổ"); ("ỗ", "Ỗ");
   ("ộ", "Ộ"); ("ớ", "Ớ"); ("ờ", "Ờ"); ("ở", "Ở"); ("ỡ", "Ỡ"); ("ợ", "Ợ");
   ("ụ", "Ụ"); ("ủ", "Ủ"); ("ứ", "Ứ"); ("ừ", "Ừ"); ("ử", "Ử"); ("ữ", "Ữ");
   ("ự", "Ự"); ("ỳ", "Ỳ"); ("ỵ", "Ỵ"); ("ỷ", "Ỷ"); ("ỹ", "Ỹ"); ("ỻ", "Ỻ");
   ("ỽ", "Ỽ"); ("ỿ", "Ỿ"); ("ἀ", "Ἀ"); ("ἁ", "Ἁ"); ("ἂ", "Ἂ"); ("ἃ", "Ἃ");
   ("ἄ", "Ἄ"); ("ἅ", "Ἅ"); ("ἆ", "Ἆ"); ("ἇ", "Ἇ"); ("ἐ", "Ἐ"); ("ἑ", "Ἑ");
   ("ἒ", "Ἒ"); ("ἓ", "Ἓ"); ("ἔ", "Ἔ"); ("ἕ", "Ἕ"); ("ἠ", "Ἠ"); ("ἡ", "Ἡ");
   ("ἢ", "Ἢ"); ("ἣ", "Ἣ"); ("ἤ", "Ἤ"); ("ἥ", "Ἥ"); ("ἦ", "Ἦ"); ("ἧ", "Ἧ");
   ("ἰ", "Ἰ"); ("ἱ", "Ἱ"); ("ἲ", "Ἲ"); ("ἳ", "Ἳ"); ("ἴ", "Ἴ"); ("ἵ", "Ἵ");
   ("ἶ", "Ἶ"); ("ἷ", "Ἷ"); ("ὀ", "Ὀ"); ("ὁ", "Ὁ"); ("ὂ", "Ὂ"); ("ὃ", "Ὃ");
   ("ὄ", "Ὄ"); ("ὅ", "Ὅ"); ("ὐ", "Υ̓"); ("ὑ", "Ὑ"); ("ὒ", "Υ̓̀"); ("ὓ", "Ὓ");
   ("ὔ", "Υ̓́"); ("ὕ", "Ὕ"); ("ὖ", "Υ̓͂"); ("ὗ", "Ὗ"); ("ὠ", "Ὠ"); ("ὡ", "Ὡ");
   ("ὢ", "Ὢ"); ("ὣ", "Ὣ"); ("ὤ", "Ὤ"); ("ὥ", "Ὥ"); ("ὦ", "Ὦ"); ("ὧ", "Ὧ");
   ("ὰ", "Ὰ"); ("ά", "Ά"); ("ὲ", "Ὲ"); ("έ", "Έ"); ("ὴ", "Ὴ"); ("ή", "Ή");
   ("ὶ", "Ὶ"); ("ί", "Ί"); ("ὸ", "Ὸ"); ("ό", "Ό"); ("ὺ", "Ὺ"); ("ύ", "Ύ");
   ("ὼ", "Ὼ"); ("ώ", "Ώ"); ("ᾀ", "ἈΙ"); ("ᾁ", "ἉΙ"); ("ᾂ", "ἊΙ"); ("ᾃ", "ἋΙ");
   ("ᾄ", "ἌΙ"); ("ᾅ", "ἍΙ"); ("ᾆ", "ἎΙ"); ("ᾇ", "ἏΙ"); ("ᾈ", "ἈΙ"); ("ᾉ", "ἉΙ");
   ("ᾊ", "ἊΙ"); ("ᾋ", "ἋΙ"); ("ᾌ", "ἌΙ"); ("ᾍ", "ἍΙ"); ("ᾎ", "ἎΙ"); ("ᾏ", "ἏΙ");
   ("ᾐ", "ἨΙ"); ("ᾑ", "ἩΙ"); ("ᾒ", "ἪΙ"); ("ᾓ", "ἫΙ"); ("ᾔ", "ἬΙ"); ("ᾕ", "ἭΙ");
   ("ᾖ", "ἮΙ"); ("ᾗ", "ἯΙ"); ("ᾘ", "ἨΙ"); ("ᾙ", "ἩΙ"); ("ᾚ", "ἪΙ"); ("ᾛ", "ἫΙ");
   ("ᾜ", "ἬΙ"); ("ᾝ", "ἭΙ"); ("ᾞ", "ἮΙ"); ("ᾟ", "ἯΙ"); ("ᾠ", "ὨΙ"); ("ᾡ", "ὩΙ");
   ("ᾢ", "ὪΙ"); ("ᾣ", "ὫΙ"); ("ᾤ", "ὬΙ"); ("ᾥ", "ὭΙ"); ("ᾦ", "ὮΙ"); ("ᾧ", "ὯΙ");
   ("ᾨ", "ὨΙ"); ("ᾩ", "ὩΙ"); ("ᾪ", "ὪΙ"); ("ᾫ", "ὫΙ"); ("ᾬ", "ὬΙ"); ("ᾭ", "ὭΙ");
   ("ᾮ", "ὮΙ"); ("ᾯ", "ὯΙ"); ("ᾰ", "Ᾰ"); ("ᾱ", "Ᾱ"); ("ᾲ", "ᾺΙ"); ("ᾳ", "ΑΙ");
   ("ᾴ", "ΆΙ"); ("ᾶ", "Α͂"); ("ᾷ", "Α͂Ι"); ("ᾼ", "ΑΙ"); ("ι", "Ι"); ("ῂ", "ῊΙ");
   ("ῃ", "ΗΙ"); ("ῄ", "ΉΙ"); ("ῆ", "Η͂"); ("ῇ", "Η͂Ι"); ("ῌ", "ΗΙ"); ("ῐ", "Ῐ");
   ("ῑ", "Ῑ"); ("ῒ", "Ϊ̀"); ("ΐ", "Ϊ́"); ("ῖ", "Ι͂"); ("ῗ", "Ϊ͂"); ("ῠ", "Ῠ");
   ("ῡ", "Ῡ"); ("ῢ", "Ϋ̀"); ("ΰ", "Ϋ́"); ("ῤ", "Ρ̓"); ("ῥ", "Ῥ"); ("ῦ", "Υ͂");
   ("ῧ", "Ϋ͂"); ("ῲ", "ῺΙ"); ("ῳ", "ΩΙ"); ("ῴ", "ΏΙ"); ("ῶ", "Ω͂"); ("ῷ", "Ω͂Ι");
   ("ῼ", "ΩΙ"); ("ⅎ", "Ⅎ"); ("ⅰ", "Ⅰ"); ("ⅱ", "Ⅱ"); ("ⅲ", "Ⅲ"); ("ⅳ", "Ⅳ");
   ("ⅴ", "Ⅴ"); ("ⅵ", "Ⅵ"); ("ⅶ", "Ⅶ"); ("ⅷ", "Ⅷ"); ("ⅸ", "Ⅸ"); ("ⅹ", "Ⅹ");
   ("ⅺ", "Ⅺ"); ("ⅻ", "Ⅻ"); ("ⅼ", "Ⅼ"); ("ⅽ", "Ⅽ"); ("ⅾ", "Ⅾ"); ("ⅿ", "Ⅿ");
   ("ↄ", "Ↄ"); ("ⓐ", "Ⓐ"); ("ⓑ", "Ⓑ"); ("ⓒ", "Ⓒ"); ("ⓓ", "Ⓓ"); ("ⓔ", "Ⓔ");
   ("ⓕ", "Ⓕ"); ("ⓖ", "Ⓖ"); ("ⓗ", "Ⓗ"); ("ⓘ", "Ⓘ"); ("ⓙ", "Ⓙ"); ("ⓚ", "Ⓚ");
   ("ⓛ", "Ⓛ"); ("ⓜ", "Ⓜ"); ("ⓝ", "Ⓝ"); ("ⓞ", "Ⓞ"); ("ⓟ", "Ⓟ"); ("ⓠ", "Ⓠ");
   ("ⓡ", "Ⓡ"); ("ⓢ", "Ⓢ"); ("ⓣ", "Ⓣ"); ("ⓤ", "Ⓤ"); ("ⓥ", "Ⓥ"); ("ⓦ", "Ⓦ");
   ("ⓧ", "Ⓧ"); ("ⓨ", "Ⓨ"); ("ⓩ", "Ⓩ"); ("ⰰ", "Ⰰ"); ("ⰱ", "Ⰱ"); ("ⰲ", "Ⰲ");
   ("ⰳ", "Ⰳ"); ("ⰴ", "Ⰴ"); ("ⰵ", "Ⰵ"); ("ⰶ", "Ⰶ"); ("ⰷ", "Ⰷ"); ("ⰸ", "Ⰸ");
   ("ⰹ", "Ⰹ"); ("ⰺ", "Ⰺ"); ("ⰻ", "Ⰻ"); ("ⰼ", "Ⰼ"); ("ⰽ", "Ⰽ"); ("ⰾ", "Ⰾ");
   ("ⰿ", "Ⰿ"); ("ⱀ", "Ⱀ"); ("ⱁ", "Ⱁ"); ("ⱂ", "Ⱂ"); ("ⱃ", "Ⱃ"); ("ⱄ", "Ⱄ");
   ("ⱅ", "Ⱅ"); ("ⱆ", "Ⱆ"); ("ⱇ", "Ⱇ"); ("ⱈ", "Ⱈ"); ("ⱉ", "Ⱉ"); ("ⱊ", "Ⱊ");
   ("ⱋ", "Ⱋ"); ("ⱌ", "Ⱌ"); ("ⱍ", "Ⱍ"); ("ⱎ", "Ⱎ"); ("ⱏ", "Ⱏ"); ("ⱐ", "Ⱐ");
   ("ⱑ", "Ⱑ"); ("ⱒ", "Ⱒ"); ("ⱓ", "Ⱓ"); ("ⱔ", "Ⱔ"); ("ⱕ", "Ⱕ"); ("ⱖ", "Ⱖ")]
  ++
  [
   ("ⱗ", "Ⱗ"); ("ⱘ", "Ⱘ"); ("ⱙ", "Ⱙ"); ("ⱚ", "Ⱚ"); ("ⱛ", "Ⱛ"); ("ⱜ", "Ⱜ");
   ("ⱝ", "Ⱝ"); ("ⱞ", "Ⱞ"); ("ⱟ", "Ⱟ"); ("ⱡ", "Ⱡ"); ("ⱥ", "Ⱥ"); ("ⱦ", "Ⱦ");
   ("ⱨ", "Ⱨ"); ("ⱪ", "Ⱪ"); ("ⱬ", "Ⱬ"); ("ⱳ", "Ⱳ"); ("ⱶ", "Ⱶ"); ("ⲁ", "Ⲁ");
   ("ⲃ", "Ⲃ"); ("ⲅ", "Ⲅ"); ("ⲇ", "Ⲇ"); ("ⲉ", "Ⲉ"); ("ⲋ", "Ⲋ"); ("ⲍ", "Ⲍ");
   ("ⲏ", "Ⲏ"); ("ⲑ", "Ⲑ"); ("ⲓ", "Ⲓ"); ("ⲕ", "Ⲕ"); ("ⲗ", "Ⲗ"); ("ⲙ", "Ⲙ");
   ("ⲛ", "Ⲛ"); ("ⲝ", "Ⲝ"); ("ⲟ", "Ⲟ"); ("ⲡ", "Ⲡ"); ("ⲣ", "Ⲣ"); ("ⲥ", "Ⲥ");
   ("ⲧ", "Ⲧ"); ("ⲩ", "Ⲩ"); ("ⲫ", "Ⲫ"); ("ⲭ", "Ⲭ"); ("ⲯ", "Ⲯ"); ("ⲱ", "Ⲱ");
   ("ⲳ", "Ⲳ"); ("ⲵ", "Ⲵ"); ("ⲷ", "Ⲷ"); ("ⲹ", "Ⲹ"); ("ⲻ", "Ⲻ"); ("ⲽ", "Ⲽ");
   ("ⲿ", "Ⲿ"); ("ⳁ", "Ⳁ"); ("ⳃ", "Ⳃ"); ("ⳅ", "Ⳅ"); ("ⳇ", "Ⳇ"); ("ⳉ", "Ⳉ");
   ("ⳋ", "Ⳋ"); ("ⳍ", "Ⳍ"); ("ⳏ", "Ⳏ"); ("ⳑ", "Ⳑ"); ("ⳓ", "Ⳓ"); ("ⳕ", "Ⳕ");
   ("ⳗ", "Ⳗ"); ("ⳙ", "Ⳙ"); ("ⳛ", "Ⳛ"); ("ⳝ", "Ⳝ"); ("ⳟ", "Ⳟ"); ("ⳡ", "Ⳡ");
   ("ⳣ", "Ⳣ"); ("ⳬ", "Ⳬ"); ("ⳮ", "Ⳮ"); ("ⳳ", "Ⳳ"); ("ⴀ", "Ⴀ"); ("ⴁ", "Ⴁ");
   ("ⴂ", "Ⴂ"); ("ⴃ", "Ⴃ"); ("ⴄ", "Ⴄ"); ("ⴅ", "Ⴅ"); ("ⴆ", "Ⴆ"); ("ⴇ", "Ⴇ");
   ("ⴈ", "Ⴈ"); ("ⴉ", "Ⴉ"); ("ⴊ", "Ⴊ"); ("ⴋ", "Ⴋ"); ("ⴌ", "Ⴌ"); ("ⴍ", "Ⴍ");
   ("ⴎ", "Ⴎ"); ("ⴏ", "Ⴏ"); ("ⴐ", "Ⴐ"); ("ⴑ", "Ⴑ"); ("ⴒ", "Ⴒ"); ("ⴓ", "Ⴓ");
   ("ⴔ", "Ⴔ"); ("ⴕ", "Ⴕ"); ("ⴖ", "Ⴖ"); ("ⴗ", "Ⴗ"); ("ⴘ", "Ⴘ"); ("ⴙ", "Ⴙ");
   ("ⴚ", "Ⴚ"); ("ⴛ", "Ⴛ"); ("ⴜ", "Ⴜ"); ("ⴝ", "Ⴝ"); ("ⴞ", "Ⴞ"); ("ⴟ", "Ⴟ");
   ("ⴠ", "Ⴠ"); ("ⴡ", "Ⴡ"); ("ⴢ", "Ⴢ"); ("ⴣ", "Ⴣ"); ("ⴤ", "Ⴤ"); ("ⴥ", "Ⴥ");
   ("ⴧ", "Ⴧ"); ("ⴭ", "Ⴭ"); ("ꙁ", "Ꙁ"); ("ꙃ", "Ꙃ"); ("ꙅ", "Ꙅ"); ("ꙇ", "Ꙇ");
   ("ꙉ", "Ꙉ"); ("ꙋ", "Ꙋ"); ("ꙍ", "Ꙍ"); ("ꙏ", "Ꙏ"); ("ꙑ", "Ꙑ"); ("ꙓ", "Ꙓ");
   ("ꙕ", "Ꙕ"); ("ꙗ", "Ꙗ"); ("ꙙ", "Ꙙ"); ("ꙛ", "Ꙛ"); ("ꙝ", "Ꙝ"); ("ꙟ", "Ꙟ");
   ("ꙡ", "Ꙡ"); ("ꙣ", "Ꙣ"); ("ꙥ", "Ꙥ"); ("ꙧ", "Ꙧ"); ("ꙩ", "Ꙩ"); ("ꙫ", "Ꙫ");
   ("ꙭ", "Ꙭ"); ("ꚁ", "Ꚁ"); ("ꚃ", "Ꚃ"); ("ꚅ", "Ꚅ"); ("ꚇ", "Ꚇ"); ("ꚉ", "Ꚉ");
   ("ꚋ", "Ꚋ"); ("ꚍ", "Ꚍ"); ("ꚏ", "Ꚏ"); ("ꚑ", "Ꚑ"); ("ꚓ", "Ꚓ"); ("ꚕ", "Ꚕ");
   ("ꚗ", "Ꚗ"); ("ꚙ", "Ꚙ"); ("ꚛ", "Ꚛ"); ("ꜣ", "Ꜣ"); ("ꜥ", "Ꜥ"); ("ꜧ", "Ꜧ");
   ("ꜩ", "Ꜩ"); ("ꜫ", "Ꜫ"); ("ꜭ", "Ꜭ"); ("ꜯ", "Ꜯ"); ("ꜳ", "Ꜳ"); ("ꜵ", "Ꜵ");
   ("ꜷ", "Ꜷ"); ("ꜹ", "Ꜹ"); ("ꜻ", "Ꜻ"); ("ꜽ", "Ꜽ"); ("ꜿ", "Ꜿ"); ("ꝁ", "Ꝁ");
   ("ꝃ", "Ꝃ"); ("ꝅ", "Ꝅ"); ("ꝇ", "Ꝇ"); ("ꝉ", "Ꝉ"); ("ꝋ", "Ꝋ"); ("ꝍ", "Ꝍ");
   ("ꝏ", "Ꝏ"); ("ꝑ", "Ꝑ"); ("ꝓ", "Ꝓ"); ("ꝕ", "Ꝕ"); ("ꝗ", "Ꝗ"); ("ꝙ", "Ꝙ");
   ("ꝛ", "Ꝛ"); ("ꝝ", "Ꝝ"); ("ꝟ", "Ꝟ"); ("ꝡ", "Ꝡ"); ("ꝣ", "Ꝣ"); ("ꝥ", "Ꝥ");
   ("ꝧ", "Ꝧ"); ("ꝩ", "Ꝩ"); ("ꝫ", "Ꝫ"); ("ꝭ", "Ꝭ"); ("ꝯ", "Ꝯ"); ("ꝺ", "Ꝺ");
   ("ꝼ", "Ꝼ"); ("ꝿ", "Ꝿ"); ("ꞁ", "Ꞁ"); ("ꞃ", "Ꞃ"); ("ꞅ", "Ꞅ"); ("ꞇ", "Ꞇ");
   ("ꞌ", "Ꞌ"); ("ꞑ", "Ꞑ"); ("ꞓ", "Ꞓ"); ("ꞔ", "Ꞔ"); ("ꞗ", "Ꞗ"); ("ꞙ", "Ꞙ");
   ("ꞛ", "Ꞛ"); ("ꞝ", "Ꞝ"); ("ꞟ", "Ꞟ"); ("ꞡ", "Ꞡ"); ("ꞣ", "Ꞣ"); ("ꞥ", "Ꞥ");
   ("ꞧ", "Ꞧ"); ("ꞩ", "Ꞩ"); ("ꞵ", "Ꞵ"); ("ꞷ", "Ꞷ"); ("ꞹ", "Ꞹ"); ("ꞻ", "Ꞻ");
   ("ꞽ", "Ꞽ"); ("ꞿ", "Ꞿ"); ("ꟁ", "Ꟁ"); ("ꟃ", "Ꟃ"); ("ꟈ", "Ꟈ"); ("ꟊ", "Ꟊ");
   ("ꟑ", "Ꟑ"); ("ꟗ", "Ꟗ"); ("ꟙ", "Ꟙ"); ("ꟶ", "Ꟶ"); ("ꭓ", "Ꭓ"); ("ꭰ", "Ꭰ");
   ("ꭱ", "Ꭱ"); ("ꭲ", "Ꭲ"); ("ꭳ", "Ꭳ"); ("ꭴ", "Ꭴ"); ("ꭵ", "Ꭵ"); ("ꭶ", "Ꭶ");
   ("ꭷ", "Ꭷ"); ("ꭸ", "Ꭸ"); ("ꭹ", "Ꭹ"); ("ꭺ", "Ꭺ"); ("ꭻ", "Ꭻ"); ("ꭼ", "Ꭼ");
   ("ꭽ", "Ꭽ"); ("ꭾ", "Ꭾ"); ("ꭿ", "Ꭿ"); ("ꮀ", "Ꮀ"); ("ꮁ", "Ꮁ"); ("ꮂ", "Ꮂ");
   ("ꮃ", "Ꮃ"); ("ꮄ", "Ꮄ"); ("ꮅ", "Ꮅ"); ("ꮆ", "Ꮆ"); ("ꮇ", "Ꮇ"); ("ꮈ", "Ꮈ");
   ("ꮉ", "Ꮉ"); ("ꮊ", "Ꮊ"); ("ꮋ", "Ꮋ"); ("ꮌ", "Ꮌ"); ("ꮍ", "Ꮍ"); ("ꮎ", "Ꮎ");
   ("ꮏ", "Ꮏ"); ("ꮐ", "Ꮐ"); ("ꮑ", "Ꮑ"); ("ꮒ", "Ꮒ"); ("ꮓ", "Ꮓ"); ("ꮔ", "Ꮔ");
   ("ꮕ", "Ꮕ"); ("ꮖ", "Ꮖ"); ("ꮗ", "Ꮗ"); ("ꮘ", "Ꮘ"); ("ꮙ", "Ꮙ"); ("ꮚ", "Ꮚ");
   ("ꮛ", "Ꮛ"); ("ꮜ", "Ꮜ"); ("ꮝ", "Ꮝ"); ("ꮞ", "Ꮞ"); ("ꮟ", "Ꮟ"); ("ꮠ", "Ꮠ");
   ("ꮡ", "Ꮡ"); ("ꮢ", "Ꮢ"); ("ꮣ", "Ꮣ"); ("ꮤ", "Ꮤ"); ("ꮥ", "Ꮥ"); ("ꮦ", "Ꮦ");
   ("ꮧ", "Ꮧ"); ("ꮨ", "Ꮨ"); ("ꮩ", "Ꮩ"); ("ꮪ", "Ꮪ"); ("ꮫ", "Ꮫ"); ("ꮬ", "Ꮬ");
   ("ꮭ", "Ꮭ"); ("ꮮ", "Ꮮ"); ("ꮯ", "Ꮯ"); ("ꮰ", "Ꮰ"); ("ꮱ", "Ꮱ"); ("ꮲ", "Ꮲ");
   ("ꮳ", "Ꮳ"); ("ꮴ", "Ꮴ"); ("ꮵ", "Ꮵ"); ("ꮶ", "Ꮶ"); ("ꮷ", "Ꮷ"); ("ꮸ", "Ꮸ");
   ("ꮹ", "Ꮹ"); ("ꮺ", "Ꮺ"); ("ꮻ", "Ꮻ"); ("ꮼ", "Ꮼ"); ("ꮽ", "Ꮽ"); ("ꮾ", "Ꮾ")]
  ++
  [
   ("ꮿ", "Ꮿ"); ("ﬀ", "FF"); ("ﬁ", "FI"); ("ﬂ", "FL"); ("ﬃ", "FFI"); ("ﬄ", "FFL");
   ("ﬅ", "ST"); ("ﬆ", "ST"); ("ﬓ", "ՄՆ"); ("ﬔ", "ՄԵ"); ("ﬕ", "ՄԻ"); ("ﬖ", "ՎՆ");
   ("ﬗ", "ՄԽ"); ("ａ", "Ａ"); ("ｂ", "Ｂ"); ("ｃ", "Ｃ"); ("ｄ", "Ｄ"); ("ｅ", "Ｅ");
   ("ｆ", "Ｆ"); ("ｇ", "Ｇ"); ("ｈ", "Ｈ"); ("ｉ", "Ｉ"); ("ｊ", "Ｊ"); ("ｋ", "Ｋ");
   ("ｌ", "Ｌ"); ("ｍ", "Ｍ"); ("ｎ", "Ｎ"); ("ｏ", "Ｏ"); ("ｐ", "Ｐ"); ("ｑ", "Ｑ");
   ("ｒ", "Ｒ"); ("ｓ", "Ｓ"); ("ｔ", "Ｔ"); ("ｕ", "Ｕ"); ("ｖ", "Ｖ"); ("ｗ", "Ｗ");
   ("ｘ", "Ｘ"); ("ｙ", "Ｙ"); ("ｚ", "Ｚ"); ("𐐨", "𐐀"); ("𐐩", "𐐁"); ("𐐪", "𐐂");
   ("𐐫", "𐐃"); ("𐐬", "𐐄"); ("𐐭", "𐐅"); ("𐐮", "𐐆"); ("𐐯", "𐐇"); ("𐐰", "𐐈");
   ("𐐱", "𐐉"); ("𐐲", "𐐊"); ("𐐳", "𐐋"); ("𐐴", "𐐌"); ("𐐵", "𐐍"); ("𐐶", "𐐎");
   ("𐐷", "𐐏"); ("𐐸", "𐐐"); ("𐐹", "𐐑"); ("𐐺", "𐐒"); ("𐐻", "𐐓"); ("𐐼", "𐐔");
   ("𐐽", "𐐕"); ("𐐾", "𐐖"); ("𐐿", "𐐗"); ("𐑀", "𐐘"); ("𐑁", "𐐙"); ("𐑂", "𐐚");
   ("𐑃", "𐐛"); ("𐑄", "𐐜"); ("𐑅", "𐐝"); ("𐑆", "𐐞"); ("𐑇", "𐐟"); ("𐑈", "𐐠");
   ("𐑉", "𐐡"); ("𐑊", "𐐢"); ("𐑋", "𐐣"); ("𐑌", "𐐤"); ("𐑍", "𐐥"); ("𐑎", "𐐦");
   ("𐑏", "𐐧"); ("𐓘", "𐒰"); ("𐓙", "𐒱"); ("𐓚", "𐒲"); ("𐓛", "𐒳"); ("𐓜", "𐒴");
   ("𐓝", "𐒵"); ("𐓞", "𐒶"); ("𐓟", "𐒷"); ("𐓠", "𐒸"); ("𐓡", "𐒹"); ("𐓢", "𐒺");
   ("𐓣", "𐒻"); ("𐓤", "𐒼"); ("𐓥", "𐒽"); ("𐓦", "𐒾"); ("𐓧", "𐒿"); ("𐓨", "𐓀");
   ("𐓩", "𐓁"); ("𐓪", "𐓂"); ("𐓫", "𐓃"); ("𐓬", "𐓄"); ("𐓭", "𐓅"); ("𐓮", "𐓆");
   ("𐓯", "𐓇"); ("𐓰", "𐓈"); ("𐓱", "𐓉"); ("𐓲", "𐓊"); ("𐓳", "𐓋"); ("𐓴", "𐓌");
   ("𐓵", "𐓍"); ("𐓶", "𐓎"); ("𐓷", "𐓏"); ("𐓸", "𐓐"); ("𐓹", "𐓑"); ("𐓺", "𐓒");
   ("𐓻", "𐓓"); ("𐖗", "𐕰"); ("𐖘", "𐕱"); ("𐖙", "𐕲"); ("𐖚", "𐕳"); ("𐖛", "𐕴");
   ("𐖜", "𐕵"); ("𐖝", "𐕶"); ("𐖞", "𐕷"); ("𐖟", "𐕸"); ("𐖠", "𐕹"); ("𐖡", "𐕺");
   ("𐖣", "𐕼"); ("𐖤", "𐕽"); ("𐖥", "𐕾"); ("𐖦", "𐕿"); ("𐖧", "𐖀"); ("𐖨", "𐖁");
   ("𐖩", "𐖂"); ("𐖪", "𐖃"); ("𐖫", "𐖄"); ("𐖬", "𐖅"); ("𐖭", "𐖆"); ("𐖮", "𐖇");
   ("𐖯", "𐖈"); ("𐖰", "𐖉"); ("𐖱", "𐖊"); ("𐖳", "𐖌"); ("𐖴", "𐖍"); ("𐖵", "𐖎");
   ("𐖶", "𐖏"); ("𐖷", "𐖐"); ("𐖸", "𐖑"); ("𐖹", "𐖒"); ("𐖻", "𐖔"); ("𐖼", "𐖕");
   ("𐳀", "𐲀"); ("𐳁", "𐲁"); ("𐳂", "𐲂"); ("𐳃", "𐲃"); ("𐳄", "𐲄"); ("𐳅", "𐲅");
   ("𐳆", "𐲆"); ("𐳇", "𐲇"); ("𐳈", "𐲈"); ("𐳉", "𐲉"); ("𐳊", "𐲊"); ("𐳋", "𐲋");
   ("𐳌", "𐲌"); ("𐳍", "𐲍"); ("𐳎", "𐲎"); ("𐳏", "𐲏"); ("𐳐", "𐲐"); ("𐳑", "𐲑");
   ("𐳒", "𐲒"); ("𐳓", "𐲓"); ("𐳔", "𐲔"); ("𐳕", "𐲕"); ("𐳖", "𐲖"); ("𐳗", "𐲗");
   ("𐳘", "𐲘"); ("𐳙", "𐲙"); ("𐳚", "𐲚"); ("𐳛", "𐲛"); ("𐳜", "𐲜"); ("𐳝", "𐲝");
   ("𐳞", "𐲞"); ("𐳟", "𐲟"); ("𐳠", "𐲠"); ("𐳡", "𐲡"); ("𐳢", "𐲢"); ("𐳣", "𐲣");
   ("𐳤", "𐲤"); ("𐳥", "𐲥"); ("𐳦", "𐲦"); ("𐳧", "𐲧"); ("𐳨", "𐲨"); ("𐳩", "𐲩");
   ("𐳪", "𐲪"); ("𐳫", "𐲫"); ("𐳬", "𐲬"); ("𐳭", "𐲭"); ("𐳮", "𐲮"); ("𐳯", "𐲯");
   ("𐳰", "𐲰"); ("𐳱", "𐲱"); ("𐳲", "𐲲"); ("𑣀", "𑢠"); ("𑣁", "𑢡"); ("𑣂", "𑢢");
   ("𑣃", "𑢣"); ("𑣄", "𑢤"); ("𑣅", "𑢥"); ("𑣆", "𑢦"); ("𑣇", "𑢧"); ("𑣈", "𑢨");
   ("𑣉", "𑢩"); ("𑣊", "𑢪"); ("𑣋", "𑢫"); ("𑣌", "𑢬"); ("𑣍", "𑢭"); ("𑣎", "𑢮");
   ("𑣏", "𑢯"); ("𑣐", "𑢰"); ("𑣑", "𑢱"); ("𑣒", "𑢲"); ("𑣓", "𑢳"); ("𑣔", "𑢴");
   ("𑣕", "𑢵"); ("𑣖", "𑢶"); ("𑣗", "𑢷"); ("𑣘", "𑢸"); ("𑣙", "𑢹"); ("𑣚", "𑢺");
   ("𑣛", "𑢻"); ("𑣜", "𑢼"); ("𑣝", "𑢽"); ("𑣞", "𑢾"); ("𑣟", "𑢿"); ("𖹠", "𖹀");
   ("𖹡", "𖹁"); ("𖹢", "𖹂"); ("𖹣", "𖹃"); ("𖹤", "𖹄"); ("𖹥", "𖹅"); ("𖹦", "𖹆");
   ("𖹧", "𖹇"); ("𖹨", "𖹈"); ("𖹩", "𖹉"); ("𖹪", "𖹊"); ("𖹫", "𖹋"); ("𖹬", "𖹌");
   ("𖹭", "𖹍"); ("𖹮", "𖹎"); ("𖹯", "𖹏"); ("𖹰", "𖹐"); ("𖹱", "𖹑"); ("𖹲", "𖹒");
   ("𖹳", "𖹓"); ("𖹴", "𖹔"); ("𖹵", "𖹕"); ("𖹶", "𖹖"); ("𖹷", "𖹗"); ("𖹸", "𖹘");
   ("𖹹", "𖹙"); ("𖹺", "𖹚"); ("𖹻", "𖹛"); ("𖹼", "𖹜"); ("𖹽", "𖹝"); ("𖹾", "𖹞");
   ("𖹿", "𖹟"); ("𞤢", "𞤀"); ("𞤣", "𞤁"); ("𞤤", "𞤂"); ("𞤥", "𞤃"); ("𞤦", "𞤄");
   ("𞤧", "𞤅"); ("𞤨", "𞤆"); ("𞤩", "𞤇"); ("𞤪", "𞤈"); ("𞤫", "𞤉"); ("𞤬", "𞤊");
   ("𞤭", "𞤋"); ("𞤮", "𞤌"); ("𞤯", "𞤍"); ("𞤰", "𞤎"); ("𞤱", "𞤏"); ("𞤲", "𞤐");
   ("𞤳", "𞤑"); ("𞤴", "𞤒"); ("𞤵", "𞤓"); ("𞤶", "𞤔"); ("𞤷", "𞤕"); ("𞤸", "𞤖");
   ("𞤹", "𞤗"); ("𞤺", "𞤘"); ("𞤻", "𞤙"); ("𞤼", "𞤚"); ("𞤽", "𞤛"); ("𞤾", "𞤜");
   ("𞤿", "𞤝"); ("𞥀", "𞤞"); ("𞥁", "𞤟"); ("𞥂", "𞤠"); ("𞥃", "𞤡")].

End Unicode.

(** ** JavaScript string primitives used by the sources *)

Module JsString.

Fixpoint map_chars (f : ascii -> ascii) (s : string) : string :=
  match s with
  | EmptyString => EmptyString
  | String c r => String (f c) (map_chars f r)
  end.

Definition code (c : ascii) : N := N_of_ascii c.

Definition isEmpty (s : string) : bool :=
  match s with EmptyString => true | _ => false end.

(** *** Characters

    A character of a string is a byte together with the continuation
    bytes (binary 10xxxxxx) that follow it: for UTF-8 text, the encoding
    of one code point. *)
Definition isContinuation (c : ascii) : bool :=
  ((128 <=? code c) && (code c <? 192))%N.

Definition startsWithContinuation (s : string) : bool :=
  match s with
  | String c _ => isContinuation c
  | EmptyString => false
  end.

Fixpoint chars (s : string) : list string :=
  match s with
  | EmptyString => []
  | String c r =>
      if startsWithContinuation r
      then match chars r with
           | first :: rest => String c first :: rest
           | [] => [String c EmptyString]
           end
      else String c EmptyString :: chars r
  end.

Fixpoint fromChars (l : list string) : string :=
  match l with
  | [] => EmptyString
  | x :: r => (x ++ fromChars r)%string
  end.

Fixpoint allContinuation (s : string) : bool :=
  match s with
  | EmptyString => true
  | String c r => isContinuation c && allContinuation r
  end.

(** One character: a byte and nothing but continuation bytes after it. *)
Definition isChar (x : string) : bool :=
  match x with
  | String _ t => allContinuation t
  | EmptyString => false
  end.

Definition fromBytes (l : list N) : string :=
  string_of_list_ascii (List.map ascii_of_N l).

(** The white space and line terminator code points of ECMAScript, which
    [trim] and [parseInt] strip: U+0009 to U+000D, U+0020, U+00A0, U+1680,
    U+2000 to U+200A, U+2028, U+2029, U+202F, U+205F, U+3000 and U+FEFF. *)
Definition whiteSpace : list string :=
  List.map fromBytes
    [[9]; [10]; [11]; [12]; [13]; [32]; [194; 160]; [225; 154; 128];
     [226; 128; 128]; [226; 128; 129]; [226; 128; 130]; [226; 128; 131];
     [226; 128; 132]; [226; 128; 133]; [226; 128; 134]; [226; 128; 135];
     [226; 128; 136]; [226; 128; 137]; [226; 128; 138]; [226; 128; 168];
     [226; 128; 169]; [226; 128; 175]; [226; 129; 159]; [227; 128; 128];
     [239; 187; 191]]%N.

Definition isWhiteSpaceChar (ch : string) : bool :=
  existsb (String.eqb ch) whiteSpace.

Fixpoint dropWhiteSpace (l : list string) : list string :=
  match l with
  | [] => []
  | x :: r => if isWhiteSpaceChar x then dropWhiteSpace r else l
  end.

(** [String.prototype.trimStart], [trimEnd] and [trim] *)
Definition trimStart (s : string) : string :=
  fromChars (dropWhiteSpace (chars s)).

Definition trimEnd (s : string) : string :=
  fromChars (rev (dropWhiteSpace (rev (chars s)))).

Definition trim (s : string) : string := trimEnd (trimStart s).

(** Upper case of one byte: the letters a to z. *)
Definition upperChar (c : ascii) : ascii :=
  if ((97 <=? code c) && (code c <=? 122))%N
  then ascii_of_N (code c - 32) else c.

(** The upper-case form of one character: by [upperChar] for a single
    byte, by the table for a longer sequence; itself when the table has
    no entry. *)
Definition upperOf (ch : string) : string :=
  match ch with
  | String c EmptyString => String (upperChar c) EmptyString
  | _ =>
      match List.find (fun kv => String.eqb (fst kv) ch) Unicode.upperTable with
      | Some (_, upper) => upper
      | None => ch
      end
  end.

(** [String.prototype.toUpperCase]: character by character, without
    regard to context or locale. *)
Definition toUpperCase (s : string) : string :=
  fromChars (List.map upperOf (chars s)).

(** [s.replace(/-/g, '_')] *)
Definition hyphenToUnderscore (c : ascii) : ascii :=
  if (code c =? 45)%N then "_"%char else c.
Definition replaceHyphens : string -> string := map_chars hyphenToUnderscore.

(** [hay.includes(needle)]: some suffix of [hay] starts with [needle]. *)
Fixpoint includes (hay needle : string) : bool :=
  String.prefix needle hay ||
  match hay with
  | EmptyString => false
  | String _ r => includes r needle
  end.

(** Truthiness of a string value: only the empty string is falsy. *)
Definition truthy (s : string) : bool := negb (isEmpty s).

(** Truthiness of [string | null | undefined]. *)
Definition truthyOpt (o : option string) : bool :=
  match o with Some s => truthy s | None => false end.

End JsString.

(** ** Values shared by the modules *)

(** An awaited call either resolves with a value or rejects with an
    [Error] carrying a message. *)
Inductive Result (A : Type) : Type :=
  | Ok (value : A)
  | Throws (message : string).
Arguments Ok {A} value.
Arguments Throws {A} message.

(** [String(e)] for an [Error] instance ([Error.prototype.toString]): the
    name alone when the message is empty, otherwise name, colon, message. *)
Definition errorToString (message : string) : string :=
  if JsString.isEmpty message then "Error" else ("Error: " ++ message)%string.

(** The double-quote character, for JSON text. *)
Definition dq : string := String (ascii_of_N 34) EmptyString.

(** ** [src/api/types.ts] *)

Module Types.

Inductive TaskStatus := todo | inprogress | inreview | done | cancelled.

Definition TaskStatus_eqb (a b : TaskStatus) : bool :=
  match a, b with
  | todo, todo | inprogress, inprogress | inreview, inreview
  | done, done | cancelled, cancelled => true
  | _, _ => false
  end.

#[global] Instance TaskStatus_eq_dec : EqDecision TaskStatus.
Proof. solve_decision. Defined.

Record TaskWithAttemptStatus := {
  task_id : string;
  project_id : string;
  title : string;
  description : option string;
  status : TaskStatus;
  attempt_status : option string;
}.

Record ExecutorProfileId := {
  executor : string;
  variant : option string;
}.

Record Session := {
  session_id : string;
  workspace_id : string;
  session_executor : option string;
}.

(** [ExecutionProcess]; the status is the word the Gateway sent. *)
Record ExecutionProcess := {
  process_id : string;
  process_session : string;
  process_status : string;
  exit_code : option Z;
}.

Record CreateFollowUpRequest := {
  prompt : string;
  followup_profile : ExecutorProfileId;
}.

Record QueueMessageRequest := {
  message : string;
  queue_profile : ExecutorProfileId;
}.

Inductive QueueStatus :=
  | Empty
  | Queued (message : string) (profile : ExecutorProfileId).

End Types.

(** ** [src/api/client.ts] *)

Module VibeClient.
Import JsString Types.

(** [executor.trim().replace(/-/g, '_').toUpperCase()], the expression of
    [buildExecutorProfile] and [startWorkspaceSession]. *)
Definition normalizeExecutor (executor : string) : string :=
  toUpperCase (replaceHyphens (trim executor)).

(** [variant ? { executor: normalized, variant } : { executor: normalized }] *)
Definition buildExecutorProfile (exec : string) (var : option string)
  : ExecutorProfileId :=
  let normalized := normalizeExecutor exec in
  if truthyOpt var
  then {| executor := normalized; variant := var |}
  else {| executor := normalized; variant := None |}.

(** [arr.slice(0, end)] for an integer [end]: a negative [end] counts
    from the back, and the result is clamped to the array. *)
Definition slice0 {A} (l : list A) (e : Z) : list A :=
  let len := Z.of_nat (List.length l) in
  let final := if (e <? 0)%Z then Z.max (len + e) 0 else Z.min e len in
  firstn (Z.to_nat final) l.

(** [listTasks(status?, limit?)], given the Gateway's answer to the task
    request.  A [limit] of zero is falsy and leaves the list whole. *)
Definition listTasks (response : Result (list TaskWithAttemptStatus))
    (st : option TaskStatus) (limit : option Z)
  : Result (list TaskWithAttemptStatus) :=
  match response with
  | Throws m => Throws m
  | Ok tasks =>
      let filtered :=
        match st with
        | Some wanted =>
            List.filter (fun t => TaskStatus_eqb (status t) wanted) tasks
        | None => tasks
        end in
      Ok match limit with
         | Some n => if (n =? 0)%Z then filtered else slice0 filtered n
         | None => filtered
         end
  end.

(** The task list restricted to the tasks whose status equals the
    filter, the whole list when no filter is given: the reading of the
    filter that [listTasks] is compared with. *)
Definition restrictedTo (st : option TaskStatus)
    (tasks : list TaskWithAttemptStatus) : list TaskWithAttemptStatus :=
  match st with
  | Some wanted => filter (fun t => status t = wanted) tasks
  | None => tasks
  end.

End VibeClient.

(** ** The tools module: the [send_message] handler *)

Module Tools.
Import JsString Types.

Record SendMessageArgs := {
  arg_session_id : string;
  arg_prompt : string;
  arg_executor : option string;
  arg_variant : option string;
  auto_queue : option bool;
}.

(** The three Gateway calls of the handler, answered by the world. *)
Record Gateway := {
  getSession : string -> Result Session;
  sendFollowUp : string -> CreateFollowUpRequest -> Result ExecutionProcess;
  queueMessage : string -> QueueMessageRequest -> Result QueueStatus;
}.

Inductive GatewayCall :=
  | CallGetSession (sid : string)
  | CallSendFollowUp (sid : string) (req : CreateFollowUpRequest)
  | CallQueueMessage (sid : string) (req : QueueMessageRequest).

(** What the handler returns: the two success summaries, or
    [formatError] with its type and message. *)
Inductive ToolResult :=
  | MessageSent (executor : string) (process : string)
  | MessageQueued (executor : string)
  | ToolError (type : string) (message : string).

(** [args.auto_queue !== false && (errorStr.includes(...) || ...)] *)
Definition shouldQueue (aq : option bool) (errorStr : string) : bool :=
  negb (match aq with Some false => true | _ => false end)
  && (includes errorStr "running"
      || includes errorStr "busy"
      || includes errorStr "409"
      || includes errorStr "conflict").

(** [args.executor || session.executor] *)
Definition resolveExecutor (a : SendMessageArgs) (s : Session)
  : option string :=
  if truthyOpt (arg_executor a) then arg_executor a else session_executor s.

(** The bodies of the two requests the handler may send. *)
Definition followUpRequest (a : SendMessageArgs) (exec : string)
  : CreateFollowUpRequest :=
  {| prompt := arg_prompt a;
     followup_profile := VibeClient.buildExecutorProfile exec (arg_variant a) |}.

Definition queueRequest (a : SendMessageArgs) (exec : string)
  : QueueMessageRequest :=
  {| message := arg_prompt a;
     queue_profile := VibeClient.buildExecutorProfile exec (arg_variant a) |}.

Definition EXECUTOR_REQUIRED : ToolResult :=
  ToolError "EXECUTOR_REQUIRED"
    "Session has no prior executions. Provide executor parameter.".

(** [sendMessageTool.handler]: the result and the Gateway calls made, in
    order.  Every exception ends in the outer [catch], which answers
    SEND_FAILED with the stringified error. *)
Definition sendMessage (g : Gateway) (a : SendMessageArgs)
  : ToolResult * list GatewayCall :=
  let sid := arg_session_id a in
  match getSession g sid with
  | Throws m => (ToolError "SEND_FAILED" (errorToString m), [CallGetSession sid])
  | Ok session =>
      match resolveExecutor a session with
      | None => (EXECUTOR_REQUIRED, [CallGetSession sid])
      | Some exec =>
          if negb (truthy exec) then (EXECUTOR_REQUIRED, [CallGetSession sid])
          else
          let send := followUpRequest a exec in
          match sendFollowUp g sid send with
          | Ok process =>
              (MessageSent (toUpperCase exec) (process_id process),
               [CallGetSession sid; CallSendFollowUp sid send])
          | Throws m =>
              let errorStr := errorToString m in
              if shouldQueue (auto_queue a) errorStr then
                let queue := queueRequest a exec in
                match queueMessage g sid queue with
                | Ok _ =>
                    (MessageQueued (toUpperCase exec),
                     [CallGetSession sid; CallSendFollowUp sid send;
                      CallQueueMessage sid queue])
                | Throws m' =>
                    (ToolError "SEND_FAILED" (errorToString m'),
                     [CallGetSession sid; CallSendFollowUp sid send;
                      CallQueueMessage sid queue])
                end
              else
                (ToolError "SEND_FAILED" errorStr,
                 [CallGetSession sid; CallSendFollowUp sid send])
          end
      end
  end.

(** The queueing path was taken: [queueMessage] was called. *)
Definition queueAttempted (calls : list GatewayCall) : bool :=
  existsb (fun c => match c with CallQueueMessage _ _ => true | _ => false end)
          calls.

End Tools.

(** ** [src/resources.ts]: URI parsing and the subscription manager *)

Module Resources.
Import JsString.

Inductive ParsedUri :=
  | PTasks
  | PTask (taskId : string)
  | PSession (sessionId : string)
  | PQueue (sessionId : string)
  | PContext.

(** One character of the class [[0-9a-f-]] under the [i] flag. *)
Definition isIdChar (c : ascii) : bool :=
  ((48 <=? code c) && (code c <=? 57)
   || (97 <=? code c) && (code c <=? 102)
   || (65 <=? code c) && (code c <=? 70)
   || (code c =? 45))%N.

(** Two characters match under the [i] flag when their upper-case forms
    agree. *)
Definition eqCharCI (a b : ascii) : bool :=
  Ascii.eqb (upperChar a) (upperChar b).

(** Match the literal [lit] at the start of [s], ignoring case; the rest
    of [s] on success. *)
Fixpoint stripPrefixCI (lit s : string) : option string :=
  match lit with
  | EmptyString => Some s
  | String a lit' =>
      match s with
      | EmptyString => None
      | String b s' => if eqCharCI a b then stripPrefixCI lit' s' else None
      end
  end.

(** The longest run of id characters at the start of [s], and what
    follows it. *)
Fixpoint spanId (s : string) : string * string :=
  match s with
  | EmptyString => (EmptyString, EmptyString)
  | String c r =>
      if isIdChar c
      then let '(i, rest) := spanId r in (String c i, rest)
      else (EmptyString, s)
  end.

(** [^lit([0-9a-f-]+)tail$] with the [i] flag: the captured id. *)
Definition matchId (lit tail uri : string) : option string :=
  match stripPrefixCI lit uri with
  | None => None
  | Some rest =>
      let '(i, after) := spanId rest in
      if isEmpty i then None
      else match stripPrefixCI tail after with
           | Some EmptyString => Some i
           | _ => None
           end
  end.

Definition parseResourceUri (uri : string) : option ParsedUri :=
  if String.eqb uri "vibe://tasks" then Some PTasks
  else if String.eqb uri "vibe://context" then Some PContext
  else match matchId "vibe://tasks/" "" uri with
  | Some i => Some (PTask i)
  | None =>
  match matchId "vibe://sessions/" "/queue" uri with
  | Some i => Some (PQueue i)
  | None =>
  match matchId "vibe://sessions/" "" uri with
  | Some i => Some (PSession i)
  | None => None
  end end end.

(** What a fetch resolves with, as far as [JSON.stringify] tells values
    apart: [undefined] (the Gateway's envelope had no [data]), or a value,
    given by its JSON text. *)
Inductive Payload :=
  | Undefined
  | Value (json : string).

(** [JSON.stringify(data)]: [undefined] for [undefined]. *)
Definition JSON_stringify (data : Payload) : option string :=
  match data with
  | Undefined => None
  | Value json => Some json
  end.

(** What one poll tick meets outside the process: the configuration, the
    Gateway's answers to the client's requests, and whether the
    notification transport delivers ([true]) or rejects ([false]). *)
Record World := {
  workspaceId : option string;
  listTasks : Result Payload;
  getWorkspaceContext : string -> Result Payload;
  getTask : string -> Result Payload;
  getSession : string -> Result Payload;
  getQueueStatus : string -> Result Payload;
  sendResourceUpdated : string -> bool;
}.

(** The JSON text of [{ error: 'VIBE_WORKSPACE_ID not set' }] *)
Definition workspaceUnset : string :=
  ("{" ++ dq ++ "error" ++ dq ++ ":" ++ dq
   ++ "VIBE_WORKSPACE_ID not set" ++ dq ++ "}")%string.

Definition fetchResourceData (w : World) (parsed : ParsedUri)
  : Result Payload :=
  match parsed with
  | PTasks => listTasks w
  | PContext =>
      match workspaceId w with
      | Some ws =>
          if truthy ws then getWorkspaceContext w ws
          else Ok (Value workspaceUnset)
      | None => Ok (Value workspaceUnset)
      end
  | PTask taskId => getTask w taskId
  | PSession sessionId => getSession w sessionId
  | PQueue sessionId => getQueueStatus w sessionId
  end.

(** The state of a [SubscriptionManager]: the [Set] in insertion order,
    the [Map] of last hashes, and whether an interval timer is set. *)
Record SubscriptionManager := {
  subscriptions : list string;
  lastHashes : gmap string string;
  pollTimer : bool;
}.

Definition create : SubscriptionManager :=
  {| subscriptions := []; lastHashes := ∅; pollTimer := false |}.

(** [Set.prototype.add] and [delete] on the insertion-ordered list. *)
Definition setAdd (uri : string) (l : list string) : list string :=
  if bool_decide (uri ∈ l) then l else l ++ [uri].
Definition setDelete (uri : string) (l : list string) : list string :=
  List.filter (fun x => negb (String.eqb x uri)) l.

Definition startPolling (m : SubscriptionManager) : SubscriptionManager :=
  {| subscriptions := subscriptions m; lastHashes := lastHashes m;
     pollTimer := true |}.

Definition stopPolling (m : SubscriptionManager) : SubscriptionManager :=
  if pollTimer m
  then {| subscriptions := subscriptions m; lastHashes := lastHashes m;
          pollTimer := false |}
  else m.

Definition subscribe (uri : string) (m : SubscriptionManager)
  : SubscriptionManager :=
  let m1 := {| subscriptions := setAdd uri (subscriptions m);
               lastHashes := lastHashes m; pollTimer := pollTimer m |} in
  if negb (pollTimer m1) then startPolling m1 else m1.

Definition unsubscribe (uri : string) (m : SubscriptionManager)
  : SubscriptionManager :=
  let m1 := {| subscriptions := setDelete uri (subscriptions m);
               lastHashes := delete uri (lastHashes m);
               pollTimer := pollTimer m |} in
  if Nat.eqb (List.length (subscriptions m1)) 0 then stopPolling m1 else m1.

Section Polling.
(** [createHash('sha256').update(json).digest('hex')] *)
Variable sha256_hex : string -> string.

(** The body of the [for] loop of [checkForChanges] for one URI, on the
    hash table and the notifications delivered so far.  A throw
    anywhere in the [try] block leaves the rest of the block undone: a
    rejected fetch, the hash [update] called with [undefined], or a
    rejected notification send. *)
Definition checkUri (w : World)
    (acc : gmap string string * list string) (uri : string)
  : gmap string string * list string :=
  let '(hashes, sent) := acc in
  match parseResourceUri uri with
  | None => acc
  | Some parsed =>
      match fetchResourceData w parsed with
      | Throws _ => acc
      | Ok data =>
          match JSON_stringify data with
          | None => acc
          | Some json =>
              let hash := sha256_hex json in
              let lastHash := hashes !! uri in
              if truthyOpt lastHash
                 && negb (bool_decide (lastHash = Some hash))
              then
                if sendResourceUpdated w uri
                then (<[uri := hash]> hashes, sent ++ [uri])
                else acc
              else (<[uri := hash]> hashes, sent)
          end
      end
  end.

(** The loop body seen from the entry of its own URI: the entry after
    it, and whether a notification was delivered.  [checkUri] touches
    nothing else (lemma [checkUri_outcome]). *)
Definition uriOutcome (w : World) (lastHash : option string)
    (uri : string) : option string * bool :=
  match parseResourceUri uri with
  | None => (lastHash, false)
  | Some parsed =>
      match fetchResourceData w parsed with
      | Throws _ => (lastHash, false)
      | Ok data =>
          match JSON_stringify data with
          | None => (lastHash, false)
          | Some json =>
              let hash := sha256_hex json in
              if truthyOpt lastHash
                 && negb (bool_decide (lastHash = Some hash))
              then
                if sendResourceUpdated w uri then (Some hash, true)
                else (lastHash, false)
              else (Some hash, false)
          end
      end
  end.

(** [checkForChanges]: the manager after the tick and the
    notifications delivered during it. *)
Definition checkForChanges (w : World) (m : SubscriptionManager)
  : SubscriptionManager * list string :=
  let '(hashes, sent) :=
    fold_left (checkUri w) (subscriptions m) (lastHashes m, []) in
  ({| subscriptions := subscriptions m; lastHashes := hashes;
      pollTimer := pollTimer m |}, sent).

(** What can happen to a manager: the three public methods, and the
    interval timer firing (which it only does while set).  A tick is one
    step: no method call is interleaved with the awaits of
    [checkForChanges]. *)
Inductive Event :=
  | Subscribe (uri : string)
  | Unsubscribe (uri : string)
  | StopPolling
  | Tick (w : World).

Definition step (m : SubscriptionManager) (e : Event)
  : SubscriptionManager * list string :=
  match e with
  | Subscribe uri => (subscribe uri m, [])
  | Unsubscribe uri => (unsubscribe uri m, [])
  | StopPolling => (stopPolling m, [])
  | Tick w => if pollTimer m then checkForChanges w m else (m, [])
  end.

(** Run a sequence of events; the notifications of all ticks, in
    order. *)
Fixpoint run (m : SubscriptionManager) (es : list Event)
  : SubscriptionManager * list string :=
  match es with
  | [] => (m, [])
  | e :: es' =>
      let '(m1, out1) := step m e in
      let '(m2, out2) := run m1 es' in
      (m2, out1 ++ out2)
  end.

Definition reachable (m : SubscriptionManager) : Prop :=
  exists es, fst (run create es) = m.

(** What holds of every reachable manager: the subscription list has
    no duplicates and every stored hash is a digest. *)
Definition consistent (m : SubscriptionManager) : Prop :=
  NoDup (subscriptions m)
  /\ forall uri h, lastHashes m !! uri = Some h ->
                   exists json, h = sha256_hex json.

End Polling.

End Resources.

(** ** [src/tasks.ts]: the execution tracker *)

Module Tasks.
Import JsString Types.

Definition POLL_INTERVAL_MS : Z := 5000.
Definition MAX_POLL_ITERATIONS : nat := 120.

(** The status of the tracking record kept by the task store. *)
Inductive McpStatus := working | completed | failed | cancelled.

(** The type [ExecutionProcessStatus]: the four words of the Gateway. *)
Definition ExecutionProcessStatus (s : string) : Prop :=
  s ∈ ["running"; "completed"; "failed"; "killed"].

(** [mapStatus], on the word received; the [default] arm answers for any
    word outside the type. *)
Definition mapStatus (vibeStatus : string) : McpStatus :=
  if String.eqb vibeStatus "running" then working
  else if String.eqb vibeStatus "completed" then completed
  else if String.eqb vibeStatus "failed" then failed
  else if String.eqb vibeStatus "killed" then cancelled
  else working.

(** What the tracker last wrote to the task store: [updateTaskStatus]
    leaves a status message, [storeTaskResult] the headline and exit code
    of the result text. *)
Inductive TaskUpdate :=
  | StatusUpdate (status : McpStatus) (statusMessage : string)
  | StoredResult (status : McpStatus) (headline : string)
      (exit_code : option Z).

Definition updateStatus (u : TaskUpdate) : McpStatus :=
  match u with StatusUpdate s _ | StoredResult s _ _ => s end.

(** What one loop iteration meets outside the process. *)
Record World := {
  aborted : bool;
  getExecutionProcess : string -> Result ExecutionProcess;
  listExecutionProcesses : string -> Result (list ExecutionProcess);
}.

Inductive GatewayCall :=
  | CallGetProcess (processId : string)
  | CallListProcesses (sessionId : string).

(** [processes.find(p => p.id === processId)] *)
Definition findProcess (processId : string) (ps : list ExecutionProcess)
  : option ExecutionProcess :=
  List.find (fun p => String.eqb (process_id p) processId) ps.

(** The inner [try]/[catch] of an iteration. *)
Inductive Fetched :=
  | Found (process : ExecutionProcess)
  | NotFound
  | FetchThrew (message : string).

Definition fetchProcess (w : World) (processId sessionId : string)
  : Fetched * list GatewayCall :=
  match getExecutionProcess w processId with
  | Ok process => (Found process, [CallGetProcess processId])
  | Throws _ =>
      (match listExecutionProcesses w sessionId with
       | Throws m => FetchThrew m
       | Ok processes =>
           match findProcess processId processes with
           | None => NotFound
           | Some found => Found found
           end
       end,
       [CallGetProcess processId; CallListProcesses sessionId])
  end.

(** How one iteration ends: the function returns after a last write to
    the task store, or the loop goes on. *)
Inductive Iteration :=
  | Return (last : TaskUpdate)
  | Continue.

(** The rest of the outer [try] block once the process is at hand.
    The progress notification sent in between is best effort: [p.emit]
    catches whatever the transport throws, so it never ends the block. *)
Definition withProcess (process : ExecutionProcess) : Iteration :=
  let mcpStatus := mapStatus (process_status process) in
  match mcpStatus with
  | completed =>
      Return (StoredResult completed "Execution Completed"
                (exit_code process))
  | failed =>
      Return (StoredResult failed "Execution Failed" (exit_code process))
  | cancelled => Return (StatusUpdate cancelled "Execution killed")
  | working => Continue
  end.

(** One pass through the body of the [for] loop: how it ends, the status
    word the Gateway reported (if the process was fetched) and the
    Gateway calls made. *)
Definition pollIteration (w : World) (processId sessionId : string)
  : Iteration * option string * list GatewayCall :=
  if aborted w
  then (Return (StatusUpdate cancelled "Cancelled by client"), None, [])
  else
    let '(fetched, calls) := fetchProcess w processId sessionId in
    match fetched with
    | Found process =>
        (withProcess process, Some (process_status process), calls)
    | NotFound =>
        (Return (StatusUpdate failed "Execution process not found"),
         None, calls)
    | FetchThrew _ => (Continue, None, calls)
    end.

(** The loop from iteration [i] with [remaining] iterations left, over
    the worlds met at each iteration: the last write to the task store
    and the status words reported on the way. *)
Fixpoint pollFrom (ws : nat -> World) (processId sessionId : string)
    (remaining i : nat) : TaskUpdate * list string :=
  match remaining with
  | O => (StatusUpdate failed "Timed out after 10 minutes", [])
  | S remaining' =>
      let '(it, reported, _) := pollIteration (ws i) processId sessionId in
      let seen := match reported with Some s => [s] | None => [] end in
      match it with
      | Return last => (last, seen)
      | Continue =>
          let '(last, later) :=
            pollFrom ws processId sessionId remaining' (S i) in
          (last, seen ++ later)
      end
  end.

(** [pollExecutionProcess] *)
Definition pollExecutionProcess (ws : nat -> World)
    (processId sessionId : string) : TaskUpdate * list string :=
  pollFrom ws processId sessionId MAX_POLL_ITERATIONS 0.

End Tasks.

(** ** Sample worlds, used to run the definitions on concrete inputs *)

Module Samples.
Import Types.

Definition session1 : Session :=
  {| session_id := "5e55"; workspace_id := "a0"; session_executor := Some "claude-code" |}.

Definition process1 : ExecutionProcess :=
  {| process_id := "e1"; process_session := "5e55";
     process_status := "running"; exit_code := None |}.

(** A session that is busy: the follow-up is refused with a 409, the
    queue accepts ([queueUp]) or refuses in turn. *)
Definition busyGateway (queueUp : bool) : Tools.Gateway :=
  {| Tools.getSession := fun _ => Ok session1;
     Tools.sendFollowUp := fun _ _ => Throws "API error: 409 conflict";
     Tools.queueMessage := fun _ req =>
       if queueUp then Ok (Queued (message req) (queue_profile req))
       else Throws "API error: queue unavailable" |}.

Definition plainArgs (aq : option bool) : Tools.SendMessageArgs :=
  {| Tools.arg_session_id := "5e55"; Tools.arg_prompt := "Add error handling";
     Tools.arg_executor := None; Tools.arg_variant := None;
     Tools.auto_queue := aq |}.

(** A stand-in for the digest, and the Gateway's task list as seen by
    the subscription poll: [tasks] is the serialized list, and
    notifications are delivered when [delivers]. *)
Definition digest (json : string) : string := ("sha256:" ++ json)%string.

Definition pollWorld (tasks : Result string) (delivers : bool)
  : Resources.World :=
  {| Resources.workspaceId := None;
     Resources.listTasks :=
       match tasks with
       | Ok json => Ok (Resources.Value json)
       | Throws m => Throws m
       end;
     Resources.getWorkspaceContext := fun _ => Throws "API error: no context";
     Resources.getTask := fun _ => Throws "API error: no task";
     Resources.getSession := fun _ => Throws "API error: no session";
     Resources.getQueueStatus := fun _ => Throws "API error: no queue";
     Resources.sendResourceUpdated := fun _ => delivers |}.

Definition tasksUri : string := "vibe://tasks".

(** A manager subscribed to the task list that has polled it once, when
    the list was empty. *)
Definition polledOnce : Resources.SubscriptionManager :=
  fst (Resources.run digest Resources.create
         [Resources.Subscribe tasksUri;
          Resources.Tick (pollWorld (Ok "[]") true)]).

(** Two subscriptions, the second of which is not a resource URI. *)
Definition twoSubscriptions : Resources.SubscriptionManager :=
  fst (Resources.run digest Resources.create
         [Resources.Subscribe tasksUri;
          Resources.Subscribe "vibe://nowhere";
          Resources.Tick (pollWorld (Ok "[]") true)]).

(** The tracker's world while the process runs, and one in which the
    direct fetch fails and the session's list is [listed]. *)
Definition runningWorld : Tasks.World :=
  {| Tasks.aborted := false;
     Tasks.getExecutionProcess := fun _ => Ok process1;
     Tasks.listExecutionProcesses := fun _ => Ok [process1] |}.

Definition fallbackWorld (listed : Result (list ExecutionProcess))
  : Tasks.World :=
  {| Tasks.aborted := false;
     Tasks.getExecutionProcess := fun _ => Throws "API error: not found";
     Tasks.listExecutionProcesses := fun _ => listed |}.

End Samples.

(** ** [src/resources.ts]: what the resource handlers advertise *)

Module ResourceHandlers.
Import JsString Resources.

(** The URIs of the ListResources handler: the task list, and the
    workspace context when a workspace is configured. *)
Definition listResources (workspaceId : option string) : list string :=
  "vibe://tasks"
  :: (if truthyOpt workspaceId then ["vibe://context"] else []).

(** The two fixed URIs, and the three templates of the
    ListResourceTemplates handler with the id filled in. *)
Definition uriOf (p : ParsedUri) : string :=
  match p with
  | PTasks => "vibe://tasks"
  | PContext => "vibe://context"
  | PTask taskId => ("vibe://tasks/" ++ taskId)%string
  | PSession sessionId => ("vibe://sessions/" ++ sessionId)%string
  | PQueue sessionId => ("vibe://sessions/" ++ sessionId ++ "/queue")%string
  end.

Fixpoint allChars (p : ascii -> bool) (s : string) : bool :=
  match s with
  | EmptyString => true
  | String c r => p c && allChars p r
  end.

(** A non-empty run of hexadecimal digits and hyphens: what the three
    patterns capture. *)
Definition isId (s : string) : bool :=
  negb (isEmpty s) && allChars isIdChar s.

Definition idOf (p : ParsedUri) : option string :=
  match p with
  | PTask i | PSession i | PQueue i => Some i
  | PTasks | PContext => None
  end.

(** Equality of strings up to the case of ASCII letters. *)
Fixpoint eqStringCI (a b : string) : bool :=
  match a, b with
  | EmptyString, EmptyString => true
  | String x a', String y b' => eqCharCI x y && eqStringCI a' b'
  | _, _ => false
  end.

End ResourceHandlers.

(** ** [src/tasks.ts]: the Gateway calls of the tracker loop *)

Module TrackerCalls.
Import Tasks.

(** The Gateway calls [pollExecutionProcess] makes, in order: those of
    each iteration up to and including the one that returns. *)
Fixpoint callsFrom (ws : nat -> World) (processId sessionId : string)
    (remaining i : nat) : list GatewayCall :=
  match remaining with
  | O => []
  | S remaining' =>
      let '(it, _, calls) := pollIteration (ws i) processId sessionId in
      match it with
      | Return _ => calls
      | Continue =>
          calls ++ callsFrom ws processId sessionId remaining' (S i)
      end
  end.

Definition pollCalls (ws : nat -> World) (processId sessionId : string)
  : list GatewayCall :=
  callsFrom ws processId sessionId MAX_POLL_ITERATIONS 0.

(** The status words that end the loop. *)
Definition terminalWords : list string := ["completed"; "failed"; "killed"].

End TrackerCalls.

(** ** The tools module: the [list_tasks] handler *)

Module ListTasksTool.
Import Types.

(** [args.limit || 50] *)
Definition effectiveLimit (limit : option Z) : Z :=
  match limit with
  | Some n => if (n =? 0)%Z then 50%Z else n
  | None => 50%Z
  end.

(** [client.listTasks(args.status, args.limit || 50)] *)
Definition fetchTasks (response : Result (list TaskWithAttemptStatus))
    (st : option TaskStatus) (limit : option Z)
  : Result (list TaskWithAttemptStatus) :=
  VibeClient.listTasks response st (Some (effectiveLimit limit)).

(** [counts[s] = (counts[s] || 0) + 1] on an object whose keys keep the
    order of their first insertion. *)
Fixpoint bump (s : TaskStatus) (counts : list (TaskStatus * nat))
  : list (TaskStatus * nat) :=
  match counts with
  | [] => [(s, 1)]
  | (k, n) :: rest =>
      if TaskStatus_eqb k s then (k, S n) :: rest else (k, n) :: bump s rest
  end.

(** [tasks.forEach(t => { counts[t.status] = ... })] *)
Definition countByStatus (tasks : list TaskWithAttemptStatus)
  : list (TaskStatus * nat) :=
  fold_left (fun counts t => bump (status t) counts) tasks [].

(** The count shown for a status: its entry, or nothing shown. *)
Definition countOf (s : TaskStatus) (counts : list (TaskStatus * nat))
  : option nat :=
  match List.find (fun kn => TaskStatus_eqb (fst kn) s) counts with
  | Some (_, n) => Some n
  | None => None
  end.

End ListTasksTool.

(** ** [src/api/client.ts]: the request primitive and what is built on it *)

Module Transport.
Import JsString.

(** What [spawnSync('curl', ...)] returns: the message of a spawn error,
    the exit status ([null] when killed by a signal), and the two
    streams. *)
Record SpawnResult := {
  spawn_error : option string;
  spawn_status : option Z;
  spawn_stderr : option string;
  spawn_stdout : option string;
}.

(** The envelope of the Gateway after [JSON.parse]. *)
Record ApiResponse (T : Type) := {
  success : bool;
  data : option T;
  api_message : option string;
}.
Arguments success {T} _.
Arguments data {T} _.
Arguments api_message {T} _.

(** What [request] resolves with: the empty object, or the [data] field of
    the envelope (which may be missing). *)
Inductive Response (T : Type) :=
  | EmptyObject
  | Data (d : option T).
Arguments EmptyObject {T}.
Arguments Data {T} d.

(** [`${result.status}`] *)
Definition statusText (st : option Z) : string :=
  match st with Some n => pretty n | None => "null" end.

(** [x || fallback] on strings. *)
Definition orElse (o : option string) (fallback : string) : string :=
  match o with
  | Some s => if truthy s then s else fallback
  | None => fallback
  end.

Section Request.
Context {T : Type}.
(** [JSON.parse] on the body: the envelope, or the message of the error
    thrown while parsing or while reading the envelope. *)
Variable JSON_parse : string -> Result (ApiResponse T).

(** The body of the [try] block of [request]. *)
Definition attempt (r : SpawnResult) : Result (Response T) :=
  match spawn_error r with
  | Some m => Throws ("curl execution failed: " ++ m)%string
  | None =>
      if negb (bool_decide (spawn_status r = Some 0%Z)) then
        let stderr := orElse (option_map trim (spawn_stderr r)) "" in
        Throws ("HTTP request failed (curl exit "
                ++ statusText (spawn_status r) ++ "): " ++ stderr)%string
      else
        match spawn_stdout r with
        | None => Ok EmptyObject
        | Some output =>
            if negb (truthy output) || isEmpty (trim output)
            then Ok EmptyObject
            else
              match JSON_parse output with
              | Throws m => Throws m
              | Ok json =>
                  if negb (success json)
                  then Throws (orElse (api_message json)
                                 "API returned unsuccessful response")
                  else Ok (Data (data json))
              end
        end
  end.

(** [request]: every [Error] caught is thrown again with the prefix. *)
Definition request (r : SpawnResult) : Result (Response T) :=
  match attempt r with
  | Ok v => Ok v
  | Throws m => Throws ("API error: " ++ m)%string
  end.

End Request.

End Transport.

Module RepoResolution.
Import JsString Transport.

Record Repo := { repo_id : string; repo_name : string }.

(** The fields of a [VibeClient]. *)
Record Client := {
  baseUrl : string;
  projectId : string;
  repoId : option string;
  _resolvedRepoId : option string;
}.

Definition newline : string := String (ascii_of_N 10) EmptyString.

Fixpoint join (sep : string) (l : list string) : string :=
  match l with
  | [] => EmptyString
  | [x] => x
  | x :: rest => (x ++ sep ++ join sep rest)%string
  end.

Definition noRepositories (c : Client) : string :=
  ("No repositories found in project " ++ projectId c
   ++ ". Create a repository first.")%string.

Definition manyRepositories (repos : list Repo) : string :=
  ("Project has " ++ pretty (List.length repos)
   ++ " repositories. Please set VIBE_REPO_ID explicitly." ++ newline
   ++ "Available repos:" ++ newline
   ++ join newline
        (List.map (fun r => "  - " ++ repo_name r ++ " (" ++ repo_id r ++ ")")
           repos))%string.

(** The request of the repositories, and the cache update, of
    [getRepoId].  The empty object that [request] gives for an empty body
    has no [length] and no first element: reading [repos[0].id] throws a
    [TypeError] (V8's wording). *)
Definition fetchRepoId (c : Client) (answer : Result (Response (list Repo)))
  : Result string * Client * bool :=
  match answer with
  | Throws m => (Throws m, c, true)
  | Ok EmptyObject =>
      (Throws "Cannot read properties of undefined (reading 'id')", c, true)
  | Ok (Data None) => (Throws (noRepositories c), c, true)
  | Ok (Data (Some repos)) =>
      match repos with
      | [] => (Throws (noRepositories c), c, true)
      | [r] =>
          (Ok (repo_id r),
           {| baseUrl := baseUrl c; projectId := projectId c;
              repoId := repoId c; _resolvedRepoId := Some (repo_id r) |},
           true)
      | _ => (Throws (manyRepositories repos), c, true)
      end
  end.

(** [getRepoId], given the Gateway's answer to the repositories request
    should one be made: the result, the client afterwards, and whether the
    request was made. *)
Definition getRepoId (c : Client) (answer : Result (Response (list Repo)))
  : Result string * Client * bool :=
  match repoId c with
  | Some locked =>
      if truthy locked then (Ok locked, c, false)
      else match _resolvedRepoId c with
           | Some cached =>
               if truthy cached then (Ok cached, c, false)
               else fetchRepoId c answer
           | None => fetchRepoId c answer
           end
  | None =>
      match _resolvedRepoId c with
      | Some cached =>
          if truthy cached then (Ok cached, c, false)
          else fetchRepoId c answer
      | None => fetchRepoId c answer
      end
  end.

Record Workspace := { workspace_id : string; workspace_task : string }.

Record RepoBranch := { target_repo : string; target_branch : string }.

Record StartPayload := {
  payload_task : string;
  payload_profile : Types.ExecutorProfileId;
  payload_repos : list RepoBranch;
}.

(** [startWorkspaceSession]: the result, the client afterwards, and the
    payloads posted to the Gateway. *)
Definition startWorkspaceSession (c : Client)
    (reposAnswer : Result (Response (list Repo)))
    (post : StartPayload -> Result (Response Workspace))
    (taskId executor : string) (variant baseBranch : option string)
  : Result (Response Workspace) * Client * list StartPayload :=
  match getRepoId c reposAnswer with
  | (Throws m, c', _) => (Throws m, c', [])
  | (Ok repo, c', _) =>
      let normalizedExecutor :=
        toUpperCase (replaceHyphens (trim executor)) in
      let payload :=
        {| payload_task := taskId;
           payload_profile :=
             if truthyOpt variant
             then {| Types.executor := normalizedExecutor;
                     Types.variant := variant |}
             else {| Types.executor := normalizedExecutor;
                     Types.variant := None |};
           payload_repos :=
             [{| target_repo := repo;
                 target_branch := orElse baseBranch "main" |}] |} in
      (post payload, c', [payload])
  end.

End RepoResolution.

Module TagExpansion.
Import JsString Transport.

Record Tag := { tag_name : string; content : string }.

(** A character of the class [[^\s@]]. *)
Definition isTokenChar (ch : string) : bool :=
  negb (isWhiteSpaceChar ch) && negb (String.eqb ch "@").

(** [text.match(/@([^\s@]+)/g)], scanning the characters from the left;
    [cur] is the token being read after an at sign, if any. *)
Fixpoint scan (l : list string) (cur : option string) : list string :=
  let close := match cur with
               | Some acc => if isEmpty acc then [] else [("@" ++ acc)%string]
               | None => []
               end in
  match l with
  | [] => close
  | ch :: r =>
      match cur with
      | Some acc =>
          if isTokenChar ch
          then scan r (Some (acc ++ ch)%string)
          else close ++ scan r (if String.eqb ch "@" then Some EmptyString
                                else None)
      | None => scan r (if String.eqb ch "@" then Some EmptyString else None)
      end
  end.

Definition matchTokens (text : string) : list string :=
  scan (chars text) None.

(** [match.slice(1)] *)
Definition slice1 (s : string) : string :=
  match s with EmptyString => EmptyString | String _ r => r end.

(** [new Map(tags.map(t => [t.tag_name, t.content]))]: a later tag of the
    same name replaces an earlier one. *)
Definition tagMapOf (tags : list Tag) : gmap string string :=
  fold_left (fun m t => <[tag_name t := content t]> m) tags ∅.

Section Expand.
(** [result.replace(new RegExp(pattern, 'g'), replacement)]: the regular
    expression engine, which throws on a pattern that is not well
    formed. *)
Variable regexReplaceAll : string -> string -> string -> Result string.

(** The [for] loop over the matches. *)
Fixpoint substitute (tagMap : gmap string string) (matches : list string)
    (result : string) : Result string :=
  match matches with
  | [] => Ok result
  | mt :: rest =>
      let tagName := slice1 mt in
      match tagMap !! tagName with
      | Some content =>
          if truthy content then
            match regexReplaceAll ("@" ++ tagName)%string content result with
            | Ok result' => substitute tagMap rest result'
            | Throws m => Throws m
            end
          else substitute tagMap rest result
      | None => substitute tagMap rest result
      end
  end.

(** [expandTags], given the Gateway's answer to the tags request should
    one be made: the text, and whether the request was made. *)
Definition expandTags (text : string)
    (tagsAnswer : Result (Response (list Tag))) : string * bool :=
  match matchTokens text with
  | [] => (text, false)
  | matches =>
      match tagsAnswer with
      | Ok (Data (Some tags)) =>
          match substitute (tagMapOf tags) matches text with
          | Ok result => (result, true)
          | Throws _ => (text, true)
          end
      | _ => (text, true)
      end
  end.

End Expand.

End TagExpansion.

(** ** The configuration loader *)

Module Config.
Import JsString.

(** The environment variables that [loadConfig] reads. *)
Record Env := {
  VIBE_PROJECT_ID : option string;
  VIBE_REPO_ID : option string;
  VIBE_API_URL : option string;
  VIBE_WORKSPACE_ID : option string;
  VIBE_RESOURCE_POLL_INTERVAL : option string;
}.

Record Config := {
  projectId : string;
  repoId : option string;
  baseUrl : string;
  workspaceId : option string;
  resourcePollIntervalMs : Z;
}.

Definition isHexDigit (c : ascii) : bool :=
  ((48 <=? code c) && (code c <=? 57)
   || (97 <=? code c) && (code c <=? 102)
   || (65 <=? code c) && (code c <=? 70))%N.

(** [[0-9a-f]{n}] under the [i] flag, at the start of [s]: what follows. *)
Fixpoint hexRun (n : nat) (s : string) : option string :=
  match n with
  | O => Some s
  | S n' =>
      match s with
      | String c r => if isHexDigit c then hexRun n' r else None
      | EmptyString => None
      end
  end.

Definition hyphen (s : string) : option string :=
  match s with
  | String c r => if Ascii.eqb c "-" then Some r else None
  | EmptyString => None
  end.

(** [UUID_REGEX.test(s)] *)
Definition isUuid (s : string) : bool :=
  match hexRun 8 s with
  | Some s1 => match hyphen s1 with
  | Some s2 => match hexRun 4 s2 with
  | Some s3 => match hyphen s3 with
  | Some s4 => match hexRun 4 s4 with
  | Some s5 => match hyphen s5 with
  | Some s6 => match hexRun 4 s6 with
  | Some s7 => match hyphen s7 with
  | Some s8 => match hexRun 12 s8 with
  | Some rest => isEmpty rest
  | None => false end
  | None => false end
  | None => false end
  | None => false end
  | None => false end
  | None => false end
  | None => false end
  | None => false end
  | None => false end.

Definition isDigit (c : ascii) : bool :=
  ((48 <=? code c) && (code c <=? 57))%N.

(** The decimal digits at the start of [s], read from the left onto
    [acc]; nothing when there is no digit. *)
Fixpoint digits (s : string) (acc : option N) : option N :=
  match s with
  | String c r =>
      if isDigit c
      then digits r (Some (10 * default 0%N acc + (code c - 48))%N)
      else acc
  | EmptyString => acc
  end.

(** [parseInt(s, 10)]: leading white space, a sign, then digits; [None]
    is [NaN].  Exact as long as the value is below 2^53. *)
Definition parseInt10 (s : string) : option Z :=
  let s1 := trimStart s in
  let '(negative, s2) :=
    match s1 with
    | String c r =>
        if Ascii.eqb c "-" then (true, r)
        else if Ascii.eqb c "+" then (false, r) else (false, s1)
    | EmptyString => (false, s1)
    end in
  match digits s2 None with
  | Some n => Some (if negative then (- Z.of_N n)%Z else Z.of_N n)
  | None => None
  end.

(** [s.replace(/\/$/, '')] *)
Fixpoint stripTrailingSlash (s : string) : string :=
  match s with
  | EmptyString => EmptyString
  | String c r =>
      if Ascii.eqb c "/" && isEmpty r then EmptyString
      else String c (stripTrailingSlash r)
  end.

(** [x || fallback] on an environment variable. *)
Definition orDefault (o : option string) (fallback : string) : string :=
  match o with
  | Some s => if truthy s then s else fallback
  | None => fallback
  end.

(** How [loadConfig] ends: with a configuration, or with the message
    printed before [process.exit(1)]. *)
Inductive Loaded :=
  | Configured (config : Config)
  | Exit (message : string).

Definition loadConfig (env : Env) : Loaded :=
  let repo := if truthyOpt (VIBE_REPO_ID env) then VIBE_REPO_ID env else None in
  let base := orDefault (VIBE_API_URL env) "http://localhost:9119" in
  let interval :=
    parseInt10 (orDefault (VIBE_RESOURCE_POLL_INTERVAL env) "10000") in
  match VIBE_PROJECT_ID env with
  | None => Exit "[vibe-kanban-mcp] Error: VIBE_PROJECT_ID is required"
  | Some project =>
      if negb (truthy project)
      then Exit "[vibe-kanban-mcp] Error: VIBE_PROJECT_ID is required"
      else if negb (isUuid project)
      then Exit ("[vibe-kanban-mcp] Error: VIBE_PROJECT_ID must be a valid UUID. Got: "
                 ++ project)%string
      else
        match repo with
        | Some r =>
            if negb (isUuid r)
            then Exit ("[vibe-kanban-mcp] Error: VIBE_REPO_ID must be a valid UUID. Got: "
                       ++ r)%string
            else Configured
                   {| projectId := project; repoId := repo;
                      baseUrl := stripTrailingSlash base;
                      workspaceId := VIBE_WORKSPACE_ID env;
                      resourcePollIntervalMs := default 10000%Z interval |}
        | None =>
            Configured
              {| projectId := project; repoId := repo;
                 baseUrl := stripTrailingSlash base;
                 workspaceId := VIBE_WORKSPACE_ID env;
                 resourcePollIntervalMs := default 10000%Z interval |}
        end
  end.

End Config.

(** * Properties *)

(** ** The definitions on concrete inputs *)

Example parse_tasks :
  Resources.parseResourceUri "vibe://tasks" = Some Resources.PTasks.
Proof. reflexivity. Qed.

Example parse_task_id :
  Resources.parseResourceUri "vibe://tasks/0a1b-2c3D"
  = Some (Resources.PTask "0a1b-2c3D").
Proof. reflexivity. Qed.

Example parse_queue_ignores_case :
  Resources.parseResourceUri "VIBE://Sessions/be-ef/Queue"
  = Some (Resources.PQueue "be-ef").
Proof. reflexivity. Qed.

Example parse_session :
  Resources.parseResourceUri "vibe://sessions/be-ef"
  = Some (Resources.PSession "be-ef").
Proof. reflexivity. Qed.

Example parse_rejects :
  Resources.parseResourceUri "vibe://tasks/" = None
  /\ Resources.parseResourceUri "vibe://tasks/xyz" = None
  /\ Resources.parseResourceUri "vibe://sessions/be-ef/queue/1" = None
  /\ Resources.parseResourceUri "VIBE://TASKS" = None.
Proof. repeat split. Qed.

Example normalizeExecutor_beyond_ascii :
  VibeClient.normalizeExecutor "café-x" = "CAFÉ_X"
  /\ VibeClient.normalizeExecutor "ß-pro" = "SS_PRO"
  /\ VibeClient.normalizeExecutor
       (JsString.fromBytes [194; 160]%N ++ "amp"
        ++ JsString.fromBytes [226; 128; 168]%N)%string = "AMP"
  /\ JsString.toUpperCase "straße" = "STRASSE".
Proof. repeat split; vm_compute; reflexivity. Qed.

Example includes_is_case_sensitive :
  JsString.includes "Error: API error: 409 Conflict" "conflict" = false
  /\ JsString.includes "Error: API error: 409 Conflict" "409" = true.
Proof. split; reflexivity. Qed.

Example slice0_examples :
  VibeClient.slice0 [1; 2; 3] 2 = [1; 2]
  /\ VibeClient.slice0 [1; 2; 3] 7 = [1; 2; 3]
  /\ VibeClient.slice0 [1; 2; 3] (-1) = [1; 2].
Proof. repeat split. Qed.

Example tracker_sees_completion :
  Tasks.pollExecutionProcess
    (fun i => if Nat.ltb i 2 then Samples.runningWorld
              else Samples.fallbackWorld
                     (Ok [{| Types.process_id := "e1";
                             Types.process_session := "5e55";
                             Types.process_status := "completed";
                             Types.exit_code := Some 0%Z |}]))
    "e1" "5e55"
  = (Tasks.StoredResult Tasks.completed "Execution Completed" (Some 0%Z),
     ["running"; "running"; "completed"]).
Proof. reflexivity. Qed.

(** ** Lemmas on the string primitives *)

Section JsStringFacts.
Import JsString.

Lemma string_app_cons x (a b : string) :
  (String x a ++ b = String x (a ++ b))%string.
Proof. reflexivity. Qed.

Lemma string_app_nil (b : string) : (EmptyString ++ b = b)%string.
Proof. reflexivity. Qed.

Lemma string_app_empty_r (s : string) : (s ++ "")%string = s.
Proof.
  induction s as [|c r IH]; [reflexivity|].
  now rewrite string_app_cons, IH.
Qed.

(** A property of bytes that holds of all 256. *)
Lemma all_chars (P : ascii -> bool) :
  forallb (fun n => P (ascii_of_nat n)) (seq 0 256) = true ->
  forall c, P c = true.
Proof.
  intros H c. rewrite <- (ascii_nat_embedding c).
  rewrite forallb_forall in H. apply H, in_seq.
  pose proof (nat_ascii_bounded c). lia.
Qed.

Lemma map_chars_compose f g s :
  map_chars f (map_chars g s) = map_chars (fun c => f (g c)) s.
Proof. induction s as [|c r IH]; simpl; [reflexivity | now rewrite IH]. Qed.

Lemma map_chars_ext f g s :
  (forall c, f c = g c) -> map_chars f s = map_chars g s.
Proof.
  intros E. induction s as [|c r IH]; simpl; [reflexivity|].
  now rewrite E, IH.
Qed.

(** *** Strings and their characters *)

Lemma chars_cons c r :
  chars (String c r)
  = if startsWithContinuation r
    then match chars r with
         | first :: rest => String c first :: rest
         | [] => [String c EmptyString]
         end
    else String c EmptyString :: chars r.
Proof. reflexivity. Qed.

Lemma fromChars_chars s : fromChars (chars s) = s.
Proof.
  induction s as [|c r IH]; [reflexivity|]. rewrite chars_cons.
  destruct (startsWithContinuation r).
  - destruct (chars r) as [|first rest]; cbn [fromChars] in *.
    + now rewrite <- IH.
    + now rewrite string_app_cons, IH.
  - cbn [fromChars]. now rewrite IH.
Qed.

Lemma chars_head c r : exists t rest, chars (String c r) = String c t :: rest.
Proof.
  rewrite chars_cons. destruct (startsWithContinuation r); [|eauto].
  destruct (chars r); eauto.
Qed.

Lemma chars_app a b :
  startsWithContinuation b = false ->
  chars (a ++ b) = chars a ++ chars b.
Proof.
  intros Hb. induction a as [|c r IH]; [reflexivity|].
  rewrite string_app_cons. rewrite chars_cons. destruct r as [|d r'].
  - rewrite string_app_nil, Hb. reflexivity.
  - rewrite IH. rewrite string_app_cons.
    rewrite (chars_cons c (String d r')). cbn [startsWithContinuation].
    destruct (isContinuation d); [|reflexivity].
    destruct (chars_head d r') as (t & rest & E). now rewrite E.
Qed.

Lemma chars_isChar s : Forall (fun x => isChar x = true) (chars s).
Proof.
  induction s as [|c r IH]; [constructor|]. rewrite chars_cons.
  destruct (startsWithContinuation r) eqn:E.
  - destruct r as [|d r']; [discriminate|].
    destruct (chars_head d r') as (t & rest & Eh). rewrite Eh in *.
    apply Forall_cons in IH as [Ht Hrest]. constructor; [|exact Hrest].
    cbn [isChar allContinuation] in *. cbn in E. now rewrite E, Ht.
  - constructor; [reflexivity | exact IH].
Qed.

(** Every character but the first starts with a byte that is not a
    continuation byte. *)
Lemma chars_tail s :
  Forall (fun x => startsWithContinuation x = false) (tail (chars s)).
Proof.
  induction s as [|c r IH]; [constructor|]. rewrite chars_cons.
  destruct (startsWithContinuation r) eqn:E.
  - destruct (chars r); [constructor | exact IH].
  - cbn [tail]. destruct r as [|d r']; [constructor|].
    destruct (chars_head d r') as (t & rest & Eh). rewrite Eh in *.
    constructor; [exact E | exact IH].
Qed.

Lemma chars_of_char x : isChar x = true -> chars x = [x].
Proof.
  destruct x as [|c t]; [discriminate|]. cbn [isChar]. revert c.
  induction t as [|d t IH]; intros c H; [reflexivity|].
  cbn [allContinuation] in H. apply andb_true_iff in H as [Hd Ht].
  rewrite chars_cons. cbn [startsWithContinuation].
  now rewrite Hd, (IH d Ht).
Qed.

Lemma chars_fromChars l :
  Forall (fun x => isChar x = true) l ->
  Forall (fun x => startsWithContinuation x = false) (tail l) ->
  chars (fromChars l) = l.
Proof.
  induction l as [|x l IH]; intros Hc Ht; [reflexivity|].
  apply Forall_cons in Hc as [Hx Hc]. cbn [fromChars tail] in *.
  destruct l as [|y l'].
  - cbn [fromChars]. rewrite string_app_empty_r. now apply chars_of_char.
  - apply Forall_cons in Ht as [Hy Ht].
    pose proof Hc as Hc'. apply Forall_cons in Hc' as [Hcy _].
    rewrite chars_app.
    + rewrite (chars_of_char x Hx), IH; [reflexivity | exact Hc | exact Ht].
    + cbn [fromChars]. destruct y as [|d t]; [discriminate|].
      rewrite string_app_cons. exact Hy.
Qed.

Lemma chars_inj a b : chars a = chars b -> a = b.
Proof.
  intros E. rewrite <- (fromChars_chars a), <- (fromChars_chars b).
  now rewrite E.
Qed.

(** *** White space at the ends *)

Lemma dropWhiteSpace_suffix l : exists pre, l = pre ++ dropWhiteSpace l.
Proof.
  induction l as [|x l [pre IH]]; [now exists []|]. cbn [dropWhiteSpace].
  destruct (isWhiteSpaceChar x); [|now exists []].
  exists (x :: pre). cbn. now rewrite <- IH.
Qed.

Lemma dropWhiteSpace_idem l :
  dropWhiteSpace (dropWhiteSpace l) = dropWhiteSpace l.
Proof.
  induction l as [|x l IH]; [reflexivity|]. cbn [dropWhiteSpace].
  destruct (isWhiteSpaceChar x) eqn:E; [exact IH|].
  cbn [dropWhiteSpace]. now rewrite E.
Qed.

Lemma dropWhiteSpace_length l :
  List.length (dropWhiteSpace l) <= List.length l.
Proof.
  induction l as [|x l IH]; [reflexivity|]. cbn [dropWhiteSpace].
  destruct (isWhiteSpaceChar x); cbn [List.length]; lia.
Qed.

(** A list is left alone exactly when it is empty or starts with a
    character that is not white space. *)
Lemma dropWhiteSpace_fixed x l :
  dropWhiteSpace (x :: l) = x :: l <-> isWhiteSpaceChar x = false.
Proof.
  cbn [dropWhiteSpace]. destruct (isWhiteSpaceChar x); split; try easy.
  intros E. pose proof (dropWhiteSpace_length l) as H. rewrite E in H.
  cbn [List.length] in H. lia.
Qed.

Lemma dropWhiteSpace_snoc l x :
  isWhiteSpaceChar x = false ->
  dropWhiteSpace (l ++ [x]) = dropWhiteSpace l ++ [x].
Proof.
  intros Hx. induction l as [|y l IH]; cbn [dropWhiteSpace app].
  - now rewrite Hx.
  - destruct (isWhiteSpaceChar y); [exact IH | reflexivity].
Qed.

(** Dropping at the end keeps a start that is not white space. *)
Lemma dropWhiteSpace_end_fixed l :
  dropWhiteSpace l = l ->
  dropWhiteSpace (rev (dropWhiteSpace (rev l)))
  = rev (dropWhiteSpace (rev l)).
Proof.
  destruct l as [|x l]; [reflexivity|]. intros H.
  apply dropWhiteSpace_fixed in H. cbn [rev].
  rewrite (dropWhiteSpace_snoc _ _ H), rev_app_distr. cbn [rev app].
  now apply dropWhiteSpace_fixed.
Qed.

Lemma dropWhiteSpace_map f l :
  (forall x, isWhiteSpaceChar x = false -> isWhiteSpaceChar (f x) = false) ->
  dropWhiteSpace l = l ->
  dropWhiteSpace (List.map f l) = List.map f l.
Proof.
  intros Hf. destruct l as [|x l]; [reflexivity|]. intros H.
  apply dropWhiteSpace_fixed in H. cbn [List.map].
  now apply dropWhiteSpace_fixed, Hf.
Qed.

Lemma dropWhiteSpace_flat_map (f : string -> list string) l :
  (forall x, In x l -> isWhiteSpaceChar x = false ->
     f x <> [] /\ Forall (fun d => isWhiteSpaceChar d = false) (f x)) ->
  dropWhiteSpace l = l ->
  dropWhiteSpace (flat_map f l) = flat_map f l.
Proof.
  destruct l as [|x l]; [reflexivity|]. intros Hf H.
  apply dropWhiteSpace_fixed in H.
  destruct (Hf x (or_introl eq_refl) H) as [Hne Hall]. cbn [flat_map].
  destruct (f x) as [|d ds]; [congruence|].
  apply Forall_cons in Hall as [Hd _]. cbn [app].
  now apply dropWhiteSpace_fixed.
Qed.

Lemma rev_flat_map {A B} (f : A -> list B) l :
  rev (flat_map f l) = flat_map (fun x => rev (f x)) (rev l).
Proof.
  induction l as [|x l IH]; [reflexivity|]. cbn [flat_map rev].
  rewrite rev_app_distr, IH, flat_map_app. cbn [flat_map].
  now rewrite app_nil_r.
Qed.

Lemma map_fixed {A} (f : A -> A) l :
  (forall x, In x l -> f x = x) -> List.map f l = l.
Proof.
  induction l as [|x l IH]; intros H; [reflexivity|]. cbn [List.map].
  rewrite (H x (or_introl eq_refl)), IH; [reflexivity|].
  intros y Hy. apply H. now right.
Qed.

Lemma flat_map_fixed {A} (f : A -> list A) l :
  (forall x, In x l -> f x = [x]) -> flat_map f l = l.
Proof.
  induction l as [|x l IH]; intros H; [reflexivity|]. cbn [flat_map].
  rewrite (H x (or_introl eq_refl)), IH; [reflexivity|].
  intros y Hy. apply H. now right.
Qed.

(** *** The three steps on the characters *)

Lemma chars_trimStart s : chars (trimStart s) = dropWhiteSpace (chars s).
Proof.
  unfold trimStart. pose proof (chars_isChar s) as Hc.
  pose proof (chars_tail s) as Ht.
  destruct (dropWhiteSpace_suffix (chars s)) as [pre E].
  rewrite E in Hc, Ht. apply Forall_app in Hc as [_ Hc].
  apply chars_fromChars; [exact Hc|].
  destruct pre as [|p pre]; [exact Ht|]. cbn [app tail] in Ht.
  apply Forall_app in Ht as [_ Ht].
  destruct (dropWhiteSpace (chars s)); [constructor|].
  now apply Forall_cons in Ht as [_ Ht].
Qed.

Lemma chars_trimEnd s :
  chars (trimEnd s) = rev (dropWhiteSpace (rev (chars s))).
Proof.
  unfold trimEnd. pose proof (chars_isChar s) as Hc.
  pose proof (chars_tail s) as Ht.
  destruct (dropWhiteSpace_suffix (rev (chars s))) as [pre E].
  apply (f_equal (@rev string)) in E.
  rewrite rev_involutive, rev_app_distr in E.
  rewrite E in Hc, Ht. apply Forall_app in Hc as [Hc _].
  apply chars_fromChars; [exact Hc|].
  destruct (rev (dropWhiteSpace (rev (chars s)))) as [|x kept];
    [constructor|].
  cbn [app tail] in Ht. now apply Forall_app in Ht as [Ht _].
Qed.

Lemma chars_trim s :
  chars (trim s)
  = rev (dropWhiteSpace (rev (dropWhiteSpace (chars s)))).
Proof. unfold trim. now rewrite chars_trimEnd, chars_trimStart. Qed.

Lemma chars_map_chars f s :
  (forall c, isContinuation (f c) = isContinuation c) ->
  chars (map_chars f s) = List.map (map_chars f) (chars s).
Proof.
  intros Hf. induction s as [|c r IH]; [reflexivity|].
  cbn [map_chars chars].
  assert (E : startsWithContinuation (map_chars f r)
              = startsWithContinuation r)
    by (destruct r; [reflexivity | apply Hf]).
  rewrite E, IH.
  destruct (startsWithContinuation r); [|reflexivity].
  now destruct (chars r).
Qed.

Lemma hyphenToUnderscore_continuation c :
  isContinuation (hyphenToUnderscore c) = isContinuation c.
Proof.
  apply Bool.eqb_prop.
  apply (all_chars (fun c => Bool.eqb (isContinuation (hyphenToUnderscore c))
                                      (isContinuation c))).
  vm_compute. reflexivity.
Qed.

Lemma chars_replaceHyphens s :
  chars (replaceHyphens s) = List.map replaceHyphens (chars s).
Proof. apply chars_map_chars, hyphenToUnderscore_continuation. Qed.

Lemma replaceHyphens_idem s :
  replaceHyphens (replaceHyphens s) = replaceHyphens s.
Proof.
  unfold replaceHyphens. rewrite map_chars_compose. apply map_chars_ext.
  intros c. apply Ascii.eqb_eq.
  apply (all_chars (fun c => Ascii.eqb
           (hyphenToUnderscore (hyphenToUnderscore c)) (hyphenToUnderscore c))).
  vm_compute. reflexivity.
Qed.

(** A string that [replaceHyphens] maps to one without underscores had
    no hyphen. *)
Lemma replaceHyphens_plain x :
  forallb (fun c => negb (Ascii.eqb c "_"))
    (list_ascii_of_string (replaceHyphens x)) = true ->
  replaceHyphens x = x.
Proof.
  unfold replaceHyphens. induction x as [|c r IH]; [reflexivity|].
  cbn [map_chars list_ascii_of_string forallb].
  intros H. apply andb_true_iff in H as [Hc Hr]. rewrite (IH Hr).
  f_equal. unfold hyphenToUnderscore in *.
  destruct (code c =? 45)%N; [vm_compute in Hc; discriminate | reflexivity].
Qed.

Lemma whiteSpace_plain :
  forallb (fun w => forallb (fun c => negb (Ascii.eqb c "_"))
                      (list_ascii_of_string w)) whiteSpace = true.
Proof. vm_compute. reflexivity. Qed.

Lemma replaceHyphens_whiteSpace x :
  isWhiteSpaceChar x = false ->
  isWhiteSpaceChar (replaceHyphens x) = false.
Proof.
  intros Hx. destruct (isWhiteSpaceChar (replaceHyphens x)) eqn:E;
    [|reflexivity].
  unfold isWhiteSpaceChar in E. apply existsb_exists in E as (w & Hw & E).
  apply String.eqb_eq in E.
  pose proof whiteSpace_plain as Hplain. rewrite forallb_forall in Hplain.
  specialize (Hplain w Hw). cbv beta in Hplain. rewrite <- E in Hplain.
  rewrite (replaceHyphens_plain x Hplain) in E. subst w.
  rewrite <- Hx. symmetry. unfold isWhiteSpaceChar. apply existsb_exists.
  exists x. split; [exact Hw | apply String.eqb_refl].
Qed.

(** *** The upper-case table *)

(** Every entry of the table maps to a non-empty string that starts a
    character, and whose characters are their own upper-case forms,
    hold no hyphen and are not white space. *)
Lemma upperTable_closed :
  forallb (fun kv =>
             negb (isEmpty (snd kv))
             && negb (startsWithContinuation (snd kv))
             && forallb (fun d => String.eqb (upperOf d) d
                                  && String.eqb (replaceHyphens d) d
                                  && negb (isWhiteSpaceChar d))
                  (chars (snd kv)))
    Unicode.upperTable = true.
Proof. vm_compute. reflexivity. Qed.

Lemma upperOf_single c :
  upperOf (String c EmptyString) = String (upperChar c) EmptyString.
Proof. reflexivity. Qed.

(** The three ways [upperOf] answers. *)
Lemma upperOf_cases x :
  (exists c, x = String c EmptyString)
  \/ upperOf x = x
  \/ exists k, In (k, upperOf x) Unicode.upperTable.
Proof.
  destruct x as [|c [|d t]].
  - right. unfold upperOf.
    destruct (find _ Unicode.upperTable) as [[k v]|] eqn:E; [|now left].
    right. exists k. now apply find_some in E as [E _].
  - left. now exists c.
  - right. unfold upperOf.
    destruct (find _ Unicode.upperTable) as [[k v]|] eqn:E; [|now left].
    right. exists k. now apply find_some in E as [E _].
Qed.

Lemma upperChar_facts c :
  upperChar (upperChar c) = upperChar c
  /\ (hyphenToUnderscore c = c ->
      hyphenToUnderscore (upperChar c) = upperChar c)
  /\ (isWhiteSpaceChar (String c EmptyString) = false ->
      isWhiteSpaceChar (String (upperChar c) EmptyString) = false)
  /\ isContinuation (upperChar c) = isContinuation c.
Proof.
  pose proof (all_chars (fun c =>
    Ascii.eqb (upperChar (upperChar c)) (upperChar c)
    && implb (Ascii.eqb (hyphenToUnderscore c) c)
         (Ascii.eqb (hyphenToUnderscore (upperChar c)) (upperChar c))
    && implb (negb (isWhiteSpaceChar (String c EmptyString)))
         (negb (isWhiteSpaceChar (String (upperChar c) EmptyString)))
    && Bool.eqb (isContinuation (upperChar c)) (isContinuation c))
    ltac:(vm_compute; reflexivity) c) as H.
  cbv beta in H. rewrite !andb_true_iff in H.
  destruct H as [[[H1 H2] H3] H4].
  apply Ascii.eqb_eq in H1. apply Bool.eqb_prop in H4.
  split; [exact H1|]. split; [|split; [|exact H4]].
  - intros E. apply Ascii.eqb_eq. apply Ascii.eqb_eq in E.
    now rewrite E in H2.
  - intros E. rewrite E in H3. cbn in H3. now apply negb_true_iff in H3.
Qed.

(** What holds of the characters of an upper-case form. *)
Lemma upperOf_chars x d :
  isChar x = true ->
  In d (chars (upperOf x)) ->
  upperOf d = d
  /\ isChar d = true
  /\ (replaceHyphens x = x -> replaceHyphens d = d)
  /\ (isWhiteSpaceChar x = false -> isWhiteSpaceChar d = false).
Proof.
  intros Hx Hd.
  assert (Hchar : isChar d = true).
  { pose proof (chars_isChar (upperOf x)) as H.
    rewrite List.Forall_forall in H. now apply H. }
  destruct (upperOf_cases x) as [[c ->]|[E|[k Hk]]].
  - rewrite upperOf_single in Hd. destruct Hd as [<-|[]].
    destruct (upperChar_facts c) as (H1 & H2 & H3 & _).
    rewrite upperOf_single, H1.
    split; [reflexivity|]. split; [exact Hchar|]. split; [|exact H3].
    unfold replaceHyphens. cbn [map_chars].
    intros E. injection E as E. now rewrite (H2 E).
  - rewrite E, (chars_of_char x Hx) in Hd. destruct Hd as [<-|[]].
    now repeat split.
  - pose proof upperTable_closed as H. rewrite forallb_forall in H.
    specialize (H _ Hk). cbn [snd] in H.
    apply andb_true_iff in H as [_ H]. rewrite forallb_forall in H.
    specialize (H d Hd). rewrite !andb_true_iff in H.
    destruct H as [[H1 H2] H3].
    apply String.eqb_eq in H1, H2. apply negb_true_iff in H3.
    now repeat split.
Qed.

Lemma upperOf_start x :
  isChar x = true ->
  upperOf x <> EmptyString
  /\ (startsWithContinuation x = false ->
      startsWithContinuation (upperOf x) = false).
Proof.
  intros Hx. destruct (upperOf_cases x) as [[c ->]|[E|[k Hk]]].
  - rewrite upperOf_single. split; [discriminate|]. cbn.
    now rewrite (proj2 (proj2 (proj2 (upperChar_facts c)))).
  - rewrite E. split; [now destruct x | easy].
  - pose proof upperTable_closed as H. rewrite forallb_forall in H.
    specialize (H _ Hk). cbn [snd] in H.
    rewrite !andb_true_iff in H. destruct H as [[H1 H2] _].
    apply negb_true_iff in H1, H2.
    split; [now destruct (upperOf x) | now intros _].
Qed.

Lemma chars_upper l :
  Forall (fun x => isChar x = true) l ->
  Forall (fun x => startsWithContinuation x = false) (tail l) ->
  chars (fromChars (List.map upperOf l))
  = flat_map (fun x => chars (upperOf x)) l.
Proof.
  induction l as [|x l IH]; intros Hc Ht; [reflexivity|].
  apply Forall_cons in Hc as [Hx Hc]. cbn [List.map fromChars flat_map tail] in *.
  rewrite chars_app.
  - rewrite IH; [reflexivity | exact Hc|].
    destruct l; [constructor | now apply Forall_cons in Ht as [_ Ht]].
  - destruct l as [|y l']; [reflexivity|].
    apply Forall_cons in Hc as [Hy _]. apply Forall_cons in Ht as [Hs _].
    destruct (upperOf_start y Hy) as [Hne Hstart].
    cbn [List.map fromChars].
    destruct (upperOf y) as [|e t]; [congruence|]. exact (Hstart Hs).
Qed.

Lemma chars_toUpperCase s :
  chars (toUpperCase s) = flat_map (fun x => chars (upperOf x)) (chars s).
Proof. apply chars_upper; [apply chars_isChar | apply chars_tail]. Qed.

(** The characters of a normalized executor name: those of the name
    between its leading and trailing white space, each with hyphen
    replaced and then in upper case. *)
Lemma normalizeExecutor_chars s :
  chars (VibeClient.normalizeExecutor s)
  = flat_map (fun x => chars (upperOf x))
      (List.map replaceHyphens
         (rev (dropWhiteSpace (rev (dropWhiteSpace (chars s)))))).
Proof.
  unfold VibeClient.normalizeExecutor.
  now rewrite chars_toUpperCase, chars_replaceHyphens, chars_trim.
Qed.

(** A normalized name is trimmed, holds no hyphen and is in upper
    case. *)
Lemma normalizeExecutor_normal s :
  let n := VibeClient.normalizeExecutor s in
  trim n = n /\ replaceHyphens n = n /\ toUpperCase n = n.
Proof.
  intros n.
  set (kept := rev (dropWhiteSpace (rev (dropWhiteSpace (chars s))))).
  set (plain := List.map replaceHyphens kept).
  assert (Hn : chars n = flat_map (fun x => chars (upperOf x)) plain)
    by apply normalizeExecutor_chars.
  assert (Hplain : plain = chars (replaceHyphens (trim s)))
    by (subst plain kept; now rewrite chars_replaceHyphens, chars_trim).
  assert (Hchar : forall b, In b plain -> isChar b = true).
  { intros b Hb. rewrite Hplain in Hb.
    pose proof (chars_isChar (replaceHyphens (trim s))) as H.
    rewrite List.Forall_forall in H. now apply H. }
  assert (Hhyphen : forall b, In b plain -> replaceHyphens b = b).
  { intros b Hb. subst plain. apply in_map_iff in Hb as (a & <- & _).
    apply replaceHyphens_idem. }
  assert (Hstart : dropWhiteSpace kept = kept).
  { subst kept. apply dropWhiteSpace_end_fixed, dropWhiteSpace_idem. }
  assert (Hend : dropWhiteSpace (rev kept) = rev kept).
  { subst kept. rewrite rev_involutive. apply dropWhiteSpace_idem. }
  assert (Hpiece : forall (g : list string -> list string) b,
            (forall l, l <> [] -> g l <> []) ->
            (forall l, Forall (fun d => isWhiteSpaceChar d = false) l ->
                       Forall (fun d => isWhiteSpaceChar d = false) (g l)) ->
            In b plain -> isWhiteSpaceChar b = false ->
            g (chars (upperOf b)) <> []
            /\ Forall (fun d => isWhiteSpaceChar d = false)
                 (g (chars (upperOf b)))).
  { intros g b Hg1 Hg2 Hb Hw. split.
    - apply Hg1. destruct (upperOf_start b (Hchar b Hb)) as [Hne _].
      intros E. apply Hne. rewrite <- (fromChars_chars (upperOf b)).
      now rewrite E.
    - apply Hg2. apply List.Forall_forall. intros d Hd.
      now apply (upperOf_chars b d (Hchar b Hb) Hd). }
  assert (Htrim : rev (dropWhiteSpace (rev (dropWhiteSpace (chars n))))
                  = chars n).
  { assert (H1 : dropWhiteSpace (chars n) = chars n).
    { rewrite Hn. apply dropWhiteSpace_flat_map.
      - intros b Hb Hw.
        apply (Hpiece (fun l => l) b); auto.
      - subst plain.
        apply dropWhiteSpace_map; [apply replaceHyphens_whiteSpace | exact Hstart]. }
    rewrite H1.
    assert (H2 : dropWhiteSpace (rev (chars n)) = rev (chars n)).
    { rewrite Hn, rev_flat_map. apply dropWhiteSpace_flat_map.
      - intros b Hb Hw. apply in_rev in Hb.
        apply (Hpiece (@rev string) b); auto.
        + intros l Hl E. apply Hl.
          rewrite <- (rev_involutive l), E. reflexivity.
        + intros l. apply List.Forall_rev.
      - subst plain. rewrite <- map_rev.
        apply dropWhiteSpace_map; [apply replaceHyphens_whiteSpace | exact Hend]. }
    now rewrite H2, rev_involutive. }
  assert (Hrep : List.map replaceHyphens (chars n) = chars n).
  { apply map_fixed. intros d Hd. rewrite Hn in Hd.
    apply in_flat_map in Hd as (b & Hb & Hd).
    now apply (upperOf_chars b d (Hchar b Hb) Hd), Hhyphen. }
  assert (Hup : flat_map (fun x => chars (upperOf x)) (chars n) = chars n).
  { apply flat_map_fixed. intros d Hd. rewrite Hn in Hd.
    apply in_flat_map in Hd as (b & Hb & Hd).
    destruct (upperOf_chars b d (Hchar b Hb) Hd) as (E & Hd' & _).
    rewrite E. now apply chars_of_char. }
  split; [|split]; apply chars_inj.
  - now rewrite chars_trim.
  - now rewrite chars_replaceHyphens.
  - now rewrite chars_toUpperCase.
Qed.

(** So normalizing it again changes nothing. *)
Lemma normalizeExecutor_fixed s :
  VibeClient.normalizeExecutor (VibeClient.normalizeExecutor s)
  = VibeClient.normalizeExecutor s.
Proof.
  destruct (normalizeExecutor_normal s) as (Ht & Hr & Hu).
  unfold VibeClient.normalizeExecutor at 1. now rewrite Ht, Hr, Hu.
Qed.

End JsStringFacts.

(** ** Executor normalization *)

(** C7: normalization is trim, then hyphen to underscore, then upper case,
    character by character: the characters of the result are those of the
    name between its leading and trailing white space, each with the
    hyphen replaced and then in upper case.  The three spellings of the
    Claude Code executor all normalize to CLAUDE_CODE.  A normalized name
    is trimmed, holds no hyphen and is in upper case, and so normalizing
    twice is the same as normalizing once, for every string. *)
Theorem normalizeExecutor_idempotent :
  VibeClient.normalizeExecutor "claude-code" = "CLAUDE_CODE"
  /\ VibeClient.normalizeExecutor "CLAUDE_CODE" = "CLAUDE_CODE"
  /\ VibeClient.normalizeExecutor "  Claude-Code " = "CLAUDE_CODE"
  /\ (forall s,
        JsString.chars (VibeClient.normalizeExecutor s)
        = flat_map (fun x => JsString.chars (JsString.upperOf x))
            (List.map JsString.replaceHyphens
               (rev (JsString.dropWhiteSpace
                       (rev (JsString.dropWhiteSpace (JsString.chars s)))))))
  /\ (forall s,
        JsString.trim (VibeClient.normalizeExecutor s)
        = VibeClient.normalizeExecutor s
        /\ JsString.replaceHyphens (VibeClient.normalizeExecutor s)
           = VibeClient.normalizeExecutor s
        /\ JsString.toUpperCase (VibeClient.normalizeExecutor s)
           = VibeClient.normalizeExecutor s)
  /\ (forall s, VibeClient.normalizeExecutor (VibeClient.normalizeExecutor s)
                = VibeClient.normalizeExecutor s).
Proof.
  split; [vm_compute; reflexivity|]. split; [vm_compute; reflexivity|].
  split; [vm_compute; reflexivity|].
  split; [exact normalizeExecutor_chars|].
  split; [exact normalizeExecutor_normal | exact normalizeExecutor_fixed].
Qed.

(** ** [listTasks]: filter, then limit *)

Section ListTasks.
Import Types VibeClient.

Lemma TaskStatus_eqb_eq a b : TaskStatus_eqb a b = true <-> a = b.
Proof. destruct a, b; simpl; split; (reflexivity || discriminate). Qed.

Lemma filter_status_restricted wanted tasks :
  List.filter (fun t => TaskStatus_eqb (status t) wanted) tasks
  = restrictedTo (Some wanted) tasks.
Proof.
  simpl. induction tasks as [|t ts IH]; [reflexivity|].
  simpl. rewrite filter_cons. destruct (TaskStatus_eqb (status t) wanted) eqn:E.
  - apply TaskStatus_eqb_eq in E. rewrite decide_True by exact E.
    now rewrite IH.
  - rewrite decide_False; [exact IH|].
    intros H. apply TaskStatus_eqb_eq in H. congruence.
Qed.

Lemma slice0_positive {A} (l : list A) n :
  (0 < n)%Z -> slice0 l n = take (Z.to_nat n) l.
Proof.
  intros Hn. unfold slice0.
  destruct (Z.ltb_spec n 0) as [?|_]; [lia|].
  destruct (Z.le_ge_cases n (Z.of_nat (List.length l))) as [Hle|Hge].
  - now rewrite Z.min_l.
  - rewrite Z.min_r, Nat2Z.id by exact Hge.
    rewrite firstn_all. symmetry. apply take_ge. lia.
Qed.

Lemma restrictedTo_sublist st tasks : sublist (restrictedTo st tasks) tasks.
Proof. destruct st; simpl; [apply sublist_filter | reflexivity]. Qed.

Lemma restrictedTo_matches st tasks t wanted :
  t ∈ restrictedTo st tasks -> st = Some wanted -> status t = wanted.
Proof.
  intros Hin ->. simpl in Hin. now apply list_elem_of_filter in Hin as [? _].
Qed.

End ListTasks.

(** C10: for a positive limit, [listTasks] returns the first [limit] tasks
    of the Gateway's list restricted to the status filter (the whole list
    when there is no filter): at most [limit] tasks, each with the wanted
    status, in the Gateway's order. *)
Theorem listTasks_filter_before_limit
    (tasks : list Types.TaskWithAttemptStatus)
    (st : option Types.TaskStatus) (limit : Z) :
  (0 < limit)%Z ->
  exists result,
    VibeClient.listTasks (Ok tasks) st (Some limit) = Ok result
    /\ result = take (Z.to_nat limit) (VibeClient.restrictedTo st tasks)
    /\ (Z.of_nat (List.length result) <= limit)%Z
    /\ (forall t wanted, t ∈ result -> st = Some wanted ->
                         Types.status t = wanted)
    /\ sublist result tasks.
Proof.
  intros Hpos.
  exists (take (Z.to_nat limit) (VibeClient.restrictedTo st tasks)).
  split; [|split; [reflexivity|split; [|split]]].
  - unfold VibeClient.listTasks.
    destruct (Z.eqb_spec limit 0) as [?|_]; [lia|].
    rewrite slice0_positive by exact Hpos.
    destruct st as [wanted|]; [|reflexivity].
    now rewrite filter_status_restricted.
  - rewrite length_take. lia.
  - intros t wanted Hin Hst.
    apply (restrictedTo_matches st tasks); [|exact Hst].
    eapply (sublist_subseteq _ _ (sublist_take _ _)), Hin.
  - etrans; [apply sublist_take | apply restrictedTo_sublist].
Qed.

Lemma listTasks_filter_before_limit_witness :
  let t1 := {| Types.task_id := "t1"; Types.project_id := "p"; Types.title := "a";
               Types.description := None; Types.status := Types.todo;
               Types.attempt_status := None |} in
  let t2 := {| Types.task_id := "t2"; Types.project_id := "p"; Types.title := "b";
               Types.description := None; Types.status := Types.done;
               Types.attempt_status := None |} in
  let t3 := {| Types.task_id := "t3"; Types.project_id := "p"; Types.title := "c";
               Types.description := None; Types.status := Types.todo;
               Types.attempt_status := None |} in
  (0 < 1)%Z /\
  exists result,
    VibeClient.listTasks (Ok [t1; t2; t3]) (Some Types.todo) (Some 1%Z) = Ok result
    /\ result = take (Z.to_nat 1) (VibeClient.restrictedTo (Some Types.todo) [t1; t2; t3])
    /\ (Z.of_nat (List.length result) <= 1)%Z
    /\ (forall t wanted, t ∈ result -> Some Types.todo = Some wanted ->
                         Types.status t = wanted)
    /\ sublist result [t1; t2; t3].
Proof.
  intros t1 t2 t3. split; [lia|].
  apply (listTasks_filter_before_limit [t1; t2; t3] (Some Types.todo) 1). lia.
Defined.

(** ** [mapStatus] *)

Lemma mapStatus_default s :
  ~ Tasks.ExecutionProcessStatus s -> Tasks.mapStatus s = Tasks.working.
Proof.
  intros Hs. unfold Tasks.mapStatus.
  destruct (String.eqb_spec s "running") as [->|_];
    [exfalso; apply Hs; unfold Tasks.ExecutionProcessStatus; set_solver|].
  destruct (String.eqb_spec s "completed") as [->|_];
    [exfalso; apply Hs; unfold Tasks.ExecutionProcessStatus; set_solver|].
  destruct (String.eqb_spec s "failed") as [->|_];
    [exfalso; apply Hs; unfold Tasks.ExecutionProcessStatus; set_solver|].
  destruct (String.eqb_spec s "killed") as [->|_];
    [exfalso; apply Hs; unfold Tasks.ExecutionProcessStatus; set_solver|].
  reflexivity.
Qed.

(** C9: [mapStatus] sends running, completed, failed, killed to working,
    completed, failed, cancelled, and every status of the Gateway's type
    is mapped by one of these four pairs.  It answers for every other word
    too: the default arm maps it to working.  So completed, failed and
    cancelled are produced for completed, failed and killed only. *)
Theorem mapStatus_four_pairs (s : string) :
  (Tasks.mapStatus "running" = Tasks.working
   /\ Tasks.mapStatus "completed" = Tasks.completed
   /\ Tasks.mapStatus "failed" = Tasks.failed
   /\ Tasks.mapStatus "killed" = Tasks.cancelled)
  /\ (Tasks.ExecutionProcessStatus s ->
      (s, Tasks.mapStatus s) ∈
        [("running", Tasks.working); ("completed", Tasks.completed);
         ("failed", Tasks.failed); ("killed", Tasks.cancelled)])
  /\ (~ Tasks.ExecutionProcessStatus s -> Tasks.mapStatus s = Tasks.working)
  /\ (Tasks.mapStatus s = Tasks.completed <-> s = "completed")
  /\ (Tasks.mapStatus s = Tasks.failed <-> s = "failed")
  /\ (Tasks.mapStatus s = Tasks.cancelled <-> s = "killed").
Proof.
  split; [repeat split|]. split; [|split; [apply mapStatus_default|]].
  - intros Hs. unfold Tasks.ExecutionProcessStatus in Hs.
    apply elem_of_cons in Hs as [->|Hs]; [apply list_elem_of_here|].
    apply elem_of_cons in Hs as [->|Hs];
      [apply list_elem_of_further, list_elem_of_here|].
    apply elem_of_cons in Hs as [->|Hs];
      [do 2 apply list_elem_of_further; apply list_elem_of_here|].
    apply list_elem_of_singleton in Hs as ->.
    do 3 apply list_elem_of_further. apply list_elem_of_here.
  - unfold Tasks.mapStatus.
    destruct (String.eqb_spec s "running") as [->|H1];
      [repeat split; discriminate|].
    destruct (String.eqb_spec s "completed") as [->|H2];
      [repeat split; try discriminate; reflexivity|].
    destruct (String.eqb_spec s "failed") as [->|H3];
      [repeat split; try discriminate; reflexivity|].
    destruct (String.eqb_spec s "killed") as [->|H4];
      [repeat split; try discriminate; reflexivity|].
    repeat split; try discriminate; intros E; contradiction.
Qed.

Lemma mapStatus_four_pairs_witness :
  Tasks.ExecutionProcessStatus "killed"
  /\ ("killed", Tasks.mapStatus "killed") ∈
       [("running", Tasks.working); ("completed", Tasks.completed);
        ("failed", Tasks.failed); ("killed", Tasks.cancelled)]
  /\ ~ Tasks.ExecutionProcessStatus "paused"
  /\ Tasks.mapStatus "paused" = Tasks.working.
Proof.
  assert (H : Tasks.ExecutionProcessStatus "killed")
    by (unfold Tasks.ExecutionProcessStatus;
        do 3 apply list_elem_of_further; apply list_elem_of_here).
  assert (H' : ~ Tasks.ExecutionProcessStatus "paused").
  { unfold Tasks.ExecutionProcessStatus. intros Hin.
    repeat (apply elem_of_cons in Hin as [Hin|Hin]; [discriminate Hin|]).
    now apply elem_of_nil in Hin. }
  destruct (mapStatus_four_pairs "killed") as (_ & Hpair & _).
  destruct (mapStatus_four_pairs "paused") as (_ & _ & Hother & _).
  split; [exact H|]. split; [exact (Hpair H)|].
  split; [exact H' | exact (Hother H')].
Defined.

(** The word paused is none of the four, and it is mapped all the same,
    to working: a fifth pair, so the four pairs are not the whole
    mapping. *)
Lemma mapStatus_maps_other_words :
  Tasks.mapStatus "paused" = Tasks.working
  /\ (("paused", Tasks.mapStatus "paused") ∉
        [("running", Tasks.working); ("completed", Tasks.completed);
         ("failed", Tasks.failed); ("killed", Tasks.cancelled)])
  /\ ~ (forall s, (s, Tasks.mapStatus s) ∈
          [("running", Tasks.working); ("completed", Tasks.completed);
           ("failed", Tasks.failed); ("killed", Tasks.cancelled)]).
Proof.
  assert (Hout : ("paused", Tasks.mapStatus "paused") ∉
            [("running", Tasks.working); ("completed", Tasks.completed);
             ("failed", Tasks.failed); ("killed", Tasks.cancelled)]).
  { intros Hin.
    repeat (apply elem_of_cons in Hin as [Hin|Hin]; [discriminate Hin|]).
    now apply elem_of_nil in Hin. }
  split; [reflexivity|]. split; [exact Hout|].
  intros Hall. exact (Hout (Hall "paused")).
Qed.

(** ** The busy-session heuristic of [send_message] *)

Section Includes.
Import JsString.

Lemma string_app_assoc (a b c : string) :
  ((a ++ b) ++ c = a ++ (b ++ c))%string.
Proof.
  induction a as [|x a IH]; [reflexivity|].
  now rewrite !string_app_cons, IH.
Qed.

Lemma prefix_cons x n y h :
  String.prefix (String x n) (String y h)
  = if ascii_dec x y then String.prefix n h else false.
Proof. reflexivity. Qed.

Lemma prefix_spec n h :
  String.prefix n h = true <-> exists post, h = (n ++ post)%string.
Proof.
  revert h. induction n as [|x n IH]; intros h.
  - split; [intros _; now exists h | now destruct h].
  - destruct h as [|y h].
    + split; [discriminate | intros [post H]; discriminate].
    + rewrite prefix_cons. destruct (ascii_dec x y) as [->|Hne].
      * rewrite IH. split; intros [post H]; exists post;
          [now rewrite string_app_cons, H
          | rewrite string_app_cons in H; now injection H].
      * split; [discriminate|].
        intros [post H]. rewrite string_app_cons in H. injection H; congruence.
Qed.

Lemma includes_nil n : includes EmptyString n = String.prefix n EmptyString.
Proof. unfold includes. apply orb_false_r. Qed.

Lemma includes_cons c r n :
  includes (String c r) n = String.prefix n (String c r) || includes r n.
Proof. reflexivity. Qed.

Lemma includes_spec h n :
  includes h n = true <-> exists pre post, h = (pre ++ n ++ post)%string.
Proof.
  induction h as [|c r IH].
  - rewrite includes_nil, prefix_spec. split.
    + intros [post H]. now exists EmptyString, post.
    + intros [pre [post H]]. destruct pre; [now exists post | discriminate].
  - rewrite includes_cons, orb_true_iff, prefix_spec, IH. split.
    + intros [[post H] | [pre [post H]]].
      * now exists EmptyString, post.
      * exists (String c pre), post. now rewrite string_app_cons, H.
    + intros [pre [post H]]. destruct pre as [|x pre].
      * left. now exists post.
      * right. exists pre, post. rewrite string_app_cons in H.
        now injection H.
Qed.

(** A substring of a substring is a substring. *)
Lemma includes_trans a b c :
  includes b a = true -> includes c b = true -> includes c a = true.
Proof.
  rewrite !includes_spec. intros [p1 [q1 ->]] [p2 [q2 ->]].
  exists (p2 ++ p1)%string, (q1 ++ q2)%string.
  now rewrite !string_app_assoc.
Qed.

Lemma includes_errorToString m t :
  includes m t = true -> includes (errorToString m) t = true.
Proof.
  unfold errorToString. destruct m as [|c m]; simpl isEmpty; cbv iota.
  - rewrite !includes_spec. intros [pre [post H]].
    destruct pre; [|discriminate]. destruct t; [|discriminate].
    now exists EmptyString, "Error".
  - rewrite !includes_spec. intros [pre [post ->]].
    exists ("Error: " ++ pre)%string, post. reflexivity.
Qed.

End Includes.

Section SendFailure.
Import JsString Types Tools.

Variables (g : Gateway) (a : SendMessageArgs).
Variables (session : Session) (exec m : string).
Let sid := arg_session_id a.

Hypothesis session_found : getSession g sid = Ok session.
Hypothesis executor_known : resolveExecutor a session = Some exec.
Hypothesis executor_truthy : truthy exec = true.
Hypothesis send_fails : sendFollowUp g sid (followUpRequest a exec) = Throws m.

Lemma sendMessage_on_send_failure :
  sendMessage g a =
  if shouldQueue (auto_queue a) (errorToString m) then
    (match queueMessage g sid (queueRequest a exec) with
     | Ok _ => MessageQueued (toUpperCase exec)
     | Throws m' => ToolError "SEND_FAILED" (errorToString m')
     end,
     [CallGetSession sid; CallSendFollowUp sid (followUpRequest a exec);
      CallQueueMessage sid (queueRequest a exec)])
  else
    (ToolError "SEND_FAILED" (errorToString m),
     [CallGetSession sid; CallSendFollowUp sid (followUpRequest a exec)]).
Proof.
  unfold sendMessage. fold sid.
  rewrite session_found, executor_known, executor_truthy. simpl negb. cbv iota.
  rewrite send_fails.
  destruct (shouldQueue _ _); [|reflexivity].
  destruct (queueMessage _ _ _); reflexivity.
Qed.

Lemma queueAttempted_on_send_failure :
  queueAttempted (snd (sendMessage g a))
  = shouldQueue (auto_queue a) (errorToString m).
Proof.
  rewrite sendMessage_on_send_failure.
  destruct (shouldQueue _ _); reflexivity.
Qed.

End SendFailure.

Lemma shouldQueue_spec aq errorStr :
  Tools.shouldQueue aq errorStr = true <->
  aq <> Some false
  /\ (JsString.includes errorStr "running" = true
      \/ JsString.includes errorStr "busy" = true
      \/ JsString.includes errorStr "409" = true
      \/ JsString.includes errorStr "conflict" = true).
Proof.
  unfold Tools.shouldQueue.
  rewrite andb_true_iff, !orb_true_iff, negb_true_iff.
  destruct aq as [[|]|]; intuition congruence.
Qed.

(** C2, as the handler has it: after a failed immediate send the queueing
    path is taken exactly when [auto_queue] is not [false] and the
    stringified error contains running, busy, 409 or conflict.  A failure
    whose message contains 409 conflict, with [auto_queue] omitted, takes
    that path: the message is queued when the queue request succeeds, and
    the handler fails with the queue's error when it does not.  With
    [auto_queue] false the original send error is surfaced, and the failure
    invalid request is never queued. *)
Theorem send_failure_queueing
    (g : Tools.Gateway) (a : Tools.SendMessageArgs)
    (session : Types.Session) (exec m : string) :
  Tools.getSession g (Tools.arg_session_id a) = Ok session ->
  Tools.resolveExecutor a session = Some exec ->
  JsString.truthy exec = true ->
  Tools.sendFollowUp g (Tools.arg_session_id a) (Tools.followUpRequest a exec)
    = Throws m ->
  let result := fst (Tools.sendMessage g a) in
  let attempted := Tools.queueAttempted (snd (Tools.sendMessage g a)) in
  let queued := Tools.queueMessage g (Tools.arg_session_id a)
                  (Tools.queueRequest a exec) in
  (attempted = true <->
     Tools.auto_queue a <> Some false
     /\ (JsString.includes (errorToString m) "running" = true
         \/ JsString.includes (errorToString m) "busy" = true
         \/ JsString.includes (errorToString m) "409" = true
         \/ JsString.includes (errorToString m) "conflict" = true))
  /\ (JsString.includes m "409 conflict" = true -> Tools.auto_queue a = None ->
      attempted = true
      /\ (forall qs, queued = Ok qs ->
            result = Tools.MessageQueued (JsString.toUpperCase exec))
      /\ (forall m', queued = Throws m' ->
            result = Tools.ToolError "SEND_FAILED" (errorToString m')))
  /\ (Tools.auto_queue a = Some false ->
      attempted = false
      /\ result = Tools.ToolError "SEND_FAILED" (errorToString m))
  /\ (m = "invalid request" ->
      attempted = false
      /\ result = Tools.ToolError "SEND_FAILED" "Error: invalid request").
Proof.
  intros Hsession Hexec Htruthy Hsend result attempted queued.
  pose proof (sendMessage_on_send_failure g a session exec m
                Hsession Hexec Htruthy Hsend) as Hrun.
  pose proof (queueAttempted_on_send_failure g a session exec m
                Hsession Hexec Htruthy Hsend) as Hatt.
  fold attempted in Hatt. subst result queued.
  split; [|split; [|split]].
  - rewrite Hatt. apply shouldQueue_spec.
  - intros H409 Hauto.
    assert (Hq : Tools.shouldQueue (Tools.auto_queue a) (errorToString m) = true).
    { apply shouldQueue_spec. split; [rewrite Hauto; discriminate|].
      right; right; left. apply includes_errorToString.
      apply (includes_trans _ "409 conflict"); [reflexivity | exact H409]. }
    rewrite Hrun, Hq in *. simpl.
    split; [exact Hatt|]. split; intros ? ->; reflexivity.
  - intros Hauto. rewrite Hrun, Hatt. unfold Tools.shouldQueue.
    rewrite Hauto. simpl. split; reflexivity.
  - intros ->. rewrite Hrun, Hatt.
    assert (Hq : forall aq, Tools.shouldQueue aq (errorToString "invalid request") = false)
      by (intros [[|]|]; vm_compute; reflexivity).
    rewrite Hq. split; reflexivity.
Qed.

Lemma send_failure_queueing_witness :
  let g := Samples.busyGateway true in
  let a := Samples.plainArgs None in
  Tools.getSession g (Tools.arg_session_id a) = Ok Samples.session1
  /\ JsString.includes "API error: 409 conflict" "409 conflict" = true
  /\ Tools.queueAttempted (snd (Tools.sendMessage g a)) = true
  /\ fst (Tools.sendMessage g a) = Tools.MessageQueued "CLAUDE-CODE".
Proof.
  intros g a.
  destruct (send_failure_queueing g a Samples.session1 "claude-code"
              "API error: 409 conflict" eq_refl eq_refl eq_refl eq_refl)
    as (_ & H409 & _).
  destruct (H409 eq_refl eq_refl) as (Hatt & Hok & _).
  split; [reflexivity|]. split; [reflexivity|]. split; [exact Hatt|].
  exact (Hok _ eq_refl).
Defined.

(** The send fails with 409 conflict and [auto_queue] is omitted, yet the
    outcome is a failure, not a queued message: the queue request was made
    and refused. *)
Lemma send_failure_queue_refused :
  let g := Samples.busyGateway false in
  let a := Samples.plainArgs None in
  Tools.sendFollowUp g (Tools.arg_session_id a)
    (Tools.followUpRequest a "claude-code") = Throws "API error: 409 conflict"
  /\ JsString.includes "API error: 409 conflict" "409 conflict" = true
  /\ Tools.auto_queue a = None
  /\ fst (Tools.sendMessage g a)
     = Tools.ToolError "SEND_FAILED" "Error: API error: queue unavailable"
  /\ forall e, fst (Tools.sendMessage g a) <> Tools.MessageQueued e.
Proof.
  intros g a. repeat split; try reflexivity.
  intros e. vm_compute. discriminate.
Qed.

(** ** The execution tracker *)

Section Tracker.
Import Types Tasks.

Lemma withProcess_return p u :
  withProcess p = Return u ->
  updateStatus u <> working
  /\ mapStatus (process_status p) <> working
  /\ u <> StatusUpdate failed "Execution process not found".
Proof.
  unfold withProcess.
  destruct (mapStatus (process_status p)); intros H; inversion H; subst;
    repeat split; discriminate.
Qed.

(** A returning iteration wrote a terminal status, and the Gateway did
    not report running in it. *)
Lemma pollIteration_return w pid sid u reported calls :
  pollIteration w pid sid = (Return u, reported, calls) ->
  updateStatus u <> working /\ reported <> Some "running".
Proof.
  unfold pollIteration. destruct (aborted w).
  - intros H; inversion H; subst. split; discriminate.
  - destruct (fetchProcess w pid sid) as [[p| |m] cs]; intros H;
      inversion H; subst.
    + apply withProcess_return in H1 as (Hu & Hm & _).
      split; [exact Hu|]. intros E. inversion E as [E']. apply Hm.
      now rewrite E'.
    + split; discriminate.
Qed.

Lemma pollFrom_seen_length ws pid sid remaining i :
  List.length (snd (pollFrom ws pid sid remaining i)) <= remaining.
Proof.
  revert i. induction remaining as [|r IH]; intros i; simpl; [lia|].
  destruct (pollIteration (ws i) pid sid) as [[it reported] calls].
  specialize (IH (S i)).
  destruct (pollFrom ws pid sid r (S i)) as [last later].
  destruct it, reported; simpl in *; rewrite ?length_app; simpl; lia.
Qed.

Lemma pollFrom_terminal ws pid sid remaining i :
  updateStatus (fst (pollFrom ws pid sid remaining i)) <> working.
Proof.
  revert i. induction remaining as [|r IH]; intros i; simpl; [discriminate|].
  destruct (pollIteration (ws i) pid sid) as [[it reported] calls] eqn:E.
  specialize (IH (S i)).
  destruct (pollFrom ws pid sid r (S i)) as [last later].
  destruct it as [u|]; simpl in *; [|exact IH].
  now apply pollIteration_return in E as [Hu _].
Qed.

Lemma pollFrom_all_running ws pid sid remaining i :
  snd (pollFrom ws pid sid remaining i) = repeat "running" remaining ->
  fst (pollFrom ws pid sid remaining i)
  = StatusUpdate failed "Timed out after 10 minutes".
Proof.
  revert i. induction remaining as [|r IH]; intros i; simpl; [reflexivity|].
  destruct (pollIteration (ws i) pid sid) as [[it reported] calls] eqn:E.
  pose proof (pollFrom_seen_length ws pid sid r (S i)) as Hlen.
  specialize (IH (S i)).
  destruct (pollFrom ws pid sid r (S i)) as [last later].
  destruct it as [u|]; simpl in *.
  - apply pollIteration_return in E as [_ Hrep].
    destruct reported as [s|]; [|discriminate].
    intros H. inversion H; subst. now destruct Hrep.
  - destruct reported as [s|]; simpl; intros H.
    + inversion H; subst. now apply IH.
    + rewrite H in Hlen. simpl in Hlen. rewrite repeat_length in Hlen. lia.
Qed.

Lemma pollFrom_return ws pid sid r i u reported calls :
  pollIteration (ws i) pid sid = (Return u, reported, calls) ->
  fst (pollFrom ws pid sid (S r) i) = u.
Proof. intros H. simpl. now rewrite H. Qed.



End Tracker.



(** C6: the loop always ends with a terminal status on the record, never
    working; and when the Gateway has reported running in every one of the
    120 iterations, the record is marked failed with the timeout reason. *)
Theorem tracker_times_out (ws : nat -> Tasks.World) (pid sid : string) :
  Tasks.MAX_POLL_ITERATIONS = 120
  /\ Tasks.POLL_INTERVAL_MS = 5000%Z
  /\ Tasks.updateStatus (fst (Tasks.pollExecutionProcess ws pid sid))
     <> Tasks.working
  /\ (snd (Tasks.pollExecutionProcess ws pid sid)
      = repeat "running" Tasks.MAX_POLL_ITERATIONS ->
      fst (Tasks.pollExecutionProcess ws pid sid)
      = Tasks.StatusUpdate Tasks.failed "Timed out after 10 minutes").
Proof.
  split; [reflexivity|]. split; [reflexivity|]. split.
  - apply pollFrom_terminal.
  - apply pollFrom_all_running.
Qed.

Lemma tracker_times_out_witness :
  let ws := fun _ : nat => Samples.runningWorld in
  snd (Tasks.pollExecutionProcess ws "e1" "5e55")
  = repeat "running" Tasks.MAX_POLL_ITERATIONS
  /\ fst (Tasks.pollExecutionProcess ws "e1" "5e55")
     = Tasks.StatusUpdate Tasks.failed "Timed out after 10 minutes".
Proof.
  intros ws.
  assert (H : snd (Tasks.pollExecutionProcess ws "e1" "5e55")
              = repeat "running" Tasks.MAX_POLL_ITERATIONS)
    by (vm_compute; reflexivity).
  split; [exact H|].
  destruct (tracker_times_out ws "e1" "5e55") as (_ & _ & _ & Hout).
  exact (Hout H).
Defined.

(** ** The subscription manager *)

Lemma tracker_list_throws_continues (w : Tasks.World) (pid sid m m' : string) :
  Tasks.aborted w = false ->
  Tasks.getExecutionProcess w pid = Throws m ->
  Tasks.listExecutionProcesses w sid = Throws m' ->
  fst (fst (Tasks.pollIteration w pid sid)) = Tasks.Continue.
Proof.
  intros Hgo Hget Hlist. unfold Tasks.pollIteration, Tasks.fetchProcess.
  now rewrite Hgo, Hget, Hlist.
Qed.

Section Subscriptions.
Import JsString Resources.

Variable sha256_hex : string -> string.
Hypothesis digest_nonempty : forall json, sha256_hex json <> EmptyString.

Local Abbreviation checkUri := (Resources.checkUri sha256_hex).
Local Abbreviation uriOutcome := (Resources.uriOutcome sha256_hex).
Local Abbreviation checkForChanges := (Resources.checkForChanges sha256_hex).
Local Abbreviation step := (Resources.step sha256_hex).
Local Abbreviation run := (Resources.run sha256_hex).
Local Abbreviation reachable := (Resources.reachable sha256_hex).
Local Abbreviation consistent := (Resources.consistent sha256_hex).

(** The loop body changes the entry of its URI as [uriOutcome] says,
    leaves every other entry alone, and delivers at most the one
    notification. *)
Lemma checkUri_outcome w (h : gmap string string) sent uri :
  let out := uriOutcome w (h !! uri) uri in
  fst (checkUri w (h, sent) uri) !! uri = fst out
  /\ (forall v, v <> uri -> fst (checkUri w (h, sent) uri) !! v = h !! v)
  /\ snd (checkUri w (h, sent) uri)
     = sent ++ (if snd out then [uri] else []).
Proof.
  unfold Resources.checkUri, Resources.uriOutcome.
  destruct (parseResourceUri uri) as [parsed|]; simpl;
    [|now rewrite app_nil_r].
  destruct (fetchResourceData w parsed) as [[|json]|msg]; simpl;
    [now rewrite app_nil_r| |now rewrite app_nil_r].
  destruct (truthyOpt (h !! uri)
            && negb (bool_decide (h !! uri = Some (sha256_hex json))));
    [destruct (sendResourceUpdated w uri)|]; simpl; rewrite ?app_nil_r.
  - split; [apply lookup_insert_eq|]. split; [|reflexivity].
    intros v Hv. now rewrite lookup_insert_ne.
  - now repeat split.
  - split; [apply lookup_insert_eq|]. split; [|reflexivity].
    intros v Hv. now rewrite lookup_insert_ne.
Qed.

Lemma uriOutcome_fst w last uri :
  fst (uriOutcome w last uri) = last
  \/ exists json, fst (uriOutcome w last uri) = Some (sha256_hex json).
Proof.
  unfold Resources.uriOutcome.
  destruct (parseResourceUri uri) as [parsed|]; [|now left].
  destruct (fetchResourceData w parsed) as [[|json]|msg];
    [now left| |now left].
  simpl. destruct (truthyOpt last && _);
    [destruct (sendResourceUpdated w uri)|]; simpl; eauto.
Qed.

(** The whole loop, entry by entry: over a duplicate-free list every
    URI meets the entry it had before the tick. *)
Lemma fold_checkUri w l : forall (h : gmap string string) sent,
  NoDup l ->
  (forall u, fst (fold_left (checkUri w) l (h, sent)) !! u
             = if bool_decide (u ∈ l) then fst (uriOutcome w (h !! u) u)
               else h !! u)
  /\ snd (fold_left (checkUri w) l (h, sent))
     = sent ++ List.filter (fun u => snd (uriOutcome w (h !! u) u)) l.
Proof.
  induction l as [|x l IH]; intros h sent Hnd.
  - split; [intros u; now rewrite bool_decide_eq_false_2 by apply not_elem_of_nil
           | simpl; now rewrite app_nil_r].
  - apply NoDup_cons in Hnd as [Hx Hnd].
    destruct (checkUri_outcome w h sent x) as (Hself & Hother & Hsent).
    cbn [fold_left].
    destruct (Resources.checkUri sha256_hex w (h, sent) x) as [h1 sent1] eqn:E.
    simpl in Hself, Hother, Hsent.
    destruct (IH h1 sent1 Hnd) as [IHh IHs]. split.
    + intros u. rewrite IHh.
      destruct (decide (u = x)) as [->|Hne].
      * rewrite bool_decide_eq_false_2 by exact Hx.
        rewrite bool_decide_eq_true_2 by apply list_elem_of_here. exact Hself.
      * rewrite (Hother u Hne).
        destruct (decide (u ∈ l)) as [Hin|Hnin].
        -- rewrite (bool_decide_eq_true_2 (u ∈ l)) by exact Hin.
           rewrite bool_decide_eq_true_2; [reflexivity|].
           now apply list_elem_of_further.
        -- rewrite (bool_decide_eq_false_2 (u ∈ l)) by exact Hnin.
           rewrite bool_decide_eq_false_2; [reflexivity|].
           rewrite elem_of_cons. tauto.
    + rewrite IHs, Hsent, <- app_assoc. f_equal. simpl List.filter.
      assert (Hext : List.filter (fun u => snd (uriOutcome w (h1 !! u) u)) l
                     = List.filter (fun u => snd (uriOutcome w (h !! u) u)) l).
      { apply List.filter_ext_in. intros u Hu.
        rewrite Hother; [reflexivity|].
        intros ->. apply Hx. now apply list_elem_of_In. }
      rewrite Hext. now destruct (snd (uriOutcome w (h !! x) x)).
Qed.

Lemma checkForChanges_subscriptions w m :
  subscriptions (fst (checkForChanges w m)) = subscriptions m
  /\ pollTimer (fst (checkForChanges w m)) = pollTimer m.
Proof.
  unfold Resources.checkForChanges.
  now destruct (fold_left _ _ _).
Qed.

Lemma checkForChanges_entry w m u :
  NoDup (subscriptions m) ->
  lastHashes (fst (checkForChanges w m)) !! u
  = if bool_decide (u ∈ subscriptions m)
    then fst (uriOutcome w (lastHashes m !! u) u)
    else lastHashes m !! u.
Proof.
  intros Hnd. destruct (fold_checkUri w _ (lastHashes m) [] Hnd) as [H _].
  specialize (H u). unfold Resources.checkForChanges.
  now destruct (fold_left _ _ _).
Qed.

Lemma checkForChanges_sent w m u :
  NoDup (subscriptions m) ->
  u ∈ snd (checkForChanges w m)
  <-> u ∈ subscriptions m /\ snd (uriOutcome w (lastHashes m !! u) u) = true.
Proof.
  intros Hnd. destruct (fold_checkUri w _ (lastHashes m) [] Hnd) as [_ H].
  unfold Resources.checkForChanges.
  destruct (fold_left _ _ _) as [h sent]. simpl in *. subst sent.
  rewrite list_elem_of_In, List.filter_In, <- list_elem_of_In. reflexivity.
Qed.

(** *** What every reachable manager satisfies *)

Lemma setAdd_elem uri l v : v ∈ setAdd uri l <-> v = uri \/ v ∈ l.
Proof.
  unfold setAdd. case_bool_decide as Hin.
  - split; [now right | intros [->|H]; assumption].
  - rewrite elem_of_app, list_elem_of_singleton. tauto.
Qed.

Lemma setAdd_NoDup uri l : NoDup l -> NoDup (setAdd uri l).
Proof.
  intros Hnd. unfold setAdd. case_bool_decide as Hin; [exact Hnd|].
  apply NoDup_app. split; [exact Hnd|]. split; [|apply NoDup_singleton].
  intros v Hv Hv'. apply list_elem_of_singleton in Hv'. now subst.
Qed.

Lemma setDelete_elem uri l v : v ∈ setDelete uri l <-> v ∈ l /\ v <> uri.
Proof.
  unfold setDelete. rewrite !list_elem_of_In, List.filter_In, negb_true_iff.
  destruct (String.eqb_spec v uri); intuition congruence.
Qed.

Lemma setDelete_NoDup uri l : NoDup l -> NoDup (setDelete uri l).
Proof.
  intros Hnd. unfold setDelete. apply NoDup_ListNoDup, List.NoDup_filter.
  now apply NoDup_ListNoDup.
Qed.

Lemma consistent_create : consistent create.
Proof.
  split; [apply NoDup_nil_2|].
  intros uri h H. cbn in H. now rewrite lookup_empty in H.
Qed.

Lemma consistent_stopPolling m : consistent m -> consistent (stopPolling m).
Proof. unfold stopPolling. now destruct (pollTimer m). Qed.

Lemma consistent_subscribe uri m : consistent m -> consistent (subscribe uri m).
Proof.
  intros [Hnd Hh]. unfold subscribe. simpl.
  destruct (negb (pollTimer m)); split; simpl;
    (now apply setAdd_NoDup) || exact Hh.
Qed.

Lemma consistent_unsubscribe uri m :
  consistent m -> consistent (unsubscribe uri m).
Proof.
  intros [Hnd Hh]. unfold unsubscribe.
  match goal with |- consistent (if _ then stopPolling ?x else ?x) =>
    assert (Hc : consistent x) end.
  { split; simpl; [now apply setDelete_NoDup|].
    intros v h Hv. apply lookup_delete_Some in Hv as [_ Hv]. eauto. }
  destruct (Nat.eqb _ 0); [now apply consistent_stopPolling | exact Hc].
Qed.

Lemma consistent_checkForChanges w m :
  consistent m -> consistent (fst (checkForChanges w m)).
Proof.
  intros [Hnd Hh]. split.
  - now rewrite (proj1 (checkForChanges_subscriptions w m)).
  - intros uri h. rewrite checkForChanges_entry by exact Hnd.
    case_bool_decide; [|apply Hh].
    destruct (uriOutcome_fst w (lastHashes m !! uri) uri) as [->|[json ->]];
      [apply Hh|].
    intros E. inversion E. now exists json.
Qed.

Lemma consistent_step m e : consistent m -> consistent (fst (step m e)).
Proof.
  intros Hc. destruct e as [uri|uri| |w]; simpl.
  - now apply consistent_subscribe.
  - now apply consistent_unsubscribe.
  - now apply consistent_stopPolling.
  - destruct (pollTimer m); [now apply consistent_checkForChanges | exact Hc].
Qed.

Lemma consistent_run es : forall m,
  consistent m -> consistent (fst (run m es)).
Proof.
  induction es as [|e es IH]; intros m Hc; [exact Hc|].
  simpl. pose proof (consistent_step m e Hc) as H1.
  destruct (Resources.step sha256_hex m e) as [m1 out1].
  specialize (IH m1 H1).
  now destruct (Resources.run sha256_hex m1 es) as [m2 out2].
Qed.

Lemma reachable_consistent m : reachable m -> consistent m.
Proof. intros [es <-]. apply consistent_run, consistent_create. Qed.

(** A stored hash is truthy, so the guard [lastHash && lastHash !== hash]
    asks just for a stored hash that differs. *)
Lemma changed_guard m uri hash :
  consistent m ->
  truthyOpt (lastHashes m !! uri)
  && negb (bool_decide (lastHashes m !! uri = Some hash)) = true
  <-> exists old, lastHashes m !! uri = Some old /\ old <> hash.
Proof.
  intros [_ Hh]. rewrite andb_true_iff, negb_true_iff, bool_decide_eq_false.
  destruct (lastHashes m !! uri) as [old|] eqn:E; simpl.
  - destruct (Hh _ _ E) as [json ->].
    pose proof (digest_nonempty json) as Hne.
    unfold truthy. destruct (sha256_hex json) eqn:Ed; [congruence|]. simpl.
    split; [intros [_ H]; eexists; split; [reflexivity | congruence]
           | intros [old [Ho Hd]]; split; [reflexivity | congruence]].
  - split; [intros [H _]; discriminate | intros [old [H _]]; discriminate].
Qed.

(** The outcome of the loop body for a URI that parses and is fetched. *)
Lemma uriOutcome_fetched w m uri parsed json :
  consistent m ->
  parseResourceUri uri = Some parsed ->
  fetchResourceData w parsed = Ok (Value json) ->
  let changed := exists old, lastHashes m !! uri = Some old
                             /\ old <> sha256_hex json in
  (snd (uriOutcome w (lastHashes m !! uri) uri) = true
     <-> changed /\ sendResourceUpdated w uri = true)
  /\ (sendResourceUpdated w uri = true \/ ~ changed ->
        fst (uriOutcome w (lastHashes m !! uri) uri)
        = Some (sha256_hex json))
  /\ (changed -> sendResourceUpdated w uri = false ->
        fst (uriOutcome w (lastHashes m !! uri) uri) = lastHashes m !! uri).
Proof.
  intros Hc Hparse Hfetch changed. unfold Resources.uriOutcome.
  rewrite Hparse, Hfetch. simpl.
  pose proof (changed_guard m uri (sha256_hex json) Hc) as Hg.
  fold changed in Hg.
  destruct (truthyOpt (lastHashes m !! uri) && _).
  - assert (Hch : changed) by now apply Hg.
    destruct (sendResourceUpdated w uri); simpl.
    + repeat split; try tauto; discriminate.
    + split; [split; [discriminate | intros [_ H]; discriminate]|].
      split; [intros [H|H]; [discriminate | contradiction] | reflexivity].
  - assert (Hch : ~ changed) by (intros H; apply Hg in H; discriminate).
    simpl. split; [split; [discriminate | tauto]|].
    split; [reflexivity | contradiction].
Qed.

(** The outcome for a URI that does not parse or whose fetch fails. *)
Lemma uriOutcome_skipped w last uri :
  parseResourceUri uri = None
  \/ (exists parsed msg, parseResourceUri uri = Some parsed
                         /\ fetchResourceData w parsed = Throws msg) ->
  uriOutcome w last uri = (last, false).
Proof.
  unfold Resources.uriOutcome.
  intros [->|(parsed & msg & -> & ->)]; reflexivity.
Qed.

(** *** The three methods, field by field *)

Lemma stopPolling_fields m :
  subscriptions (stopPolling m) = subscriptions m
  /\ lastHashes (stopPolling m) = lastHashes m
  /\ pollTimer (stopPolling m) = false.
Proof. unfold stopPolling. destruct (pollTimer m) eqn:E; now rewrite ?E. Qed.

Lemma subscribe_fields uri m :
  subscriptions (subscribe uri m) = setAdd uri (subscriptions m)
  /\ lastHashes (subscribe uri m) = lastHashes m
  /\ pollTimer (subscribe uri m) = true.
Proof. unfold subscribe. simpl. now destruct (pollTimer m). Qed.

Lemma unsubscribe_fields uri m :
  subscriptions (unsubscribe uri m) = setDelete uri (subscriptions m)
  /\ lastHashes (unsubscribe uri m) = delete uri (lastHashes m)
  /\ pollTimer (unsubscribe uri m)
     = match setDelete uri (subscriptions m) with
       | [] => false
       | _ => pollTimer m
       end.
Proof.
  unfold unsubscribe. simpl.
  destruct (setDelete uri (subscriptions m)) as [|x l]; simpl.
  - unfold stopPolling. simpl. now destruct (pollTimer m).
  - repeat split.
Qed.

(** *** A URI that is neither subscribed nor fingerprinted stays so *)

Lemma forgotten_step m e uri :
  consistent m ->
  (uri ∉ subscriptions m) -> lastHashes m !! uri = None ->
  e <> Subscribe uri ->
  (uri ∉ subscriptions (fst (step m e)))
  /\ lastHashes (fst (step m e)) !! uri = None
  /\ (uri ∉ snd (step m e)).
Proof.
  intros [Hnd _] Hsub Hhash He. destruct e as [v|v| |w]; simpl.
  - destruct (subscribe_fields v m) as (-> & -> & _).
    split; [|split; [exact Hhash | apply not_elem_of_nil]].
    rewrite setAdd_elem. intros [->|H]; [now apply He | now apply Hsub].
  - destruct (unsubscribe_fields v m) as (-> & -> & _).
    split; [|split; [|apply not_elem_of_nil]].
    + rewrite setDelete_elem. tauto.
    + apply lookup_delete_None. now right.
  - destruct (stopPolling_fields m) as (-> & -> & _).
    split; [exact Hsub|]. split; [exact Hhash | apply not_elem_of_nil].
  - destruct (pollTimer m); simpl;
      [|split; [exact Hsub|]; split; [exact Hhash | apply not_elem_of_nil]].
    rewrite (proj1 (checkForChanges_subscriptions w m)).
    rewrite checkForChanges_entry, checkForChanges_sent by exact Hnd.
    rewrite bool_decide_eq_false_2 by exact Hsub. tauto.
Qed.

Lemma forgotten_run es : forall m uri,
  consistent m ->
  (uri ∉ subscriptions m) -> lastHashes m !! uri = None ->
  Forall (fun e => e <> Subscribe uri) es ->
  (uri ∉ subscriptions (fst (run m es)))
  /\ lastHashes (fst (run m es)) !! uri = None
  /\ (uri ∉ snd (run m es)).
Proof.
  induction es as [|e es IH]; intros m uri Hc Hsub Hhash Hes.
  - simpl. split; [exact Hsub|]. split; [exact Hhash | apply not_elem_of_nil].
  - apply Forall_cons in Hes as [He Hes]. simpl.
    destruct (forgotten_step m e uri Hc Hsub Hhash He) as (H1 & H2 & H3).
    pose proof (consistent_step m e Hc) as Hc1.
    destruct (Resources.step sha256_hex m e) as [m1 out1]. simpl in *.
    specialize (IH m1 uri Hc1 H1 H2 Hes).
    destruct (Resources.run sha256_hex m1 es) as [m2 out2]. simpl in *.
    destruct IH as (I1 & I2 & I3).
    split; [exact I1|]. split; [exact I2|].
    rewrite elem_of_app. tauto.
Qed.

(** *** The timer follows the subscription set, while nobody stops it *)

Lemma timer_step m e :
  e <> StopPolling ->
  (pollTimer m = true <-> subscriptions m <> []) ->
  (pollTimer (fst (step m e)) = true <-> subscriptions (fst (step m e)) <> []).
Proof.
  intros He Hinv. destruct e as [v|v| |w]; simpl.
  - destruct (subscribe_fields v m) as (-> & _ & ->).
    split; [intros _ | reflexivity].
    intros E. assert (H : v ∈ setAdd v (subscriptions m))
      by (apply setAdd_elem; now left).
    rewrite E in H. now apply not_elem_of_nil in H.
  - destruct (unsubscribe_fields v m) as (-> & _ & ->).
    destruct (setDelete v (subscriptions m)) as [|x l] eqn:E.
    + split; [discriminate | congruence].
    + rewrite Hinv. split; [discriminate|]. intros _ En.
      assert (H : x ∈ setDelete v (subscriptions m))
        by (rewrite E; apply list_elem_of_here).
      apply setDelete_elem in H as [H _]. rewrite En in H.
      now apply not_elem_of_nil in H.
  - congruence.
  - destruct (pollTimer m) eqn:Et; [|simpl; now rewrite Et].
    destruct (checkForChanges_subscriptions w m) as [-> ->].
    now rewrite Et.
Qed.

Lemma timer_run es : forall m,
  Forall (fun e => e <> StopPolling) es ->
  (pollTimer m = true <-> subscriptions m <> []) ->
  (pollTimer (fst (run m es)) = true <-> subscriptions (fst (run m es)) <> []).
Proof.
  induction es as [|e es IH]; intros m Hes Hinv; [exact Hinv|].
  apply Forall_cons in Hes as [He Hes]. simpl.
  pose proof (timer_step m e He Hinv) as H1.
  destruct (Resources.step sha256_hex m e) as [m1 out1]. simpl in H1.
  specialize (IH m1 Hes H1).
  now destruct (Resources.run sha256_hex m1 es) as [m2 out2].
Qed.

(** *** One tick, with and without a URI that is skipped *)

Lemma checkForChanges_sent_eq w m :
  NoDup (subscriptions m) ->
  snd (checkForChanges w m)
  = List.filter (fun u => snd (uriOutcome w (lastHashes m !! u) u))
      (subscriptions m).
Proof.
  intros Hnd. destruct (fold_checkUri w _ (lastHashes m) [] Hnd) as [_ H].
  unfold Resources.checkForChanges.
  now destruct (fold_left _ _ _) as [h sent].
Qed.

Lemma filter_filter_agree {A} (f g p : A -> bool) l :
  (forall x, In x l -> f x = p x && g x) ->
  List.filter f l = List.filter g (List.filter p l).
Proof.
  induction l as [|x l IH]; intros H; [reflexivity|]. simpl.
  rewrite (H x) by now left.
  rewrite IH by (intros y Hy; apply H; now right).
  destruct (p x); simpl; [|reflexivity]. now destruct (g x).
Qed.

Lemma checkForChanges_without w m uri :
  consistent m ->
  uriOutcome w (lastHashes m !! uri) uri = (lastHashes m !! uri, false) ->
  snd (checkForChanges w m) = snd (checkForChanges w (unsubscribe uri m))
  /\ forall v, v <> uri ->
       lastHashes (fst (checkForChanges w m)) !! v
       = lastHashes (fst (checkForChanges w (unsubscribe uri m))) !! v.
Proof.
  intros Hc Hout. pose proof (consistent_unsubscribe uri m Hc) as Hc'.
  destruct Hc as [Hnd _], Hc' as [Hnd' _].
  destruct (unsubscribe_fields uri m) as (Hs & Hh & _). split.
  - rewrite !checkForChanges_sent_eq by assumption. rewrite Hs, Hh.
    unfold setDelete. apply filter_filter_agree. intros x _.
    destruct (String.eqb_spec x uri) as [->|Hne]; simpl.
    + now rewrite Hout.
    + now rewrite lookup_delete_ne.
  - intros v Hv. rewrite !checkForChanges_entry by assumption.
    rewrite Hs, Hh, lookup_delete_ne by congruence.
    apply (f_equal (fun b : bool => if b then _ else _)).
    apply bool_decide_ext. rewrite setDelete_elem. tauto.
Qed.

Lemma uriOutcome_first w uri : snd (uriOutcome w None uri) = false.
Proof.
  unfold Resources.uriOutcome.
  destruct (parseResourceUri uri) as [parsed|]; [|reflexivity].
  now destruct (fetchResourceData w parsed) as [[|json]|msg].
Qed.

End Subscriptions.

Lemma sample_digest_nonempty j : Samples.digest j <> EmptyString.
Proof.
  unfold Samples.digest.
  change ("sha256:" ++ j)%string with (String "s" ("ha256:" ++ j)%string).
  discriminate.
Qed.

Lemma polledOnce_reachable :
  Resources.reachable Samples.digest Samples.polledOnce.
Proof.
  exists [Resources.Subscribe Samples.tasksUri;
          Resources.Tick (Samples.pollWorld (Ok "[]") true)].
  reflexivity.
Qed.

Lemma polledOnce_subscribed :
  Samples.tasksUri ∈ Resources.subscriptions Samples.polledOnce.
Proof.
  replace (Resources.subscriptions Samples.polledOnce)
    with [Samples.tasksUri] by (vm_compute; reflexivity).
  apply list_elem_of_here.
Qed.

(** C8: in one tick, a subscribed URI that does not parse, or whose fetch
    fails, is skipped and nothing else: it stays subscribed, its stored
    fingerprint is left as it was, every other URI is processed exactly as
    if the failing one had not been subscribed, and the next tick tries it
    again. *)
Theorem poll_skips_only_failing_uri
    (sha256_hex : string -> string)
    (m : Resources.SubscriptionManager) (w : Resources.World) (uri : string) :
  (forall j, sha256_hex j <> EmptyString) ->
  Resources.reachable sha256_hex m ->
  uri ∈ Resources.subscriptions m ->
  Resources.parseResourceUri uri = None
  \/ (exists parsed msg, Resources.parseResourceUri uri = Some parsed
                         /\ Resources.fetchResourceData w parsed = Throws msg) ->
  let after := fst (Resources.checkForChanges sha256_hex w m) in
  let sent := snd (Resources.checkForChanges sha256_hex w m) in
  let apart :=
    Resources.checkForChanges sha256_hex w (Resources.unsubscribe uri m) in
  Resources.subscriptions after = Resources.subscriptions m
  /\ Resources.pollTimer after = Resources.pollTimer m
  /\ Resources.lastHashes after !! uri = Resources.lastHashes m !! uri
  /\ (uri ∉ sent)
  /\ sent = snd apart
  /\ (forall v, v <> uri ->
        Resources.lastHashes after !! v = Resources.lastHashes (fst apart) !! v)
  /\ (forall w' parsed json,
        Resources.parseResourceUri uri = Some parsed ->
        Resources.fetchResourceData w' parsed = Ok (Resources.Value json) ->
        Resources.sendResourceUpdated w' uri = true ->
        Resources.lastHashes
          (fst (Resources.checkForChanges sha256_hex w' after)) !! uri
        = Some (sha256_hex json)).
Proof.
  intros Hdigest Hreach Hsub Hfail after sent apart.
  pose proof (reachable_consistent sha256_hex m Hreach) as Hc.
  pose proof (uriOutcome_skipped sha256_hex w
                (Resources.lastHashes m !! uri) uri Hfail) as Hout.
  destruct (checkForChanges_subscriptions sha256_hex w m) as [Hs Ht].
  destruct (checkForChanges_without sha256_hex w m uri Hc Hout) as [Hsent Hrest].
  pose proof (consistent_checkForChanges sha256_hex w m Hc) as Hc'.
  fold after in Hs, Ht, Hc'. destruct Hc as [Hnd Hh].
  split; [exact Hs|]. split; [exact Ht|]. split; [|split; [|split; [|split]]].
  - subst after. rewrite checkForChanges_entry by exact Hnd.
    rewrite bool_decide_eq_true_2 by exact Hsub. now rewrite Hout.
  - subst sent. rewrite checkForChanges_sent by exact Hnd.
    rewrite Hout. simpl. intros [_ H]. discriminate.
  - exact Hsent.
  - exact Hrest.
  - intros w' parsed json Hparse Hfetch Hsend.
    destruct (uriOutcome_fetched sha256_hex Hdigest w' after uri parsed json
                Hc' Hparse Hfetch) as (_ & Hfst & _).
    rewrite checkForChanges_entry by apply Hc'.
    rewrite bool_decide_eq_true_2 by (rewrite Hs; exact Hsub).
    apply Hfst. now left.
Qed.

Lemma twoSubscriptions_reachable :
  Resources.reachable Samples.digest Samples.twoSubscriptions.
Proof.
  exists [Resources.Subscribe Samples.tasksUri;
          Resources.Subscribe "vibe://nowhere";
          Resources.Tick (Samples.pollWorld (Ok "[]") true)].
  reflexivity.
Qed.

Lemma poll_skips_only_failing_uri_witness :
  let w := Samples.pollWorld (Ok "[1]") true in
  let m := Samples.twoSubscriptions in
  Resources.parseResourceUri "vibe://nowhere" = None
  /\ Resources.subscriptions (fst (Resources.checkForChanges Samples.digest w m))
     = Resources.subscriptions m
  /\ snd (Resources.checkForChanges Samples.digest w m)
     = snd (Resources.checkForChanges Samples.digest w
              (Resources.unsubscribe "vibe://nowhere" m)).
Proof.
  intros w m.
  assert (Hparse : Resources.parseResourceUri "vibe://nowhere" = None)
    by (vm_compute; reflexivity).
  assert (Hsub : "vibe://nowhere" ∈ Resources.subscriptions m).
  { replace (Resources.subscriptions m)
      with [Samples.tasksUri; "vibe://nowhere"] by (vm_compute; reflexivity).
    apply list_elem_of_further, list_elem_of_here. }
  destruct (poll_skips_only_failing_uri Samples.digest m w "vibe://nowhere"
              sample_digest_nonempty twoSubscriptions_reachable Hsub
              (or_introl Hparse)) as (Hs & _ & _ & _ & Hsent & _).
  split; [exact Hparse|]. split; [exact Hs | exact Hsent].
Defined.

Lemma step_tick sha256_hex m w :
  Resources.step sha256_hex m (Resources.Tick w)
  = if Resources.pollTimer m
    then Resources.checkForChanges sha256_hex w m else (m, []).
Proof. reflexivity. Qed.

(** C3: after [unsubscribe], as long as the URI is not subscribed again no
    notification for it is emitted; and once it is subscribed again the
    manager holds no fingerprint for it, the first tick emits nothing for
    it whatever the content, and leaves for it the same entry as the first
    tick of a manager that has just been created and subscribed. *)
Theorem unsubscribe_forgets
    (sha256_hex : string -> string)
    (m : Resources.SubscriptionManager) (uri : string)
    (es : list Resources.Event) (w : Resources.World) :
  Resources.reachable sha256_hex m ->
  Forall (fun e => e <> Resources.Subscribe uri) es ->
  let later := Resources.run sha256_hex (Resources.unsubscribe uri m) es in
  let again := Resources.subscribe uri (fst later) in
  let fresh := Resources.subscribe uri Resources.create in
  (uri ∉ snd later)
  /\ Resources.lastHashes again !! uri = None
  /\ Resources.pollTimer again = true
  /\ (uri ∉ snd (Resources.step sha256_hex again (Resources.Tick w)))
  /\ Resources.lastHashes
       (fst (Resources.step sha256_hex again (Resources.Tick w))) !! uri
     = Resources.lastHashes
         (fst (Resources.step sha256_hex fresh (Resources.Tick w))) !! uri.
Proof.
  intros Hreach Hes later again fresh.
  pose proof (reachable_consistent sha256_hex m Hreach) as Hc.
  pose proof (consistent_unsubscribe sha256_hex uri m Hc) as Hc1.
  destruct (unsubscribe_fields uri m) as (Hs1 & Hh1 & _).
  assert (Hsub1 : uri ∉ Resources.subscriptions (Resources.unsubscribe uri m))
    by (rewrite Hs1, setDelete_elem; tauto).
  assert (Hhash1 : Resources.lastHashes (Resources.unsubscribe uri m) !! uri = None)
    by (rewrite Hh1; apply lookup_delete_eq).
  destruct (forgotten_run sha256_hex es _ uri Hc1 Hsub1 Hhash1 Hes)
    as (_ & Hhash2 & Hout).
  fold later in Hhash2, Hout.
  pose proof (consistent_run sha256_hex es _ Hc1) as Hc2. fold later in Hc2.
  pose proof (consistent_subscribe sha256_hex uri _ Hc2) as Hc3.
  fold again in Hc3.
  pose proof (consistent_subscribe sha256_hex uri _
                (consistent_create sha256_hex)) as Hcf. fold fresh in Hcf.
  destruct (subscribe_fields uri (fst later)) as (Hs3 & Hh3 & Ht3).
  destruct (subscribe_fields uri Resources.create) as (Hsf & Hhf & Htf).
  fold again in Hs3, Hh3, Ht3. fold fresh in Hsf, Hhf, Htf.
  assert (Hnone : Resources.lastHashes again !! uri = None)
    by (now rewrite Hh3).
  split; [exact Hout|]. split; [exact Hnone|]. split; [exact Ht3|].
  rewrite !step_tick, Ht3, Htf. split.
  - rewrite checkForChanges_sent by apply Hc3.
    rewrite Hnone, uriOutcome_first. intros [_ H]. discriminate.
  - rewrite !checkForChanges_entry by (apply Hc3 || apply Hcf).
    rewrite Hs3, Hsf, Hnone, Hhf.
    rewrite !bool_decide_eq_true_2 by (apply setAdd_elem; now left).
    reflexivity.
Qed.

Lemma unsubscribe_forgets_witness :
  let w := Samples.pollWorld (Ok "[2]") true in
  let es := [Resources.Tick (Samples.pollWorld (Ok "[1]") true)] in
  let later := Resources.run Samples.digest
                 (Resources.unsubscribe Samples.tasksUri Samples.polledOnce) es in
  let again := Resources.subscribe Samples.tasksUri (fst later) in
  Forall (fun e => e <> Resources.Subscribe Samples.tasksUri) es
  /\ (Samples.tasksUri ∉ snd later)
  /\ (Samples.tasksUri
       ∉ snd (Resources.step Samples.digest again (Resources.Tick w))).
Proof.
  intros w es later again.
  assert (Hes : Forall (fun e => e <> Resources.Subscribe Samples.tasksUri) es)
    by (apply Forall_cons; split; [discriminate | apply Forall_nil_2]).
  destruct (unsubscribe_forgets Samples.digest Samples.polledOnce
              Samples.tasksUri es w polledOnce_reachable Hes)
    as (Hout & _ & _ & Hfirst & _).
  split; [exact Hes|]. split; [exact Hout | exact Hfirst].
Defined.

(** C4, as the manager has it.  In every state reached through subscribe,
    unsubscribe and timer ticks the poll timer is set exactly when the
    subscription set is non-empty: subscribing always leaves it set (the
    first subscription starts it), unsubscribing the last URI stops it, and
    unsubscribing while others remain leaves it running.  [stopPolling]
    halts the timer whatever the set holds. *)
Theorem timer_follows_subscriptions
    (sha256_hex : string -> string) (es : list Resources.Event) :
  Forall (fun e => e <> Resources.StopPolling) es ->
  let m := fst (Resources.run sha256_hex Resources.create es) in
  (Resources.pollTimer m = true <-> Resources.subscriptions m <> [])
  /\ (forall uri,
        Resources.subscriptions (Resources.subscribe uri m) <> []
        /\ Resources.pollTimer (Resources.subscribe uri m) = true)
  /\ (forall uri,
        Resources.subscriptions (Resources.unsubscribe uri m) = [] ->
        Resources.pollTimer (Resources.unsubscribe uri m) = false)
  /\ (forall uri,
        Resources.subscriptions (Resources.unsubscribe uri m) <> [] ->
        Resources.pollTimer (Resources.unsubscribe uri m) = true)
  /\ (Resources.pollTimer (Resources.stopPolling m) = false
      /\ Resources.subscriptions (Resources.stopPolling m)
         = Resources.subscriptions m).
Proof.
  intros Hes m.
  assert (Hinit : Resources.pollTimer Resources.create = true
                  <-> Resources.subscriptions Resources.create <> [])
    by (simpl; split; [discriminate | congruence]).
  pose proof (timer_run sha256_hex es Resources.create Hes Hinit) as Hinv.
  fold m in Hinv.
  assert (Hstep : forall e, e <> Resources.StopPolling ->
            (Resources.pollTimer (fst (Resources.step sha256_hex m e)) = true
             <-> Resources.subscriptions (fst (Resources.step sha256_hex m e)) <> []))
    by (intros e He; now apply timer_step).
  split; [exact Hinv|]. split; [|split; [|split]].
  - intros uri.
    pose proof (Hstep (Resources.Subscribe uri) ltac:(discriminate)) as H.
    simpl in H. destruct (subscribe_fields uri m) as (_ & _ & Ht).
    split; [now apply H | exact Ht].
  - intros uri Hempty.
    pose proof (Hstep (Resources.Unsubscribe uri) ltac:(discriminate)) as H.
    simpl in H.
    destruct (Resources.pollTimer (Resources.unsubscribe uri m));
      [|reflexivity].
    now destruct (proj1 H eq_refl).
  - intros uri Hrest.
    pose proof (Hstep (Resources.Unsubscribe uri) ltac:(discriminate)) as H.
    simpl in H. now apply H.
  - destruct (stopPolling_fields m) as (Hs & _ & Ht). now split.
Qed.

Lemma timer_follows_subscriptions_witness :
  let es := [Resources.Subscribe "vibe://tasks";
             Resources.Subscribe "vibe://context";
             Resources.Unsubscribe "vibe://tasks"] in
  let m := fst (Resources.run Samples.digest Resources.create es) in
  Forall (fun e => e <> Resources.StopPolling) es
  /\ Resources.subscriptions m = ["vibe://context"]
  /\ (Resources.pollTimer m = true <-> Resources.subscriptions m <> []).
Proof.
  intros es m.
  assert (Hes : Forall (fun e => e <> Resources.StopPolling) es)
    by (repeat (apply Forall_cons; split; [discriminate|]); apply Forall_nil_2).
  destruct (timer_follows_subscriptions Samples.digest es Hes) as (Hinv & _).
  split; [exact Hes|]. split; [vm_compute; reflexivity | exact Hinv].
Defined.

(** A reachable state in which the subscription set is non-empty and the
    timer is not set: one subscription, then [stopPolling]. *)
Lemma timer_stopped_while_subscribed :
  let m := fst (Resources.run Samples.digest Resources.create
                  [Resources.Subscribe "vibe://tasks"; Resources.StopPolling]) in
  Resources.reachable Samples.digest m
  /\ Resources.subscriptions m = ["vibe://tasks"]
  /\ Resources.pollTimer m = false
  /\ ~ (Resources.pollTimer m = true <-> Resources.subscriptions m <> []).
Proof.
  intros m.
  split; [now exists [Resources.Subscribe "vibe://tasks"; Resources.StopPolling]|].
  split; [reflexivity|]. split; [reflexivity|].
  intros [_ H]. assert (E : Resources.pollTimer m = true) by (apply H; discriminate).
  discriminate E.
Qed.

(** * Further properties *)

(** ** Resource URIs: printing and parsing *)

Section UriFacts.
Import JsString Resources ResourceHandlers.

Lemma eqCharCI_refl c : eqCharCI c c = true.
Proof. apply Ascii.eqb_refl. Qed.

Lemma stripPrefixCI_app lit s : stripPrefixCI lit (lit ++ s)%string = Some s.
Proof.
  induction lit as [|c lit IH]; [reflexivity|].
  rewrite string_app_cons. simpl. now rewrite eqCharCI_refl.
Qed.

Lemma spanId_app i s :
  allChars isIdChar i = true ->
  match s with EmptyString => true | String c _ => negb (isIdChar c) end = true ->
  spanId (i ++ s)%string = (i, s).
Proof.
  intros Hi Hs. induction i as [|c i IH].
  - rewrite string_app_nil. destruct s as [|c s]; [reflexivity|].
    simpl. apply negb_true_iff in Hs. now rewrite Hs.
  - simpl in Hi. apply andb_true_iff in Hi as [Hc Hi].
    rewrite string_app_cons. simpl. now rewrite Hc, (IH Hi).
Qed.

Lemma matchId_app lit tail i :
  isId i = true ->
  match tail with EmptyString => true | String c _ => negb (isIdChar c) end = true ->
  matchId lit tail (lit ++ i ++ tail)%string = Some i.
Proof.
  intros Hid Htail. unfold isId in Hid.
  apply andb_true_iff in Hid as [Hne Hall].
  unfold matchId. rewrite stripPrefixCI_app, (spanId_app i tail Hall Htail).
  apply negb_true_iff in Hne. rewrite Hne.
  replace tail with (tail ++ "")%string at 2
    by (clear; induction tail as [|c t IH]; [reflexivity|];
        now rewrite string_app_cons, IH).
  now rewrite stripPrefixCI_app.
Qed.

Lemma matchId_app_end lit i :
  isId i = true -> matchId lit "" (lit ++ i)%string = Some i.
Proof.
  intros Hid.
  replace (lit ++ i)%string with (lit ++ i ++ "")%string
    by now rewrite string_app_empty_r.
  now apply matchId_app.
Qed.

Lemma stripPrefixCI_sound lit s rest :
  stripPrefixCI lit s = Some rest ->
  exists pre, s = (pre ++ rest)%string /\ eqStringCI pre lit = true.
Proof.
  revert s. induction lit as [|a lit IH]; intros s H; simpl in H.
  - inversion H; subst. now exists EmptyString.
  - destruct s as [|b s]; [discriminate|].
    destruct (eqCharCI a b) eqn:E; [|discriminate].
    destruct (IH s H) as (pre & -> & Hpre). exists (String b pre).
    split; [reflexivity|]. simpl. rewrite Hpre, andb_true_r.
    unfold eqCharCI in *. apply Ascii.eqb_eq in E. rewrite E.
    apply Ascii.eqb_refl.
Qed.

Lemma spanId_sound s i after :
  spanId s = (i, after) ->
  s = (i ++ after)%string /\ allChars isIdChar i = true.
Proof.
  revert i after. induction s as [|c s IH]; intros i after H; simpl in H.
  - inversion H; subst. now split.
  - destruct (isIdChar c) eqn:Ec.
    + destruct (spanId s) as [i' rest] eqn:Es. inversion H; subst.
      destruct (IH i' after eq_refl) as [-> Hall].
      split; [reflexivity|]. simpl. now rewrite Ec.
    + inversion H; subst. now split.
Qed.

Lemma eqStringCI_refl s : eqStringCI s s = true.
Proof.
  induction s as [|c s IH]; [reflexivity|].
  simpl. now rewrite eqCharCI_refl.
Qed.

Lemma eqStringCI_app a b c d :
  eqStringCI a b = true -> eqStringCI c d = true ->
  eqStringCI (a ++ c) (b ++ d) = true.
Proof.
  revert b. induction a as [|x a IH]; intros [|y b] Hab Hcd;
    try discriminate; [exact Hcd|].
  simpl in Hab. apply andb_true_iff in Hab as [Hxy Hab].
  rewrite !string_app_cons. simpl. now rewrite Hxy, IH.
Qed.

Lemma matchId_sound lit tail uri i :
  matchId lit tail uri = Some i ->
  isId i = true /\ eqStringCI uri (lit ++ i ++ tail) = true.
Proof.
  unfold matchId. intros H.
  destruct (stripPrefixCI lit uri) as [rest|] eqn:Ep; [|discriminate].
  destruct (spanId rest) as [i' after] eqn:Es.
  destruct (isEmpty i') eqn:Ee; [discriminate|].
  destruct (stripPrefixCI tail after) as [[|? ?]|] eqn:Et; try discriminate.
  inversion H; subst.
  apply stripPrefixCI_sound in Ep as (pre & -> & Hpre).
  apply spanId_sound in Es as [-> Hall].
  apply stripPrefixCI_sound in Et as (pre' & -> & Hpre').
  split; [unfold isId; now rewrite Ee, Hall|].
  rewrite string_app_empty_r.
  apply eqStringCI_app; [exact Hpre|].
  apply eqStringCI_app; [apply eqStringCI_refl | exact Hpre'].
Qed.

End UriFacts.

(** X1: every URI the server advertises is recognised by the parser: the
    fixed resources, and each template filled with a non-empty id of
    hexadecimal digits and hyphens, which parses back to the same shape
    and id. *)
Theorem parse_uriOf (p : Resources.ParsedUri) :
  (forall i, ResourceHandlers.idOf p = Some i -> ResourceHandlers.isId i = true) ->
  Resources.parseResourceUri (ResourceHandlers.uriOf p) = Some p
  /\ forall ws u, u ∈ ResourceHandlers.listResources ws ->
                  Resources.parseResourceUri u <> None.
Proof.
  intros Hid. split.
  - destruct p as [|i|i|i|]; try reflexivity;
      specialize (Hid i eq_refl); unfold Resources.parseResourceUri.
    + replace (String.eqb (ResourceHandlers.uriOf (Resources.PTask i)) "vibe://tasks")
        with false.
      2:{ unfold ResourceHandlers.isId in Hid. destruct i; [discriminate|].
          vm_compute. reflexivity. }
      replace (String.eqb (ResourceHandlers.uriOf (Resources.PTask i)) "vibe://context")
        with false by (vm_compute; reflexivity).
      unfold ResourceHandlers.uriOf.
      now rewrite (matchId_app_end "vibe://tasks/" i Hid).
    + replace (String.eqb (ResourceHandlers.uriOf (Resources.PSession i)) "vibe://tasks")
        with false by (vm_compute; reflexivity).
      replace (String.eqb (ResourceHandlers.uriOf (Resources.PSession i)) "vibe://context")
        with false by (vm_compute; reflexivity).
      replace (Resources.matchId "vibe://tasks/" ""
                 (ResourceHandlers.uriOf (Resources.PSession i)))
        with (@None string) by (vm_compute; reflexivity).
      unfold ResourceHandlers.uriOf.
      assert (Hq : Resources.matchId "vibe://sessions/" "/queue"
                     ("vibe://sessions/" ++ i)%string = None).
      { unfold Resources.matchId. rewrite stripPrefixCI_app.
        unfold ResourceHandlers.isId in Hid.
        apply andb_true_iff in Hid as [Hne Hall].
        pose proof (spanId_app i "" Hall eq_refl) as Hspan.
        rewrite string_app_empty_r in Hspan. rewrite Hspan.
        now destruct (JsString.isEmpty i). }
      rewrite Hq.
      now rewrite (matchId_app_end "vibe://sessions/" i Hid).
    + replace (String.eqb (ResourceHandlers.uriOf (Resources.PQueue i)) "vibe://tasks")
        with false by (vm_compute; reflexivity).
      replace (String.eqb (ResourceHandlers.uriOf (Resources.PQueue i)) "vibe://context")
        with false by (vm_compute; reflexivity).
      replace (Resources.matchId "vibe://tasks/" ""
                 (ResourceHandlers.uriOf (Resources.PQueue i)))
        with (@None string) by (vm_compute; reflexivity).
      unfold ResourceHandlers.uriOf.
      now rewrite (matchId_app "vibe://sessions/" "/queue" i Hid eq_refl).
  - intros ws u Hu. unfold ResourceHandlers.listResources in Hu.
    apply elem_of_cons in Hu as [->|Hu]; [discriminate|].
    destruct (JsString.truthyOpt ws); [|now apply elem_of_nil in Hu].
    apply list_elem_of_singleton in Hu as ->. discriminate.
Qed.

Lemma parse_uriOf_witness :
  (forall i, ResourceHandlers.idOf (Resources.PQueue "0a1b-2c3D") = Some i ->
             ResourceHandlers.isId i = true)
  /\ Resources.parseResourceUri "vibe://sessions/0a1b-2c3D/queue"
     = Some (Resources.PQueue "0a1b-2c3D").
Proof.
  assert (H : forall i, ResourceHandlers.idOf (Resources.PQueue "0a1b-2c3D") = Some i ->
                        ResourceHandlers.isId i = true)
    by (intros i E; inversion E; reflexivity).
  split; [exact H|].
  exact (proj1 (parse_uriOf (Resources.PQueue "0a1b-2c3D") H)).
Defined.

(** X2: the parser accepts nothing but the five shapes: a URI that parses
    is, up to the case of its letters, the advertised URI of the result,
    and a captured id is a non-empty run of hexadecimal digits and
    hyphens, kept exactly as written. *)
Theorem parseResourceUri_sound (uri : string) (p : Resources.ParsedUri) :
  Resources.parseResourceUri uri = Some p ->
  ResourceHandlers.eqStringCI uri (ResourceHandlers.uriOf p) = true
  /\ (forall i, ResourceHandlers.idOf p = Some i ->
        ResourceHandlers.isId i = true
        /\ exists pre post, uri = (pre ++ i ++ post)%string).
Proof.
  unfold Resources.parseResourceUri. intros H.
  destruct (String.eqb_spec uri "vibe://tasks") as [->|_];
    [inversion H; subst; split; [reflexivity | discriminate]|].
  destruct (String.eqb_spec uri "vibe://context") as [->|_];
    [inversion H; subst; split; [reflexivity | discriminate]|].
  assert (Hsub : forall lit tail i,
            Resources.matchId lit tail uri = Some i ->
            exists pre post, uri = (pre ++ i ++ post)%string).
  { intros lit tail i Hm. unfold Resources.matchId in Hm.
    destruct (Resources.stripPrefixCI lit uri) as [rest|] eqn:Ep; [|discriminate].
    destruct (Resources.spanId rest) as [i' after] eqn:Es.
    destruct (JsString.isEmpty i'); [discriminate|].
    destruct (Resources.stripPrefixCI tail after) as [[|? ?]|]; try discriminate.
    inversion Hm; subst.
    apply stripPrefixCI_sound in Ep as (pre & -> & _).
    apply spanId_sound in Es as [-> _]. now exists pre, after. }
  destruct (Resources.matchId "vibe://tasks/" "" uri) as [i|] eqn:E1.
  { inversion H; subst. pose proof (Hsub _ _ _ E1) as Hs.
    apply matchId_sound in E1 as [Hid Hci]. rewrite string_app_empty_r in Hci.
    split; [exact Hci|]. intros j Hj. inversion Hj; subst. now split. }
  destruct (Resources.matchId "vibe://sessions/" "/queue" uri) as [i|] eqn:E2.
  { inversion H; subst. pose proof (Hsub _ _ _ E2) as Hs.
    apply matchId_sound in E2 as [Hid Hci].
    split; [exact Hci|]. intros j Hj. inversion Hj; subst. now split. }
  destruct (Resources.matchId "vibe://sessions/" "" uri) as [i|] eqn:E3;
    [|discriminate].
  inversion H; subst. pose proof (Hsub _ _ _ E3) as Hs.
  apply matchId_sound in E3 as [Hid Hci]. rewrite string_app_empty_r in Hci.
  split; [exact Hci|]. intros j Hj. inversion Hj; subst. now split.
Qed.

Lemma parseResourceUri_sound_witness :
  Resources.parseResourceUri "VIBE://Tasks/AB-12" = Some (Resources.PTask "AB-12")
  /\ ResourceHandlers.eqStringCI "VIBE://Tasks/AB-12" "vibe://tasks/AB-12" = true.
Proof.
  assert (H : Resources.parseResourceUri "VIBE://Tasks/AB-12"
              = Some (Resources.PTask "AB-12")) by reflexivity.
  split; [exact H|].
  exact (proj1 (parseResourceUri_sound _ _ H)).
Defined.

(** ** The subscription manager over several events *)

Section SubscriptionsOverTime.
Import JsString Resources.

Variable sha256_hex : string -> string.

Local Abbreviation checkForChanges := (Resources.checkForChanges sha256_hex).
Local Abbreviation uriOutcome := (Resources.uriOutcome sha256_hex).
Local Abbreviation step := (Resources.step sha256_hex).
Local Abbreviation run := (Resources.run sha256_hex).
Local Abbreviation consistent := (Resources.consistent sha256_hex).

Lemma run_cons m e es :
  run m (e :: es)
  = (fst (run (fst (step m e)) es), snd (step m e) ++ snd (run (fst (step m e)) es)).
Proof.
  cbn [Resources.run]. destruct (Resources.step sha256_hex m e) as [m1 out1].
  cbn [fst snd]. now destruct (Resources.run sha256_hex m1 es) as [m2 out2].
Qed.

(** Every fingerprinted URI is subscribed: one step. *)
Lemma tracked_step m e :
  consistent m ->
  (forall u h, lastHashes m !! u = Some h -> u ∈ subscriptions m) ->
  forall u h, lastHashes (fst (step m e)) !! u = Some h ->
              u ∈ subscriptions (fst (step m e)).
Proof.
  intros [Hnd _] Hinv u h. destruct e as [v|v| |w]; simpl.
  - destruct (subscribe_fields v m) as (-> & -> & _).
    intros H. apply setAdd_elem. right. eauto.
  - destruct (unsubscribe_fields v m) as (-> & -> & _).
    intros H. apply lookup_delete_Some in H as [Hne H].
    apply setDelete_elem. split; [eauto | congruence].
  - destruct (stopPolling_fields m) as (-> & -> & _). apply Hinv.
  - destruct (pollTimer m); [|apply Hinv].
    rewrite (proj1 (checkForChanges_subscriptions sha256_hex w m)).
    rewrite (checkForChanges_entry sha256_hex w m u Hnd).
    case_bool_decide as Hin; [now intros _ | apply Hinv].
Qed.

Lemma tracked_run es : forall m,
  consistent m ->
  (forall u h, lastHashes m !! u = Some h -> u ∈ subscriptions m) ->
  forall u h, lastHashes (fst (run m es)) !! u = Some h ->
              u ∈ subscriptions (fst (run m es)).
Proof.
  induction es as [|e es IH]; intros m Hc Hinv; [exact Hinv|].
  rewrite run_cons. simpl.
  apply IH; [now apply consistent_step | now apply tracked_step].
Qed.

(** A URI that is not subscribed has no fingerprint. *)
Lemma untracked m uri :
  Resources.reachable sha256_hex m ->
  (uri ∉ subscriptions m) -> lastHashes m !! uri = None.
Proof.
  intros [es <-] Hout.
  destruct (lastHashes (fst (run create es)) !! uri) as [h|] eqn:E;
    [|reflexivity].
  destruct Hout. apply (tracked_run es create) with (h := h).
  - apply consistent_create.
  - intros u h' H. cbn in H. now rewrite lookup_empty in H.
  - exact E.
Qed.

(** Without a fetch of the URI that resolves with a value, no fingerprint
    is stored for it: one step, and a run. *)
Lemma unpolled_step m e uri parsed :
  consistent m ->
  parseResourceUri uri = Some parsed ->
  lastHashes m !! uri = None ->
  (forall w json, e = Tick w -> fetchResourceData w parsed <> Ok (Value json)) ->
  lastHashes (fst (step m e)) !! uri = None.
Proof.
  intros [Hnd _] Hparse Hentry Hno. destruct e as [v|v| |w]; simpl.
  - now destruct (subscribe_fields v m) as (_ & -> & _).
  - destruct (unsubscribe_fields v m) as (_ & -> & _).
    apply lookup_delete_None. now right.
  - now destruct (stopPolling_fields m) as (_ & -> & _).
  - destruct (pollTimer m); [|exact Hentry].
    rewrite (checkForChanges_entry sha256_hex w m uri Hnd).
    case_bool_decide; [|exact Hentry].
    unfold Resources.uriOutcome. rewrite Hparse.
    specialize (Hno w).
    destruct (fetchResourceData w parsed) as [[|json]|msg];
      [exact Hentry | now destruct (Hno json eq_refl) | exact Hentry].
Qed.

Lemma unpolled_run es : forall m uri parsed,
  consistent m ->
  parseResourceUri uri = Some parsed ->
  lastHashes m !! uri = None ->
  Forall (fun e => forall w json, e = Tick w ->
            fetchResourceData w parsed <> Ok (Value json)) es ->
  lastHashes (fst (run m es)) !! uri = None.
Proof.
  induction es as [|e es IH]; intros m uri parsed Hc Hparse Hentry Hes;
    [exact Hentry|].
  apply Forall_cons in Hes as [He Hes]. rewrite run_cons. simpl.
  apply (IH _ _ parsed); [now apply consistent_step | exact Hparse | | exact Hes].
  now apply (unpolled_step m e uri parsed).
Qed.

Lemma filter_sublist {A} (f : A -> bool) l : sublist (List.filter f l) l.
Proof.
  induction l as [|x l IH]; [constructor|].
  simpl. destruct (f x); now constructor.
Qed.

(** A URI whose fetches all give the fingerprint [h] (or fail) keeps an
    entry that is absent or [h], and is not notified: one step. *)
Lemma steady_step m e uri h :
  consistent m ->
  lastHashes m !! uri = None \/ lastHashes m !! uri = Some h ->
  (forall w parsed json, e = Tick w ->
     parseResourceUri uri = Some parsed ->
     fetchResourceData w parsed = Ok (Value json) -> sha256_hex json = h) ->
  (lastHashes (fst (step m e)) !! uri = None
   \/ lastHashes (fst (step m e)) !! uri = Some h)
  /\ (uri ∉ snd (step m e)).
Proof.
  intros [Hnd _] Hentry Hsame. destruct e as [v|v| |w]; simpl.
  - destruct (subscribe_fields v m) as (_ & -> & _).
    split; [exact Hentry | apply not_elem_of_nil].
  - destruct (unsubscribe_fields v m) as (_ & -> & _).
    split; [|apply not_elem_of_nil].
    destruct (decide (v = uri)) as [->|Hne];
      [left; apply lookup_delete_eq | now rewrite lookup_delete_ne].
  - destruct (stopPolling_fields m) as (_ & -> & _).
    split; [exact Hentry | apply not_elem_of_nil].
  - destruct (pollTimer m); [|split; [exact Hentry | apply not_elem_of_nil]].
    rewrite (checkForChanges_entry sha256_hex w m uri Hnd).
    rewrite (checkForChanges_sent sha256_hex w m uri Hnd).
    assert (Hout : uriOutcome w (lastHashes m !! uri) uri
                   = (lastHashes m !! uri, false)
                   \/ uriOutcome w (lastHashes m !! uri) uri = (Some h, false)).
    { unfold Resources.uriOutcome.
      destruct (parseResourceUri uri) as [parsed|] eqn:Ep; [|now left].
      destruct (fetchResourceData w parsed) as [[|json]|msg] eqn:Ef;
        [now left| |now left].
      simpl. rewrite (Hsame w parsed json eq_refl eq_refl Ef). simpl.
      destruct Hentry as [->| ->]; simpl; [now right|].
      rewrite bool_decide_eq_true_2 by reflexivity.
      rewrite andb_false_r. now right. }
    split.
    + case_bool_decide; [|exact Hentry].
      destruct Hout as [-> | ->]; simpl; [exact Hentry | now right].
    + intros [_ H]. destruct Hout as [Ho|Ho]; rewrite Ho in H; discriminate.
Qed.

Lemma steady_run es : forall m uri h,
  consistent m ->
  lastHashes m !! uri = None \/ lastHashes m !! uri = Some h ->
  Forall (fun e => forall w parsed json, e = Tick w ->
            parseResourceUri uri = Some parsed ->
            fetchResourceData w parsed = Ok (Value json) -> sha256_hex json = h) es ->
  uri ∉ snd (run m es).
Proof.
  induction es as [|e es IH]; intros m uri h Hc Hentry Hes.
  - apply not_elem_of_nil.
  - apply Forall_cons in Hes as [He Hes]. rewrite run_cons. simpl.
    destruct (steady_step m e uri h Hc Hentry He) as [Hentry' Hout].
    rewrite elem_of_app. intros [H|H]; [now apply Hout|].
    revert H. apply (IH _ uri h); [now apply consistent_step | exact Hentry' | exact Hes].
Qed.

Lemma setAdd_idem uri l : setAdd uri (setAdd uri l) = setAdd uri l.
Proof.
  unfold setAdd at 1. rewrite bool_decide_eq_true_2; [reflexivity|].
  apply setAdd_elem. now left.
Qed.

Lemma setDelete_idem uri l : setDelete uri (setDelete uri l) = setDelete uri l.
Proof.
  unfold setDelete. induction l as [|x l IH]; [reflexivity|].
  simpl. destruct (negb (String.eqb x uri)) eqn:E; simpl; [|exact IH].
  now rewrite E, IH.
Qed.

End SubscriptionsOverTime.

(** C1, as the poll has it.  For a subscribed URI whose fetch resolves
    with a value in a tick: a notification is only ever emitted when a
    fingerprint was stored and differs from the new one; provided the
    notification send, where one is made, does not itself fail, the
    notification is emitted exactly in that case and the stored
    fingerprint is overwritten with the new value, changed or not; when
    the send fails nothing is emitted and the old fingerprint stays.  With
    no fingerprint stored before the tick nothing is emitted and the
    fingerprint is stored, which is the case at the first fetch with a
    value after subscribing a URI that was not subscribed then.  A fetch
    that resolves with [undefined] is skipped like one that fails. *)
Theorem poll_notifies_on_changed_fingerprint
    (sha256_hex : string -> string)
    (m : Resources.SubscriptionManager) (w : Resources.World)
    (uri : string) (parsed : Resources.ParsedUri) (json : string) :
  (forall j, sha256_hex j <> EmptyString) ->
  Resources.reachable sha256_hex m ->
  uri ∈ Resources.subscriptions m ->
  Resources.parseResourceUri uri = Some parsed ->
  Resources.fetchResourceData w parsed = Ok (Resources.Value json) ->
  let after := fst (Resources.checkForChanges sha256_hex w m) in
  let sent := snd (Resources.checkForChanges sha256_hex w m) in
  let changed := exists old, Resources.lastHashes m !! uri = Some old
                             /\ old <> sha256_hex json in
  (uri ∈ sent -> changed)
  /\ ((changed -> Resources.sendResourceUpdated w uri = true) ->
        (uri ∈ sent <-> changed)
        /\ Resources.lastHashes after !! uri = Some (sha256_hex json))
  /\ (changed -> Resources.sendResourceUpdated w uri = false ->
        (uri ∉ sent)
        /\ Resources.lastHashes after !! uri = Resources.lastHashes m !! uri)
  /\ (Resources.lastHashes m !! uri = None ->
        (uri ∉ sent)
        /\ Resources.lastHashes after !! uri = Some (sha256_hex json))
  /\ (forall m0 es,
        Resources.reachable sha256_hex m0 ->
        (uri ∉ Resources.subscriptions m0) ->
        Forall (fun e => forall w' json', e = Resources.Tick w' ->
                  Resources.fetchResourceData w' parsed
                  <> Ok (Resources.Value json')) es ->
        m = fst (Resources.run sha256_hex (Resources.subscribe uri m0) es) ->
        (uri ∉ sent)
        /\ Resources.lastHashes after !! uri = Some (sha256_hex json))
  /\ (forall w',
        Resources.fetchResourceData w' parsed = Ok Resources.Undefined ->
        (uri ∉ snd (Resources.checkForChanges sha256_hex w' m))
        /\ Resources.lastHashes
             (fst (Resources.checkForChanges sha256_hex w' m)) !! uri
           = Resources.lastHashes m !! uri).
Proof.
  intros Hdigest Hreach Hsub Hparse Hfetch after sent changed.
  pose proof (reachable_consistent sha256_hex m Hreach) as Hc.
  destruct (uriOutcome_fetched sha256_hex Hdigest w m uri parsed json
              Hc Hparse Hfetch) as (Hsnd & Hfst & Hkeep).
  fold changed in Hsnd, Hfst, Hkeep. destruct Hc as [Hnd _].
  assert (Hentry : forall w0,
            Resources.lastHashes
              (fst (Resources.checkForChanges sha256_hex w0 m)) !! uri
            = fst (Resources.uriOutcome sha256_hex w0
                     (Resources.lastHashes m !! uri) uri)).
  { intros w0. rewrite checkForChanges_entry by exact Hnd.
    now rewrite bool_decide_eq_true_2. }
  assert (Hsent : uri ∈ sent <->
                  changed /\ Resources.sendResourceUpdated w uri = true).
  { subst sent. rewrite checkForChanges_sent by exact Hnd. tauto. }
  assert (Hfirst : Resources.lastHashes m !! uri = None ->
            (uri ∉ sent)
            /\ Resources.lastHashes after !! uri = Some (sha256_hex json)).
  { intros Hnone.
    assert (Hnot : ~ changed) by (intros [old [H _]]; congruence).
    split; [rewrite Hsent; tauto|].
    subst after. rewrite Hentry. apply Hfst. now right. }
  split; [|split; [|split; [|split; [|split]]]].
  - rewrite Hsent. tauto.
  - intros Hsend. split; [rewrite Hsent; tauto|].
    subst after. rewrite Hentry. apply Hfst.
    destruct (Resources.sendResourceUpdated w uri); [now left | right].
    intros Hch. specialize (Hsend Hch). discriminate.
  - intros Hch Hsend. split.
    + rewrite Hsent. intros [_ H]. congruence.
    + subst after. rewrite Hentry. now apply Hkeep.
  - exact Hfirst.
  - intros m0 es Hreach0 Hout Hes Hm. apply Hfirst. rewrite Hm.
    apply (unpolled_run sha256_hex es _ uri parsed).
    + apply consistent_subscribe.
      now apply (reachable_consistent sha256_hex).
    + exact Hparse.
    + destruct (subscribe_fields uri m0) as (_ & -> & _).
      now apply (untracked sha256_hex).
    + exact Hes.
  - intros w' Hundef.
    assert (Hout : Resources.uriOutcome sha256_hex w'
                     (Resources.lastHashes m !! uri) uri
                   = (Resources.lastHashes m !! uri, false)).
    { unfold Resources.uriOutcome. now rewrite Hparse, Hundef. }
    split.
    + rewrite checkForChanges_sent by exact Hnd. rewrite Hout.
      intros [_ H]. discriminate.
    + now rewrite Hentry, Hout.
Qed.

Lemma poll_notifies_on_changed_fingerprint_witness :
  let w := Samples.pollWorld (Ok "[1]") true in
  Resources.lastHashes Samples.polledOnce !! Samples.tasksUri
    = Some (Samples.digest "[]")
  /\ Samples.tasksUri
       ∈ snd (Resources.checkForChanges Samples.digest w Samples.polledOnce)
  /\ Resources.lastHashes
       (fst (Resources.checkForChanges Samples.digest w Samples.polledOnce))
       !! Samples.tasksUri = Some (Samples.digest "[1]").
Proof.
  intros w.
  assert (Hold : Resources.lastHashes Samples.polledOnce !! Samples.tasksUri
                 = Some (Samples.digest "[]")) by (vm_compute; reflexivity).
  destruct (poll_notifies_on_changed_fingerprint Samples.digest
              Samples.polledOnce w Samples.tasksUri Resources.PTasks "[1]"
              sample_digest_nonempty polledOnce_reachable
              polledOnce_subscribed eq_refl eq_refl) as (_ & Hsend & _).
  destruct (Hsend (fun _ => eq_refl)) as [Hiff Hnew].
  split; [exact Hold|]. split; [|exact Hnew].
  apply Hiff. exists (Samples.digest "[]"). split; [exact Hold|].
  vm_compute. discriminate.
Defined.

(** Subscribing a URI that is subscribed already keeps its fingerprint,
    so the tick after such a subscribe does notify a change. *)
Example resubscribe_keeps_fingerprint :
  snd (Resources.run Samples.digest Resources.create
         [Resources.Subscribe Samples.tasksUri;
          Resources.Tick (Samples.pollWorld (Ok "[]") true);
          Resources.Subscribe Samples.tasksUri;
          Resources.Tick (Samples.pollWorld (Ok "[1]") true)])
  = [Samples.tasksUri].
Proof. vm_compute. reflexivity. Qed.

(** The task list changes from empty to one task and the fetch succeeds,
    but the transport rejects the notification: the rejection is caught
    with the fetch errors, nothing is emitted, and the stored fingerprint
    is still the old one after the tick. *)
Lemma poll_keeps_fingerprint_when_send_fails :
  let w := Samples.pollWorld (Ok "[1]") false in
  let m := Samples.polledOnce in
  let tick := Resources.checkForChanges Samples.digest w m in
  Resources.reachable Samples.digest m
  /\ Samples.tasksUri ∈ Resources.subscriptions m
  /\ Resources.parseResourceUri Samples.tasksUri = Some Resources.PTasks
  /\ Resources.fetchResourceData w Resources.PTasks = Ok (Resources.Value "[1]")
  /\ Resources.lastHashes m !! Samples.tasksUri = Some (Samples.digest "[]")
  /\ Samples.digest "[]" <> Samples.digest "[1]"
  /\ snd tick = []
  /\ Resources.lastHashes (fst tick) !! Samples.tasksUri
     = Some (Samples.digest "[]")
  /\ Resources.lastHashes (fst tick) !! Samples.tasksUri
     <> Some (Samples.digest "[1]").
Proof.
  intros w m tick.
  split; [exact polledOnce_reachable|]. split; [exact polledOnce_subscribed|].
  repeat split; try (vm_compute; reflexivity); vm_compute; discriminate.
Qed.

(** X3: a fingerprint is only ever held for a subscribed URI: in every
    reachable state each key of the hash table is in the subscription
    set. *)
Theorem fingerprints_only_for_subscribed
    (sha256_hex : string -> string) (m : Resources.SubscriptionManager)
    (uri h : string) :
  Resources.reachable sha256_hex m ->
  Resources.lastHashes m !! uri = Some h ->
  uri ∈ Resources.subscriptions m.
Proof.
  intros [es <-]. apply tracked_run.
  - apply consistent_create.
  - intros u h' H. cbn in H. now rewrite lookup_empty in H.
Qed.

Lemma fingerprints_only_for_subscribed_witness :
  Resources.lastHashes Samples.polledOnce !! Samples.tasksUri
    = Some (Samples.digest "[]")
  /\ Samples.tasksUri ∈ Resources.subscriptions Samples.polledOnce.
Proof.
  assert (H : Resources.lastHashes Samples.polledOnce !! Samples.tasksUri
              = Some (Samples.digest "[]")) by (vm_compute; reflexivity).
  split; [exact H|].
  exact (fingerprints_only_for_subscribed Samples.digest Samples.polledOnce
           Samples.tasksUri _ polledOnce_reachable H).
Defined.

(** X4: one tick notifies each URI at most once, only subscribed URIs,
    and in the order in which they were subscribed. *)
Theorem poll_notifies_each_uri_once
    (sha256_hex : string -> string) (m : Resources.SubscriptionManager)
    (w : Resources.World) :
  Resources.reachable sha256_hex m ->
  NoDup (snd (Resources.checkForChanges sha256_hex w m))
  /\ sublist (snd (Resources.checkForChanges sha256_hex w m))
       (Resources.subscriptions m).
Proof.
  intros Hreach.
  destruct (reachable_consistent sha256_hex m Hreach) as [Hnd _].
  rewrite (checkForChanges_sent_eq sha256_hex w m Hnd).
  split; [|apply filter_sublist].
  eapply sublist_NoDup; [exact Hnd | apply filter_sublist].
Qed.

Lemma poll_notifies_each_uri_once_witness :
  let w := Samples.pollWorld (Ok "[1]") true in
  snd (Resources.checkForChanges Samples.digest w Samples.polledOnce)
  = [Samples.tasksUri]
  /\ NoDup (snd (Resources.checkForChanges Samples.digest w Samples.polledOnce)).
Proof.
  intros w. split; [vm_compute; reflexivity|].
  exact (proj1 (poll_notifies_each_uri_once Samples.digest Samples.polledOnce w
                  polledOnce_reachable)).
Defined.

(** X5: while every successful fetch of a URI yields content with one and
    the same fingerprint, no notification for that URI is emitted, over
    any sequence of subscribes, unsubscribes, stops and ticks, starting
    from a state that holds no fingerprint or that very fingerprint for
    it. *)
Theorem unchanged_content_never_notifies
    (sha256_hex : string -> string) (m : Resources.SubscriptionManager)
    (uri h : string) (es : list Resources.Event) :
  Resources.reachable sha256_hex m ->
  Resources.lastHashes m !! uri = None
  \/ Resources.lastHashes m !! uri = Some h ->
  Forall (fun e => forall w parsed json, e = Resources.Tick w ->
            Resources.parseResourceUri uri = Some parsed ->
            Resources.fetchResourceData w parsed = Ok (Resources.Value json) ->
            sha256_hex json = h) es ->
  uri ∉ snd (Resources.run sha256_hex m es).
Proof.
  intros Hreach Hentry Hes.
  apply (steady_run sha256_hex es m uri h);
    [now apply reachable_consistent | exact Hentry | exact Hes].
Qed.

Lemma unchanged_content_never_notifies_witness :
  let w := Samples.pollWorld (Ok "[]") true in
  let es := [Resources.Tick w; Resources.Tick w; Resources.Tick w] in
  Resources.lastHashes Samples.polledOnce !! Samples.tasksUri
    = Some (Samples.digest "[]")
  /\ (Samples.tasksUri ∉ snd (Resources.run Samples.digest Samples.polledOnce es)).
Proof.
  intros w es.
  assert (H : Resources.lastHashes Samples.polledOnce !! Samples.tasksUri
              = Some (Samples.digest "[]")) by (vm_compute; reflexivity).
  split; [exact H|].
  apply (unchanged_content_never_notifies Samples.digest Samples.polledOnce
           Samples.tasksUri (Samples.digest "[]") es polledOnce_reachable
           (or_intror H)).
  repeat (apply Forall_cons; split;
    [intros w' parsed json E Hp Hf; inversion E; subst w';
     inversion Hp; subst parsed; inversion Hf; reflexivity|]).
  apply Forall_nil_2.
Defined.

(** X6: a freshly subscribed URI whose content at the second tick has
    another fingerprint than at the first is notified exactly once, at the
    second tick and not at the first, provided that notification is
    delivered; the new fingerprint is stored. *)
Theorem changed_content_notifies_once
    (sha256_hex : string -> string) (m : Resources.SubscriptionManager)
    (uri : string) (parsed : Resources.ParsedUri)
    (w1 w2 : Resources.World) (json1 json2 : string) :
  (forall j, sha256_hex j <> EmptyString) ->
  Resources.reachable sha256_hex m ->
  Resources.pollTimer m = true ->
  uri ∈ Resources.subscriptions m ->
  Resources.lastHashes m !! uri = None ->
  Resources.parseResourceUri uri = Some parsed ->
  Resources.fetchResourceData w1 parsed = Ok (Resources.Value json1) ->
  Resources.fetchResourceData w2 parsed = Ok (Resources.Value json2) ->
  sha256_hex json1 <> sha256_hex json2 ->
  Resources.sendResourceUpdated w2 uri = true ->
  let first := Resources.step sha256_hex m (Resources.Tick w1) in
  let second := Resources.step sha256_hex (fst first) (Resources.Tick w2) in
  (uri ∉ snd first)
  /\ uri ∈ snd second
  /\ NoDup (snd second)
  /\ Resources.lastHashes (fst second) !! uri = Some (sha256_hex json2).
Proof.
  intros Hdigest Hreach Htimer Hsub Hnone Hparse Hf1 Hf2 Hne Hsend first second.
  pose proof (reachable_consistent sha256_hex m Hreach) as Hc.
  pose proof (consistent_checkForChanges sha256_hex w1 m Hc) as Hc1.
  destruct (checkForChanges_subscriptions sha256_hex w1 m) as [Hs1 Ht1].
  assert (Hfirst : first = Resources.checkForChanges sha256_hex w1 m)
    by (subst first; now rewrite step_tick, Htimer).
  assert (Hsecond : second = Resources.checkForChanges sha256_hex w2 (fst first))
    by (subst second; rewrite step_tick, Hfirst, Ht1, Htimer; reflexivity).
  destruct (uriOutcome_fetched sha256_hex Hdigest w1 m uri parsed json1
              Hc Hparse Hf1) as (Hsnd1 & Hfst1 & _).
  assert (Hnot : ~ exists old, Resources.lastHashes m !! uri = Some old
                               /\ old <> sha256_hex json1)
    by (intros [old [H _]]; congruence).
  assert (Hentry1 : Resources.lastHashes (fst first) !! uri
                    = Some (sha256_hex json1)).
  { rewrite Hfirst, checkForChanges_entry by apply Hc.
    rewrite bool_decide_eq_true_2 by exact Hsub. apply Hfst1. now right. }
  rewrite Hfirst in Hentry1, Hsecond.
  destruct (uriOutcome_fetched sha256_hex Hdigest w2 _ uri parsed json2
              Hc1 Hparse Hf2) as (Hsnd2 & Hfst2 & _).
  rewrite Hentry1 in Hsnd2, Hfst2.
  split; [|split; [|split]].
  - rewrite Hfirst, checkForChanges_sent by apply Hc.
    rewrite Hsnd1. tauto.
  - rewrite Hsecond, checkForChanges_sent by apply Hc1.
    rewrite Hs1, Hentry1. split; [exact Hsub|]. apply Hsnd2.
    split; [|exact Hsend]. now exists (sha256_hex json1).
  - rewrite Hsecond, checkForChanges_sent_eq by apply Hc1.
    eapply sublist_NoDup; [apply Hc1 | apply filter_sublist].
  - rewrite Hsecond, checkForChanges_entry by apply Hc1.
    rewrite Hs1, bool_decide_eq_true_2 by exact Hsub.
    rewrite Hentry1. apply Hfst2. now left.
Qed.

Lemma changed_content_notifies_once_witness :
  let m := Resources.subscribe Samples.tasksUri Resources.create in
  let w1 := Samples.pollWorld (Ok "[]") true in
  let w2 := Samples.pollWorld (Ok "[1]") true in
  let first := Resources.step Samples.digest m (Resources.Tick w1) in
  let second := Resources.step Samples.digest (fst first) (Resources.Tick w2) in
  Samples.digest "[]" <> Samples.digest "[1]"
  /\ snd first = []
  /\ Samples.tasksUri ∈ snd second.
Proof.
  intros m w1 w2 first second.
  assert (Hne : Samples.digest "[]" <> Samples.digest "[1]")
    by (vm_compute; discriminate).
  assert (Hreach : Resources.reachable Samples.digest m)
    by (now exists [Resources.Subscribe Samples.tasksUri]).
  assert (Hsub : Samples.tasksUri ∈ Resources.subscriptions m)
    by apply list_elem_of_here.
  destruct (changed_content_notifies_once Samples.digest m Samples.tasksUri
              Resources.PTasks w1 w2 "[]" "[1]" sample_digest_nonempty Hreach
              eq_refl Hsub eq_refl eq_refl eq_refl eq_refl Hne eq_refl)
    as (_ & Hin & _).
  split; [exact Hne|]. split; [vm_compute; reflexivity | exact Hin].
Defined.

Lemma manager_eq (a b : Resources.SubscriptionManager) :
  Resources.subscriptions a = Resources.subscriptions b ->
  Resources.lastHashes a = Resources.lastHashes b ->
  Resources.pollTimer a = Resources.pollTimer b ->
  a = b.
Proof. destruct a, b; simpl; now intros -> -> ->. Qed.

(** X7: the three methods are idempotent: subscribing an already
    subscribed URI, unsubscribing one that is not subscribed any more, and
    stopping a stopped timer each leave the manager exactly as it was
    after the first call. *)
Theorem subscription_methods_idempotent
    (m : Resources.SubscriptionManager) (uri : string) :
  Resources.subscribe uri (Resources.subscribe uri m)
  = Resources.subscribe uri m
  /\ Resources.unsubscribe uri (Resources.unsubscribe uri m)
     = Resources.unsubscribe uri m
  /\ Resources.stopPolling (Resources.stopPolling m)
     = Resources.stopPolling m.
Proof.
  split; [|split]; apply manager_eq.
  - destruct (subscribe_fields uri (Resources.subscribe uri m)) as (-> & _ & _).
    destruct (subscribe_fields uri m) as (-> & _ & _). apply setAdd_idem.
  - destruct (subscribe_fields uri (Resources.subscribe uri m)) as (_ & -> & _).
    reflexivity.
  - destruct (subscribe_fields uri (Resources.subscribe uri m)) as (_ & _ & ->).
    now destruct (subscribe_fields uri m) as (_ & _ & ->).
  - destruct (unsubscribe_fields uri (Resources.unsubscribe uri m)) as (-> & _ & _).
    destruct (unsubscribe_fields uri m) as (-> & _ & _). apply setDelete_idem.
  - destruct (unsubscribe_fields uri (Resources.unsubscribe uri m)) as (_ & -> & _).
    destruct (unsubscribe_fields uri m) as (_ & -> & _). apply delete_delete_eq.
  - destruct (unsubscribe_fields uri (Resources.unsubscribe uri m)) as (_ & _ & ->).
    destruct (unsubscribe_fields uri m) as (-> & _ & ->).
    rewrite setDelete_idem.
    now destruct (Resources.setDelete uri (Resources.subscriptions m)).
  - destruct (stopPolling_fields (Resources.stopPolling m)) as (-> & _ & _).
    reflexivity.
  - destruct (stopPolling_fields (Resources.stopPolling m)) as (_ & -> & _).
    reflexivity.
  - destruct (stopPolling_fields (Resources.stopPolling m)) as (_ & _ & ->).
    now destruct (stopPolling_fields m) as (_ & _ & ->).
Qed.

(** X8: subscriptions are not counted per caller: however often a URI was
    subscribed, one unsubscribe removes it and its fingerprint; and
    subscribing or unsubscribing one URI leaves the membership and the
    fingerprint of every other URI as they were. *)
Theorem subscriptions_are_a_plain_set
    (m : Resources.SubscriptionManager) (uri : string) (n : nat) :
  let often := Nat.iter n (Resources.subscribe uri) m in
  (uri ∉ Resources.subscriptions (Resources.unsubscribe uri often))
  /\ Resources.lastHashes (Resources.unsubscribe uri often) !! uri = None
  /\ forall v, v <> uri ->
       (v ∈ Resources.subscriptions (Resources.subscribe uri m)
          <-> v ∈ Resources.subscriptions m)
       /\ (v ∈ Resources.subscriptions (Resources.unsubscribe uri m)
          <-> v ∈ Resources.subscriptions m)
       /\ Resources.lastHashes (Resources.subscribe uri m) !! v
          = Resources.lastHashes m !! v
       /\ Resources.lastHashes (Resources.unsubscribe uri m) !! v
          = Resources.lastHashes m !! v.
Proof.
  intros often.
  destruct (unsubscribe_fields uri often) as (-> & -> & _).
  split; [rewrite setDelete_elem; tauto|]. split; [apply lookup_delete_eq|].
  intros v Hv.
  destruct (subscribe_fields uri m) as (-> & -> & _).
  destruct (unsubscribe_fields uri m) as (-> & -> & _).
  rewrite setAdd_elem, setDelete_elem, lookup_delete_ne by congruence.
  tauto.
Qed.

(** ** The tracker loop, iteration by iteration *)

Section TrackerLoop.
Import Types Tasks TrackerCalls.

Variables (ws : nat -> World) (pid sid : string).

Lemma pollFrom_continue r i reported calls :
  pollIteration (ws i) pid sid = (Continue, reported, calls) ->
  fst (pollFrom ws pid sid (S r) i) = fst (pollFrom ws pid sid r (S i)).
Proof.
  intros H. simpl. rewrite H.
  now destruct (pollFrom ws pid sid r (S i)).
Qed.

(** The first iteration that returns decides the record. *)
Lemma pollFrom_first_return k : forall r i u,
  (forall j, j < k ->
     fst (fst (pollIteration (ws (i + j)) pid sid)) = Continue) ->
  fst (fst (pollIteration (ws (i + k)) pid sid)) = Return u ->
  fst (pollFrom ws pid sid (k + S r) i) = u.
Proof.
  induction k as [|k IH]; intros r i u Hbefore Hk.
  - rewrite Nat.add_0_r in Hk. simpl.
    destruct (pollIteration (ws i) pid sid) as [[it rep] calls].
    simpl in Hk. now subst it.
  - pose proof (Hbefore 0 ltac:(lia)) as H0. rewrite Nat.add_0_r in H0.
    destruct (pollIteration (ws i) pid sid) as [[it rep] calls] eqn:E.
    simpl in H0. subst it.
    change (S k + S r) with (S (k + S r)).
    rewrite (pollFrom_continue _ _ _ _ E). apply IH.
    + intros j Hj. replace (S i + j) with (i + S j) by lia.
      apply Hbefore. lia.
    + now replace (S i + k) with (i + S k) by lia.
Qed.

(** When every iteration goes on, the loop times out. *)
Lemma pollFrom_all_continue r : forall i,
  (forall j, j < r ->
     fst (fst (pollIteration (ws (i + j)) pid sid)) = Continue) ->
  fst (pollFrom ws pid sid r i)
  = StatusUpdate failed "Timed out after 10 minutes".
Proof.
  induction r as [|r IH]; intros i Hall; [reflexivity|].
  pose proof (Hall 0 ltac:(lia)) as H0. rewrite Nat.add_0_r in H0.
  destruct (pollIteration (ws i) pid sid) as [[it rep] calls] eqn:E.
  simpl in H0. subst it. rewrite (pollFrom_continue _ _ _ _ E). apply IH.
  intros j Hj. replace (S i + j) with (i + S j) by lia. apply Hall. lia.
Qed.

Lemma pollIteration_calls_length w :
  List.length (snd (pollIteration w pid sid)) <= 2.
Proof.
  unfold pollIteration. destruct (aborted w); [simpl; lia|].
  unfold fetchProcess. destruct (getExecutionProcess w pid); simpl; [lia|].
  destruct (listExecutionProcesses w sid) as [ps|]; [|simpl; lia].
  destruct (findProcess pid ps); simpl; lia.
Qed.

Lemma pollIteration_calls_only w c :
  c ∈ snd (pollIteration w pid sid) ->
  c = CallGetProcess pid \/ c = CallListProcesses sid.
Proof.
  unfold pollIteration. destruct (aborted w);
    [intros H; now apply elem_of_nil in H|].
  unfold fetchProcess.
  destruct (getExecutionProcess w pid); simpl.
  - intros H. apply list_elem_of_singleton in H. now left.
  - destruct (listExecutionProcesses w sid) as [ps|];
      [destruct (findProcess pid ps)|]; simpl; intros H;
      apply elem_of_cons in H as [->|H]; try (now left);
      apply list_elem_of_singleton in H; now right.
Qed.

Lemma callsFrom_length r : forall i,
  List.length (callsFrom ws pid sid r i) <= 2 * r.
Proof.
  induction r as [|r IH]; intros i; simpl; [lia|].
  pose proof (pollIteration_calls_length (ws i)) as Hlen.
  destruct (pollIteration (ws i) pid sid) as [[it rep] calls].
  simpl in Hlen. specialize (IH (S i)).
  destruct it; [lia|]. rewrite length_app. lia.
Qed.

Lemma callsFrom_only r : forall i c,
  c ∈ callsFrom ws pid sid r i ->
  c = CallGetProcess pid \/ c = CallListProcesses sid.
Proof.
  induction r as [|r IH]; intros i c; simpl;
    [intros H; now apply elem_of_nil in H|].
  pose proof (pollIteration_calls_only (ws i) c) as Hone.
  destruct (pollIteration (ws i) pid sid) as [[it rep] calls].
  simpl in Hone. destruct it; [exact Hone|].
  rewrite elem_of_app. intros [H|H]; [now apply Hone | now apply (IH (S i))].
Qed.

Lemma callsFrom_continue r i reported calls :
  pollIteration (ws i) pid sid = (Continue, reported, calls) ->
  callsFrom ws pid sid (S r) i = calls ++ callsFrom ws pid sid r (S i).
Proof. intros H. simpl. now rewrite H. Qed.

(** Up to the first returning iteration [k] at most two calls are made
    per iteration, and none after it. *)
Lemma callsFrom_first_return k : forall r i u,
  (forall j, j < k ->
     fst (fst (pollIteration (ws (i + j)) pid sid)) = Continue) ->
  fst (fst (pollIteration (ws (i + k)) pid sid)) = Return u ->
  List.length (callsFrom ws pid sid (k + S r) i)
  <= 2 * k + List.length (snd (pollIteration (ws (i + k)) pid sid)).
Proof.
  induction k as [|k IH]; intros r i u Hbefore Hk.
  - rewrite Nat.add_0_r in *. simpl.
    destruct (pollIteration (ws i) pid sid) as [[it rep] calls].
    simpl in *. subst it. lia.
  - pose proof (Hbefore 0 ltac:(lia)) as H0. rewrite Nat.add_0_r in H0.
    pose proof (pollIteration_calls_length (ws i)) as Hlen.
    destruct (pollIteration (ws i) pid sid) as [[it rep] calls] eqn:E.
    simpl in H0, Hlen. subst it.
    change (S k + S r) with (S (k + S r)).
    rewrite (callsFrom_continue _ _ _ _ E), length_app.
    replace (i + S k) with (S i + k) by lia.
    assert (Hrec : List.length (callsFrom ws pid sid (k + S r) (S i))
                   <= 2 * k + List.length (snd (pollIteration (ws (S i + k)) pid sid))).
    { apply (IH r (S i) u).
      - intros j Hj. replace (S i + j) with (i + S j) by lia.
        apply Hbefore. lia.
      - now replace (S i + k) with (i + S k) by lia. }
    lia.
Qed.

End TrackerLoop.

(** X9: the first terminal status the Gateway reports decides the record.
    If every earlier iteration went on and iteration [k] of the 120, not
    aborted, obtains a process (directly or through the fallback) whose
    status is completed, failed or killed, the record is stored as
    completed or failed with the process's exit code, or set to cancelled
    with the reason Execution killed. *)
Theorem tracker_first_terminal_status
    (ws : nat -> Tasks.World) (pid sid : string) (k : nat)
    (process : Types.ExecutionProcess) :
  k < Tasks.MAX_POLL_ITERATIONS ->
  (forall j, j < k ->
     fst (fst (Tasks.pollIteration (ws j) pid sid)) = Tasks.Continue) ->
  Tasks.aborted (ws k) = false ->
  fst (Tasks.fetchProcess (ws k) pid sid) = Tasks.Found process ->
  let last := fst (Tasks.pollExecutionProcess ws pid sid) in
  (Types.process_status process = "completed" ->
     last = Tasks.StoredResult Tasks.completed "Execution Completed"
              (Types.exit_code process))
  /\ (Types.process_status process = "failed" ->
     last = Tasks.StoredResult Tasks.failed "Execution Failed"
              (Types.exit_code process))
  /\ (Types.process_status process = "killed" ->
     last = Tasks.StatusUpdate Tasks.cancelled "Execution killed").
Proof.
  intros Hk Hbefore Hgo Hfound last. subst last.
  unfold Tasks.pollExecutionProcess, Tasks.MAX_POLL_ITERATIONS in *.
  assert (Hit : fst (fst (Tasks.pollIteration (ws k) pid sid))
                = Tasks.withProcess process).
  { unfold Tasks.pollIteration. rewrite Hgo.
    destruct (Tasks.fetchProcess (ws k) pid sid) as [f calls].
    simpl in Hfound. now subst f. }
  unfold Tasks.withProcess in Hit.
  replace 120 with (k + S (119 - k)) by lia.
  repeat split; intros Hs; rewrite Hs in Hit;
    apply pollFrom_first_return; simpl; assumption.
Qed.

Lemma tracker_first_terminal_status_witness :
  let done := {| Types.process_id := "e1"; Types.process_session := "5e55";
                 Types.process_status := "completed";
                 Types.exit_code := Some 0%Z |} in
  let ws := fun i => if Nat.ltb i 2 then Samples.runningWorld
                     else Samples.fallbackWorld (Ok [done]) in
  2 < Tasks.MAX_POLL_ITERATIONS
  /\ fst (Tasks.fetchProcess (ws 2) "e1" "5e55") = Tasks.Found done
  /\ fst (Tasks.pollExecutionProcess ws "e1" "5e55")
     = Tasks.StoredResult Tasks.completed "Execution Completed" (Some 0%Z).
Proof.
  intros done ws.
  assert (Hk : 2 < Tasks.MAX_POLL_ITERATIONS)
    by (unfold Tasks.MAX_POLL_ITERATIONS; lia).
  assert (Hbefore : forall j, j < 2 ->
            fst (fst (Tasks.pollIteration (ws j) "e1" "5e55")) = Tasks.Continue).
  { intros j Hj. destruct j as [|[|j]]; [reflexivity | reflexivity | lia]. }
  destruct (tracker_first_terminal_status ws "e1" "5e55" 2 done Hk Hbefore
              eq_refl eq_refl) as (Hdone & _).
  split; [exact Hk|]. split; [reflexivity | exact (Hdone eq_refl)].
Defined.

(** X10: cancellation is looked at before the Gateway.  If the abort
    signal is set at iteration [k] and every earlier iteration went on, the
    record is set to cancelled with the reason Cancelled by client whatever
    the Gateway would have answered, iteration [k] makes no Gateway call,
    and the whole run makes at most two calls for each earlier
    iteration. *)
Theorem tracker_cancellation
    (ws : nat -> Tasks.World) (pid sid : string) (k : nat) :
  k < Tasks.MAX_POLL_ITERATIONS ->
  (forall j, j < k ->
     fst (fst (Tasks.pollIteration (ws j) pid sid)) = Tasks.Continue) ->
  Tasks.aborted (ws k) = true ->
  fst (Tasks.pollExecutionProcess ws pid sid)
  = Tasks.StatusUpdate Tasks.cancelled "Cancelled by client"
  /\ snd (Tasks.pollIteration (ws k) pid sid) = []
  /\ List.length (TrackerCalls.pollCalls ws pid sid) <= 2 * k.
Proof.
  intros Hk Hbefore Habort.
  unfold Tasks.pollExecutionProcess, TrackerCalls.pollCalls,
    Tasks.MAX_POLL_ITERATIONS in *.
  assert (Hit : Tasks.pollIteration (ws k) pid sid
                = (Tasks.Return (Tasks.StatusUpdate Tasks.cancelled
                                   "Cancelled by client"), None, []))
    by (unfold Tasks.pollIteration; now rewrite Habort).
  replace 120 with (k + S (119 - k)) by lia.
  split; [|split].
  - apply pollFrom_first_return; simpl; [assumption | now rewrite Hit].
  - now rewrite Hit.
  - pose proof (callsFrom_first_return ws pid sid k (119 - k) 0
                  (Tasks.StatusUpdate Tasks.cancelled "Cancelled by client")
                  Hbefore) as H.
    simpl in H. rewrite Hit in H. simpl in H. specialize (H eq_refl). lia.
Qed.

Lemma tracker_cancellation_witness :
  let ws := fun i => if Nat.ltb i 3 then Samples.runningWorld
                     else {| Tasks.aborted := true;
                             Tasks.getExecutionProcess := fun _ => Ok Samples.process1;
                             Tasks.listExecutionProcesses := fun _ => Ok [] |} in
  3 < Tasks.MAX_POLL_ITERATIONS
  /\ fst (Tasks.pollExecutionProcess ws "e1" "5e55")
     = Tasks.StatusUpdate Tasks.cancelled "Cancelled by client"
  /\ List.length (TrackerCalls.pollCalls ws "e1" "5e55") <= 2 * 3.
Proof.
  intros ws.
  assert (Hk : 3 < Tasks.MAX_POLL_ITERATIONS)
    by (unfold Tasks.MAX_POLL_ITERATIONS; lia).
  assert (Hbefore : forall j, j < 3 ->
            fst (fst (Tasks.pollIteration (ws j) "e1" "5e55")) = Tasks.Continue).
  { intros j Hj. destruct j as [|[|[|j]]]; try reflexivity. lia. }
  destruct (tracker_cancellation ws "e1" "5e55" 3 Hk Hbefore eq_refl)
    as (Hlast & _ & Hcalls).
  split; [exact Hk|]. split; [exact Hlast | exact Hcalls].
Defined.

(** X11: whatever the Gateway and the caller do, one tracked message
    costs at most 240 Gateway calls, two for each of the 120 iterations,
    and every one of them is the fetch of the tracked process or the list
    of the tracked session. *)
Theorem tracker_call_budget (ws : nat -> Tasks.World) (pid sid : string) :
  List.length (TrackerCalls.pollCalls ws pid sid) <= 240
  /\ forall c, c ∈ TrackerCalls.pollCalls ws pid sid ->
       c = Tasks.CallGetProcess pid \/ c = Tasks.CallListProcesses sid.
Proof.
  split.
  - apply (callsFrom_length ws pid sid 120 0).
  - apply callsFrom_only.
Qed.

(** X12: an iteration ends the loop only on abort, on a process that is
    missing from the session's list, or on one of the three terminal
    words.  So when for the whole budget no abort is seen and each
    iteration either fails to reach the Gateway (both calls throw) or
    obtains a process whose status is none of completed, failed and
    killed (an unknown word counts as working), the record is marked
    failed with the timeout reason. *)
Theorem tracker_keeps_polling
    (ws : nat -> Tasks.World) (pid sid : string) :
  (forall j, j < Tasks.MAX_POLL_ITERATIONS ->
     Tasks.aborted (ws j) = false
     /\ ((exists m, fst (Tasks.fetchProcess (ws j) pid sid) = Tasks.FetchThrew m)
         \/ exists p, fst (Tasks.fetchProcess (ws j) pid sid) = Tasks.Found p
                      /\ (Types.process_status p ∉ TrackerCalls.terminalWords))) ->
  fst (Tasks.pollExecutionProcess ws pid sid)
  = Tasks.StatusUpdate Tasks.failed "Timed out after 10 minutes".
Proof.
  intros Hall. unfold Tasks.pollExecutionProcess.
  apply pollFrom_all_continue. intros j Hj. simpl.
  destruct (Hall j Hj) as [Hgo Hfetch].
  unfold Tasks.pollIteration. rewrite Hgo.
  destruct (Tasks.fetchProcess (ws j) pid sid) as [f calls]. simpl in Hfetch.
  destruct Hfetch as [[m ->]|(p & -> & Hword)]; [reflexivity|]. simpl.
  unfold Tasks.withProcess, Tasks.mapStatus, TrackerCalls.terminalWords in *.
  destruct (String.eqb_spec (Types.process_status p) "running"); [reflexivity|].
  destruct (String.eqb_spec (Types.process_status p) "completed") as [E|_];
    [exfalso; apply Hword; rewrite E; apply list_elem_of_here|].
  destruct (String.eqb_spec (Types.process_status p) "failed") as [E|_];
    [exfalso; apply Hword; rewrite E;
     apply list_elem_of_further, list_elem_of_here|].
  destruct (String.eqb_spec (Types.process_status p) "killed") as [E|_];
    [exfalso; apply Hword; rewrite E;
     do 2 apply list_elem_of_further; apply list_elem_of_here|].
  reflexivity.
Qed.

Lemma tracker_keeps_polling_witness :
  let ws := fun _ : nat => Samples.fallbackWorld (Throws "API error: down") in
  fst (Tasks.fetchProcess (ws 0) "e1" "5e55") = Tasks.FetchThrew "API error: down"
  /\ fst (Tasks.pollExecutionProcess ws "e1" "5e55")
     = Tasks.StatusUpdate Tasks.failed "Timed out after 10 minutes".
Proof.
  intros ws. split; [reflexivity|].
  apply (tracker_keeps_polling ws "e1" "5e55").
  intros j _. split; [reflexivity|]. left. now exists "API error: down".
Defined.

(** ** The [send_message] handler: which calls it makes *)

Lemma buildExecutorProfile_executor e v :
  Types.executor (VibeClient.buildExecutorProfile e v)
  = VibeClient.normalizeExecutor e.
Proof.
  unfold VibeClient.buildExecutorProfile. now destruct (JsString.truthyOpt v).
Qed.

(** X13: the handler talks to the Gateway about the one session it was
    given, in a fixed order.  A follow-up is only sent after the session
    was fetched, with an executor in normal form; the queue is only used
    after that follow-up failed, with [auto_queue] not false, and the
    queued message carries the same prompt and executor profile as the
    follow-up that failed. *)
Theorem send_message_call_protocol
    (g : Tools.Gateway) (a : Tools.SendMessageArgs) :
  let calls := snd (Tools.sendMessage g a) in
  let sid := Tools.arg_session_id a in
  (exists rest, calls = Tools.CallGetSession sid :: rest)
  /\ (forall s f, Tools.CallSendFollowUp s f ∈ calls ->
        s = sid
        /\ (exists session, Tools.getSession g sid = Ok session)
        /\ Types.prompt f = Tools.arg_prompt a
        /\ VibeClient.normalizeExecutor
             (Types.executor (Types.followup_profile f))
           = Types.executor (Types.followup_profile f))
  /\ (forall s q, Tools.CallQueueMessage s q ∈ calls ->
        s = sid
        /\ Tools.auto_queue a <> Some false
        /\ exists f m,
             calls = [Tools.CallGetSession sid; Tools.CallSendFollowUp sid f;
                      Tools.CallQueueMessage sid q]
             /\ Tools.sendFollowUp g sid f = Throws m
             /\ Types.message q = Types.prompt f
             /\ Types.queue_profile q = Types.followup_profile f).
Proof.
  intros calls sid. subst calls. unfold Tools.sendMessage. fold sid.
  destruct (Tools.getSession g sid) as [session|m0] eqn:Es.
  2:{ split; [now eexists|]. split; intros s x H;
        apply list_elem_of_singleton in H; discriminate. }
  destruct (Tools.resolveExecutor a session) as [exec|] eqn:Er.
  2:{ split; [now eexists|]. split; intros s x H;
        apply list_elem_of_singleton in H; discriminate. }
  destruct (JsString.truthy exec) eqn:Et; simpl negb; cbv iota.
  2:{ split; [now eexists|]. split; intros s x H;
        apply list_elem_of_singleton in H; discriminate. }
  assert (Hnorm : VibeClient.normalizeExecutor
                    (Types.executor (Types.followup_profile
                                       (Tools.followUpRequest a exec)))
                  = Types.executor (Types.followup_profile
                                      (Tools.followUpRequest a exec))).
  { unfold Tools.followUpRequest. simpl.
    rewrite buildExecutorProfile_executor. apply normalizeExecutor_fixed. }
  destruct (Tools.sendFollowUp g sid (Tools.followUpRequest a exec))
    as [process|m] eqn:Ef.
  { split; [now eexists|]. split; intros s x H.
    - apply elem_of_cons in H as [H|H]; [discriminate|].
      apply list_elem_of_singleton in H. inversion H; subst.
      split; [reflexivity|]. split; [now exists session|]. now split.
    - apply elem_of_cons in H as [H|H]; [discriminate|].
      apply list_elem_of_singleton in H. discriminate. }
  destruct (Tools.shouldQueue (Tools.auto_queue a) (errorToString m)) eqn:Eq.
  - assert (Hauto : Tools.auto_queue a <> Some false)
      by (apply shouldQueue_spec in Eq; tauto).
    assert (Hcalls : snd (match Tools.queueMessage g sid (Tools.queueRequest a exec) with
                          | Ok _ =>
                              (Tools.MessageQueued (JsString.toUpperCase exec),
                               [Tools.CallGetSession sid;
                                Tools.CallSendFollowUp sid (Tools.followUpRequest a exec);
                                Tools.CallQueueMessage sid (Tools.queueRequest a exec)])
                          | Throws m' =>
                              (Tools.ToolError "SEND_FAILED" (errorToString m'),
                               [Tools.CallGetSession sid;
                                Tools.CallSendFollowUp sid (Tools.followUpRequest a exec);
                                Tools.CallQueueMessage sid (Tools.queueRequest a exec)])
                          end)
                     = [Tools.CallGetSession sid;
                        Tools.CallSendFollowUp sid (Tools.followUpRequest a exec);
                        Tools.CallQueueMessage sid (Tools.queueRequest a exec)])
      by now destruct (Tools.queueMessage g sid (Tools.queueRequest a exec)).
    rewrite Hcalls. split; [now eexists|]. split; intros s x H.
    + apply elem_of_cons in H as [H|H]; [discriminate|].
      apply elem_of_cons in H as [H|H].
      * inversion H; subst. split; [reflexivity|].
        split; [now exists session|]. now split.
      * apply list_elem_of_singleton in H. discriminate.
    + apply elem_of_cons in H as [H|H]; [discriminate|].
      apply elem_of_cons in H as [H|H]; [discriminate|].
      apply list_elem_of_singleton in H. inversion H; subst.
      split; [reflexivity|]. split; [exact Hauto|].
      exists (Tools.followUpRequest a exec), m. now repeat split.
  - split; [now eexists|]. split; intros s x H.
    + apply elem_of_cons in H as [H|H]; [discriminate|].
      apply list_elem_of_singleton in H. inversion H; subst.
      split; [reflexivity|]. split; [now exists session|]. now split.
    + apply elem_of_cons in H as [H|H]; [discriminate|].
      apply list_elem_of_singleton in H. discriminate.
Qed.

Lemma send_message_call_protocol_witness :
  let g := Samples.busyGateway true in
  let a := Samples.plainArgs None in
  let q := Tools.queueRequest a "claude-code" in
  Tools.CallQueueMessage "5e55" q ∈ snd (Tools.sendMessage g a)
  /\ Types.executor (Types.queue_profile q) = "CLAUDE_CODE"
  /\ Tools.auto_queue a <> Some false.
Proof.
  intros g a q.
  assert (H : Tools.CallQueueMessage "5e55" q ∈ snd (Tools.sendMessage g a))
    by (do 2 apply list_elem_of_further; apply list_elem_of_here).
  destruct (send_message_call_protocol g a) as (_ & _ & Hq).
  destruct (Hq _ _ H) as (_ & Hauto & _).
  split; [exact H|]. split; [reflexivity | exact Hauto].
Defined.



(** ** The [list_tasks] handler *)

Section ListTasksToolFacts.
Import Types ListTasksTool.

Lemma countOf_bump s k counts :
  countOf k (bump s counts)
  = if TaskStatus_eqb k s
    then Some (S (default 0 (countOf k counts)))
    else countOf k counts.
Proof.
  unfold countOf. induction counts as [|[k' n] rest IH]; simpl.
  - destruct (TaskStatus_eqb_eq s k) as [H1 H2].
    destruct (TaskStatus_eqb s k) eqn:E1, (TaskStatus_eqb k s) eqn:E2;
      try reflexivity.
    + specialize (H1 eq_refl). subst. destruct k; discriminate.
    + apply TaskStatus_eqb_eq in E2. subst. destruct s; discriminate.
  - destruct (TaskStatus_eqb k' s) eqn:E; simpl.
    + apply TaskStatus_eqb_eq in E. subst k'.
      destruct (TaskStatus_eqb s k) eqn:E1, (TaskStatus_eqb k s) eqn:E2;
        try reflexivity.
      * apply TaskStatus_eqb_eq in E1. subst. destruct k; discriminate.
      * apply TaskStatus_eqb_eq in E2. subst. destruct s; discriminate.
    + destruct (TaskStatus_eqb k' k) eqn:E1; [|exact IH].
      apply TaskStatus_eqb_eq in E1. subst k'.
      destruct (TaskStatus_eqb k s) eqn:E2; [congruence | reflexivity].
Qed.

Lemma bump_keys s counts :
  NoDup (counts.*1) -> NoDup ((bump s counts).*1).
Proof.
  intros Hnd.
  assert (Hkeys : forall k, k ∈ (bump s counts).*1 -> k = s \/ k ∈ counts.*1).
  { clear Hnd. induction counts as [|[k' n] rest IH]; simpl; intros k Hk.
    - apply list_elem_of_singleton in Hk. now left.
    - destruct (TaskStatus_eqb k' s); simpl in Hk; [now right|].
      apply elem_of_cons in Hk as [->|Hk]; [right; apply list_elem_of_here|].
      destruct (IH k Hk) as [->|H]; [now left|].
      right. now apply list_elem_of_further. }
  induction counts as [|[k' n] rest IH]; simpl.
  - apply NoDup_singleton.
  - simpl in Hnd, Hkeys. apply NoDup_cons in Hnd as [Hk' Hnd].
    destruct (TaskStatus_eqb k' s) eqn:E; simpl.
    + apply NoDup_cons. now split.
    + apply NoDup_cons. split; [|apply IH; [exact Hnd|]].
      * intros Hin.
        assert (Hin' : k' = s \/ k' ∈ rest.*1).
        { clear -Hin. induction rest as [|[k2 n2] rest IH]; simpl in Hin.
          - apply list_elem_of_singleton in Hin. now left.
          - destruct (TaskStatus_eqb k2 s); simpl in Hin; [now right|].
            apply elem_of_cons in Hin as [->|Hin];
              [right; apply list_elem_of_here|].
            destruct (IH Hin) as [->|H]; [now left|].
            right. now apply list_elem_of_further. }
        destruct Hin' as [->|Hin']; [|contradiction].
        destruct s; discriminate.
      * clear. induction rest as [|[k2 n2] rest IH]; simpl; intros k Hk.
        -- apply list_elem_of_singleton in Hk. now left.
        -- destruct (TaskStatus_eqb k2 s); simpl in Hk; [now right|].
           apply elem_of_cons in Hk as [->|Hk];
             [right; apply list_elem_of_here|].
           destruct (IH k Hk) as [->|H]; [now left|].
           right. now apply list_elem_of_further.
Qed.

Lemma list_sum_cons x l : list_sum (x :: l) = x + list_sum l.
Proof. reflexivity. Qed.

Lemma bump_total s counts :
  list_sum ((bump s counts).*2) = S (list_sum (counts.*2)).
Proof.
  induction counts as [|[k n] rest IH]; [reflexivity|].
  cbn [bump]. destruct (TaskStatus_eqb k s);
    rewrite !fmap_cons, !list_sum_cons; cbn [snd]; [lia|].
  rewrite IH. lia.
Qed.

(** The fold of [countByStatus] from any starting counts. *)
Lemma countFold tasks : forall counts,
  NoDup (counts.*1) ->
  let result := fold_left (fun c t => bump (status t) c) tasks counts in
  NoDup (result.*1)
  /\ list_sum (result.*2) = List.length tasks + list_sum (counts.*2)
  /\ forall k, default 0 (countOf k result)
               = List.length (filter (fun t => status t = k) tasks)
                 + default 0 (countOf k counts).
Proof.
  induction tasks as [|t tasks IH]; intros counts Hnd; simpl.
  - split; [exact Hnd|]. split; [reflexivity|]. intros k. reflexivity.
  - destruct (IH (bump (status t) counts) (bump_keys _ _ Hnd))
      as (H1 & H2 & H3).
    split; [exact H1|]. split; [rewrite H2, bump_total; lia|].
    intros k. rewrite H3, countOf_bump, filter_cons.
    destruct (TaskStatus_eqb k (status t)) eqn:E.
    + apply TaskStatus_eqb_eq in E. rewrite decide_True by congruence.
      simpl. lia.
    + rewrite decide_False; [reflexivity|].
      intros H. symmetry in H. apply TaskStatus_eqb_eq in H. congruence.
Qed.

Lemma countOf_positive tasks : forall counts,
  (forall k n, countOf k counts = Some n -> 0 < n) ->
  forall k n,
    countOf k (fold_left (fun c t => bump (status t) c) tasks counts) = Some n ->
    0 < n.
Proof.
  induction tasks as [|t tasks IH]; intros counts Hpos; simpl; [exact Hpos|].
  apply IH. intros k n. rewrite countOf_bump.
  destruct (TaskStatus_eqb k (status t)); [|apply Hpos].
  intros H. inversion H. lia.
Qed.

End ListTasksToolFacts.

(** X15: the [list_tasks] tool always bounds its answer.  With the limit
    omitted (or zero) the client returns the first 50 of the tasks that
    match the status filter, with a positive limit the first so many; a
    failure of the request is passed on. *)
Theorem list_tasks_tool_limit
    (tasks : list Types.TaskWithAttemptStatus)
    (st : option Types.TaskStatus) (limit : option Z) :
  (limit = None \/ limit = Some 0%Z ->
     ListTasksTool.fetchTasks (Ok tasks) st limit
     = Ok (take 50 (VibeClient.restrictedTo st tasks)))
  /\ (forall n, limit = Some n -> (0 < n)%Z ->
        ListTasksTool.fetchTasks (Ok tasks) st limit
        = Ok (take (Z.to_nat n) (VibeClient.restrictedTo st tasks)))
  /\ forall m, ListTasksTool.fetchTasks (Throws m) st limit = Throws m.
Proof.
  assert (Hfetch : forall n, (0 < n)%Z ->
            ListTasksTool.effectiveLimit limit = n ->
            ListTasksTool.fetchTasks (Ok tasks) st limit
            = Ok (take (Z.to_nat n) (VibeClient.restrictedTo st tasks))).
  { intros n Hpos Hn. unfold ListTasksTool.fetchTasks, VibeClient.listTasks.
    rewrite Hn. destruct (Z.eqb_spec n 0) as [?|_]; [lia|].
    rewrite slice0_positive by exact Hpos.
    destruct st as [wanted|]; [|reflexivity].
    now rewrite filter_status_restricted. }
  split; [|split; [|reflexivity]].
  - intros Hdefault. apply (Hfetch 50%Z); [lia|].
    destruct Hdefault as [-> | ->]; reflexivity.
  - intros n -> Hpos. apply Hfetch; [exact Hpos|].
    unfold ListTasksTool.effectiveLimit.
    destruct (Z.eqb_spec n 0); [lia | reflexivity].
Qed.

(** Sixty open tasks around a finished one: without a limit the first
    fifty open tasks are returned, with the limit 2 the first two. *)
Lemma list_tasks_tool_limit_witness :
  let task st := {| Types.task_id := "t"; Types.project_id := "p";
                    Types.title := "Task"; Types.description := None;
                    Types.status := st; Types.attempt_status := None |} in
  let tasks := repeat (task Types.todo) 30 ++ [task Types.done]
               ++ repeat (task Types.todo) 30 in
  ListTasksTool.fetchTasks (Ok tasks) (Some Types.todo) None
  = Ok (repeat (task Types.todo) 50)
  /\ (0 < 2)%Z
  /\ ListTasksTool.fetchTasks (Ok tasks) (Some Types.todo) (Some 2%Z)
     = Ok [task Types.todo; task Types.todo].
Proof.
  intros task tasks.
  destruct (list_tasks_tool_limit tasks (Some Types.todo) None)
    as (Hdefault & _ & _).
  destruct (list_tasks_tool_limit tasks (Some Types.todo) (Some 2%Z))
    as (_ & Hgiven & _).
  split; [|split; [lia|]].
  - rewrite (Hdefault (or_introl eq_refl)). vm_compute. reflexivity.
  - rewrite (Hgiven 2%Z eq_refl ltac:(lia)). vm_compute. reflexivity.
Defined.

(** X16: the per-status counts of the [list_tasks] summary add up: each
    status is listed at most once, a listed count is positive and is the
    number of shown tasks with that status, a status without tasks is not
    listed, and the counts sum to the number of shown tasks. *)
Theorem list_tasks_counts (tasks : list Types.TaskWithAttemptStatus) :
  let counts := ListTasksTool.countByStatus tasks in
  NoDup (counts.*1)
  /\ list_sum (counts.*2) = List.length tasks
  /\ forall k,
       match ListTasksTool.countOf k counts with
       | Some n =>
           0 < n /\ n = List.length (filter (fun t => Types.status t = k) tasks)
       | None => filter (fun t => Types.status t = k) tasks = []
       end.
Proof.
  intros counts. subst counts. unfold ListTasksTool.countByStatus.
  destruct (countFold tasks [] (NoDup_nil_2)) as (H1 & H2 & H3).
  split; [exact H1|]. split; [simpl in H2; lia|].
  intros k. specialize (H3 k). simpl in H3. rewrite Nat.add_0_r in H3.
  destruct (ListTasksTool.countOf k _) as [n|] eqn:E; simpl in H3.
  - split; [|exact H3].
    apply (countOf_positive tasks [] ltac:(intros ? ? H; discriminate) k n E).
  - symmetry in H3. now apply length_zero_iff_nil in H3.
Qed.

(** ** The request primitive *)

Section RequestFacts.
Import JsString Transport.
Context {T : Type}.
Variable JSON_parse : string -> Result (ApiResponse T).

Lemma errorToString_api inner :
  errorToString ("API error: " ++ inner)%string
  = ("Error: API error: " ++ inner)%string.
Proof. reflexivity. Qed.

Lemma includes_wrapped inner :
  includes ("Error: API error: " ++ inner)%string "running"
    = includes inner "running"
  /\ includes ("Error: API error: " ++ inner)%string "busy"
     = includes inner "busy"
  /\ includes ("Error: API error: " ++ inner)%string "409"
     = includes inner "409"
  /\ includes ("Error: API error: " ++ inner)%string "conflict"
     = includes inner "conflict".
Proof. repeat split; vm_compute; reflexivity. Qed.

Lemma request_throws r m :
  request JSON_parse r = Throws m ->
  exists inner, attempt JSON_parse r = Throws inner
                /\ m = ("API error: " ++ inner)%string.
Proof.
  unfold request. destruct (attempt JSON_parse r) as [v|inner]; [discriminate|].
  intros H. inversion H. now exists inner.
Qed.

End RequestFacts.

(** X17: [request] fails with a message that begins with API error,
    whatever went wrong; it fails whenever curl could not be run or did
    not exit with status 0, whatever it printed; and it resolves with data
    only when the body parsed to an envelope whose success flag is set.
    An envelope without the flag fails with the Gateway's message, or with
    a fixed text when there is none. *)
Theorem request_outcomes {T : Type}
    (JSON_parse : string -> Result (Transport.ApiResponse T))
    (r : Transport.SpawnResult) :
  (forall m, Transport.request JSON_parse r = Throws m ->
     exists inner, m = ("API error: " ++ inner)%string
                   /\ errorToString m = ("Error: API error: " ++ inner)%string)
  /\ (Transport.spawn_error r <> None
      \/ Transport.spawn_status r <> Some 0%Z ->
      exists m, Transport.request JSON_parse r = Throws m)
  /\ (forall d, Transport.request JSON_parse r = Ok (Transport.Data d) ->
        Transport.spawn_error r = None
        /\ Transport.spawn_status r = Some 0%Z
        /\ exists body json,
             Transport.spawn_stdout r = Some body
             /\ JSON_parse body = Ok json
             /\ Transport.success json = true
             /\ d = Transport.data json)
  /\ (forall body json,
        Transport.spawn_error r = None ->
        Transport.spawn_status r = Some 0%Z ->
        Transport.spawn_stdout r = Some body ->
        JsString.isEmpty (JsString.trim body) = false ->
        JSON_parse body = Ok json ->
        Transport.success json = false ->
        Transport.request JSON_parse r
        = Throws ("API error: "
                  ++ Transport.orElse (Transport.api_message json)
                       "API returned unsuccessful response")%string).
Proof.
  split; [|split; [|split]].
  - intros m H. apply request_throws in H as (inner & _ & ->).
    exists inner. split; [reflexivity | apply errorToString_api].
  - unfold Transport.request, Transport.attempt.
    destruct (Transport.spawn_error r) as [e|]; [intros _; eauto|].
    intros [H|H]; [congruence|].
    rewrite bool_decide_eq_false_2 by exact H. simpl. eauto.
  - intros d. unfold Transport.request, Transport.attempt.
    destruct (Transport.spawn_error r) as [e|]; [discriminate|].
    case_bool_decide as Hst; simpl; [|discriminate].
    destruct (Transport.spawn_stdout r) as [body|]; [|discriminate].
    destruct (negb (JsString.truthy body) || JsString.isEmpty (JsString.trim body));
      [discriminate|].
    destruct (JSON_parse body) as [json|m] eqn:Ep; [|discriminate].
    destruct (Transport.success json) eqn:Es; simpl; [|discriminate].
    intros H. inversion H; subst.
    split; [reflexivity|]. split; [exact Hst|]. now exists body, json.
  - intros body json He Hst Hout Hblank Hparse Hfail.
    unfold Transport.request, Transport.attempt.
    rewrite He, Hst, Hout, Hparse, Hfail, Hblank.
    rewrite bool_decide_eq_true_2 by reflexivity. simpl.
    destruct body as [|c body]; [discriminate|]. reflexivity.
Qed.

Lemma request_outcomes_witness :
  let parse := fun _ : string =>
    Ok {| Transport.success := false; Transport.data := @None nat;
          Transport.api_message := Some "session is busy" |} in
  let r := {| Transport.spawn_error := None; Transport.spawn_status := Some 0%Z;
              Transport.spawn_stderr := None;
              Transport.spawn_stdout := Some "{}" |} in
  Transport.request parse r = Throws "API error: session is busy"
  /\ errorToString "API error: session is busy"
     = "Error: API error: session is busy".
Proof.
  intros parse r.
  destruct (request_outcomes parse r) as (Hprefix & _ & _ & Hrefused).
  assert (H : Transport.request parse r = Throws "API error: session is busy")
    by (apply (Hrefused "{}" _ eq_refl eq_refl eq_refl eq_refl eq_refl eq_refl)).
  split; [exact H | reflexivity].
Defined.

(** X18: the busy heuristic looks through the two wrappers.  For an error
    thrown by [request] the decision to queue is the decision the
    heuristic makes on the inner message alone: neither the API error
    prefix nor the Error prefix of the stringified error contains, or
    completes, one of the four tokens. *)
Theorem busy_heuristic_sees_inner_message {T : Type}
    (JSON_parse : string -> Result (Transport.ApiResponse T))
    (r : Transport.SpawnResult) (m : string) (aq : option bool) :
  Transport.request JSON_parse r = Throws m ->
  exists inner,
    Transport.attempt JSON_parse r = Throws inner
    /\ Tools.shouldQueue aq (errorToString m) = Tools.shouldQueue aq inner.
Proof.
  intros H. apply request_throws in H as (inner & Hinner & ->).
  exists inner. split; [exact Hinner|].
  rewrite errorToString_api. unfold Tools.shouldQueue.
  destruct (includes_wrapped inner) as (-> & -> & -> & ->). reflexivity.
Qed.

Lemma busy_heuristic_sees_inner_message_witness :
  let parse := fun _ : string =>
    Ok {| Transport.success := false; Transport.data := @None nat;
          Transport.api_message := Some "session is busy" |} in
  let r := {| Transport.spawn_error := None; Transport.spawn_status := Some 0%Z;
              Transport.spawn_stderr := None;
              Transport.spawn_stdout := Some "{}" |} in
  Transport.request parse r = Throws "API error: session is busy"
  /\ Tools.shouldQueue None (errorToString "API error: session is busy") = true.
Proof.
  intros parse r.
  assert (H : Transport.request parse r = Throws "API error: session is busy")
    by reflexivity.
  split; [exact H|].
  destruct (busy_heuristic_sees_inner_message parse r _ None H)
    as (inner & Hinner & ->).
  inversion Hinner. reflexivity.
Defined.

(** ** Repository resolution *)

Section RepoFacts.
Import JsString Transport RepoResolution.

Lemma fetchRepoId_requests c answer :
  snd (fetchRepoId c answer) = true.
Proof.
  unfold fetchRepoId. destruct answer as [[|[[|r [|r' rest]]|]]|m]; reflexivity.
Qed.

Lemma fetchRepoId_ok c answer id c' b :
  fetchRepoId c answer = (Ok id, c', b) ->
  exists r, answer = Ok (Data (Some [r])) /\ id = repo_id r
            /\ repoId c' = repoId c /\ _resolvedRepoId c' = Some id.
Proof.
  unfold fetchRepoId.
  destruct answer as [[|[[|r [|r' rest]]|]]|m]; intros H; inversion H; subst.
  now exists r.
Qed.

Lemma fetchRepoId_throws c answer m c' b :
  fetchRepoId c answer = (Throws m, c', b) -> c' = c /\ b = true.
Proof.
  unfold fetchRepoId.
  destruct answer as [[|[[|r [|r' rest]]|]]|m0]; intros H; inversion H; now subst.
Qed.

(** [getRepoId] either answers from what the client knows, without a
    request, or is [fetchRepoId]. *)
Lemma getRepoId_cases c answer :
  (exists id, getRepoId c answer = (Ok id, c, false) /\ truthy id = true
              /\ (repoId c = Some id
                  \/ (truthyOpt (repoId c) = false
                      /\ _resolvedRepoId c = Some id)))
  \/ (getRepoId c answer = fetchRepoId c answer
      /\ truthyOpt (repoId c) = false
      /\ truthyOpt (_resolvedRepoId c) = false).
Proof.
  unfold getRepoId.
  destruct (repoId c) as [locked|] eqn:El; simpl.
  - destruct (truthy locked) eqn:Et; [left; exists locked; auto|].
    destruct (_resolvedRepoId c) as [cached|] eqn:Ec; simpl.
    + destruct (truthy cached) eqn:Etc; [left; exists cached|right]; auto.
    + right. auto.
  - destruct (_resolvedRepoId c) as [cached|] eqn:Ec; simpl.
    + destruct (truthy cached) eqn:Etc; [left; exists cached|right]; auto.
    + right. auto.
Qed.

End RepoFacts.

(** X19: a repository id that the client knows is never asked for again.
    A locked id, or failing that a cached one, is returned without a
    request and without touching the client, whatever the Gateway would
    answer; and an id obtained by a request is cached, so that every later
    call returns it without a request. *)
Theorem getRepoId_known_without_request
    (c : RepoResolution.Client)
    (answer : Result (Transport.Response (list RepoResolution.Repo))) :
  (forall id, RepoResolution.repoId c = Some id -> JsString.truthy id = true ->
     RepoResolution.getRepoId c answer = (Ok id, c, false))
  /\ (forall id, JsString.truthyOpt (RepoResolution.repoId c) = false ->
        RepoResolution._resolvedRepoId c = Some id ->
        JsString.truthy id = true ->
        RepoResolution.getRepoId c answer = (Ok id, c, false))
  /\ (forall id c', RepoResolution.getRepoId c answer = (Ok id, c', true) ->
        JsString.truthy id = true ->
        forall answer',
          RepoResolution.getRepoId c' answer' = (Ok id, c', false)).
Proof.
  split; [|split].
  - intros id Hid Ht. unfold RepoResolution.getRepoId. now rewrite Hid, Ht.
  - intros id Hl Hc Ht. unfold RepoResolution.getRepoId. rewrite Hc, Ht.
    destruct (RepoResolution.repoId c) as [locked|]; [|reflexivity].
    simpl in Hl. now rewrite Hl.
  - intros id c' Hget Ht answer'.
    destruct (getRepoId_cases c answer) as [(id0 & H & _)|(H & Hl & _)];
      [rewrite H in Hget; discriminate|].
    rewrite H in Hget. apply fetchRepoId_ok in Hget as (r & _ & _ & Hrepo & Hcache).
    unfold RepoResolution.getRepoId. rewrite Hrepo, Hcache, Ht.
    destruct (RepoResolution.repoId c) as [locked|]; [|reflexivity].
    simpl in Hl. now rewrite Hl.
Qed.

Lemma getRepoId_known_without_request_witness :
  let c := {| RepoResolution.baseUrl := "http://localhost:9119";
              RepoResolution.projectId := "p1";
              RepoResolution.repoId := None;
              RepoResolution._resolvedRepoId := None |} in
  let one := Ok (Transport.Data (Some [{| RepoResolution.repo_id := "r1";
                                          RepoResolution.repo_name := "app" |}])) in
  let c' := snd (fst (RepoResolution.getRepoId c one)) in
  RepoResolution.getRepoId c one = (Ok "r1", c', true)
  /\ RepoResolution.getRepoId c' (Throws "API error: down") = (Ok "r1", c', false).
Proof.
  intros c one c'.
  assert (H : RepoResolution.getRepoId c one = (Ok "r1", c', true)) by reflexivity.
  split; [exact H|].
  destruct (getRepoId_known_without_request c one) as (_ & _ & Hcache).
  exact (Hcache "r1" c' H eq_refl _).
Defined.

(** X20: a repository is only ever picked automatically when the project
    has exactly one.  An id obtained by a request is the id of the single
    repository in the answer; with none or several the call fails, naming
    the problem; and every failing call leaves the client as it was, with
    nothing cached, so that the next call asks again. *)
Theorem getRepoId_picks_only_a_single_repository
    (c : RepoResolution.Client)
    (answer : Result (Transport.Response (list RepoResolution.Repo))) :
  (forall id c', RepoResolution.getRepoId c answer = (Ok id, c', true) ->
     exists r, answer = Ok (Transport.Data (Some [r]))
               /\ id = RepoResolution.repo_id r
               /\ RepoResolution._resolvedRepoId c' = Some id)
  /\ (forall m c' b, RepoResolution.getRepoId c answer = (Throws m, c', b) ->
        c' = c /\ b = true)
  /\ (forall repos,
        JsString.truthyOpt (RepoResolution.repoId c) = false ->
        JsString.truthyOpt (RepoResolution._resolvedRepoId c) = false ->
        answer = Ok (Transport.Data (Some repos)) ->
        List.length repos <> 1 ->
        RepoResolution.getRepoId c answer
        = (Throws (match repos with
                   | [] => RepoResolution.noRepositories c
                   | _ => RepoResolution.manyRepositories repos
                   end), c, true)).
Proof.
  split; [|split].
  - intros id c' Hget.
    destruct (getRepoId_cases c answer) as [(id0 & H & _)|(H & _)];
      rewrite H in Hget; [discriminate|].
    apply fetchRepoId_ok in Hget as (r & Ha & Hid & _ & Hc). now exists r.
  - intros m c' b Hget.
    destruct (getRepoId_cases c answer) as [(id0 & H & _)|(H & _)];
      rewrite H in Hget; [discriminate|].
    now apply fetchRepoId_throws in Hget.
  - intros repos Hl Hc -> Hlen.
    destruct (getRepoId_cases c (Ok (Transport.Data (Some repos))))
      as [(id0 & _ & Ht & [H|[_ H]])|(H & _)].
    + rewrite H in Hl. simpl in Hl. congruence.
    + rewrite H in Hc. simpl in Hc. congruence.
    + rewrite H. unfold RepoResolution.fetchRepoId.
      destruct repos as [|r [|r' rest]]; [reflexivity | now destruct Hlen | reflexivity].
Qed.

Lemma getRepoId_picks_only_a_single_repository_witness :
  let c := {| RepoResolution.baseUrl := "http://localhost:9119";
              RepoResolution.projectId := "p1";
              RepoResolution.repoId := None;
              RepoResolution._resolvedRepoId := None |} in
  RepoResolution.getRepoId c (Ok (Transport.Data (Some [])))
  = (Throws "No repositories found in project p1. Create a repository first.",
     c, true).
Proof.
  intros c.
  destruct (getRepoId_picks_only_a_single_repository c
              (Ok (Transport.Data (Some [])))) as (_ & _ & H).
  exact (H [] eq_refl eq_refl eq_refl ltac:(discriminate)).
Defined.

(** X22: starting a session posts nothing when the repository cannot be
    resolved, and otherwise posts one payload: for the given task, with
    the executor profile that [buildExecutorProfile] builds for the same
    executor and variant (the executor in normal form), and with the
    resolved repository on the given base branch, or on main when none is
    given. *)
Theorem startWorkspaceSession_payload
    (c : RepoResolution.Client)
    (reposAnswer : Result (Transport.Response (list RepoResolution.Repo)))
    (post : RepoResolution.StartPayload ->
            Result (Transport.Response RepoResolution.Workspace))
    (taskId executor : string) (variant baseBranch : option string) :
  let run := RepoResolution.startWorkspaceSession c reposAnswer post
               taskId executor variant baseBranch in
  (forall m c' b,
     RepoResolution.getRepoId c reposAnswer = (Throws m, c', b) ->
     run = (Throws m, c', []))
  /\ (forall repo c' b,
        RepoResolution.getRepoId c reposAnswer = (Ok repo, c', b) ->
        exists payload,
          run = (post payload, c', [payload])
          /\ RepoResolution.payload_task payload = taskId
          /\ RepoResolution.payload_profile payload
             = VibeClient.buildExecutorProfile executor variant
          /\ VibeClient.normalizeExecutor
               (Types.executor (RepoResolution.payload_profile payload))
             = Types.executor (RepoResolution.payload_profile payload)
          /\ RepoResolution.payload_repos payload
             = [{| RepoResolution.target_repo := repo;
                   RepoResolution.target_branch :=
                     match baseBranch with
                     | Some branch =>
                         if JsString.isEmpty branch then "main" else branch
                     | None => "main"
                     end |}]).
Proof.
  intros run. subst run. unfold RepoResolution.startWorkspaceSession.
  split.
  - intros m c' b ->. reflexivity.
  - intros repo c' b ->. eexists. split; [reflexivity|].
    split; [reflexivity|]. split; [reflexivity|]. split.
    + simpl. fold (VibeClient.normalizeExecutor executor).
      destruct (JsString.truthyOpt variant); simpl;
        apply normalizeExecutor_fixed.
    + simpl. unfold Transport.orElse, JsString.truthy.
      destruct baseBranch as [branch|]; [|reflexivity].
      now destruct (JsString.isEmpty branch).
Qed.

Lemma startWorkspaceSession_payload_witness :
  let c := {| RepoResolution.baseUrl := "http://localhost:9119";
              RepoResolution.projectId := "p1";
              RepoResolution.repoId := Some "r1";
              RepoResolution._resolvedRepoId := None |} in
  let post := fun _ : RepoResolution.StartPayload =>
    Ok (Transport.Data (Some {| RepoResolution.workspace_id := "w1";
                                RepoResolution.workspace_task := "t1" |})) in
  exists payload,
    snd (RepoResolution.startWorkspaceSession c (Throws "API error: down") post
           "t1" " claude-code" None None) = [payload]
    /\ Types.executor (RepoResolution.payload_profile payload) = "CLAUDE_CODE"
    /\ RepoResolution.payload_repos payload
       = [{| RepoResolution.target_repo := "r1";
             RepoResolution.target_branch := "main" |}].
Proof.
  intros c post.
  destruct (startWorkspaceSession_payload c (Throws "API error: down") post
              "t1" " claude-code" None None) as (_ & H).
  destruct (H "r1" c false eq_refl) as (payload & Hrun & _ & Hprofile & _ & Hrepos).
  exists payload. rewrite Hrun. split; [reflexivity|].
  split; [now rewrite Hprofile | exact Hrepos].
Defined.

(** ** Tag expansion *)

Section TagFacts.
Import JsString Transport TagExpansion ResourceHandlers.
Variable regexReplaceAll : string -> string -> string -> Result string.

Lemma scan_without_at s :
  allChars (fun c => negb (Ascii.eqb c "@")) s = true ->
  scan (chars s) None = [].
Proof.
  intros H.
  assert (Hall : Forall (fun ch => String.eqb ch "@" = false) (chars s)).
  { induction s as [|c s IH]; [constructor|]. cbn [allChars] in H.
    apply andb_true_iff in H as [Hc Hs]. apply negb_true_iff in Hc.
    specialize (IH Hs). rewrite chars_cons.
    destruct (startsWithContinuation s);
      [destruct (chars s) as [|first rest];
       [|apply Forall_cons in IH as [_ IH]]|];
      constructor; try assumption; try constructor;
      cbn [String.eqb]; now rewrite Hc. }
  induction Hall as [|ch l Hch _ IH]; [reflexivity|].
  cbn [scan]. now rewrite Hch.
Qed.

(** The loop leaves the text alone unless some token names a tag with
    non-empty content. *)
Lemma substitute_unchanged tagMap matches : forall text,
  substitute regexReplaceAll tagMap matches text = Ok text
  \/ exists token c, token ∈ matches
                     /\ tagMap !! slice1 token = Some c /\ truthy c = true.
Proof.
  induction matches as [|mt rest IH]; intros text; [now left|].
  simpl. destruct (tagMap !! slice1 mt) as [c|] eqn:E.
  - destruct (truthy c) eqn:Et.
    + right. exists mt, c. split; [apply list_elem_of_here | now split].
    + destruct (IH text) as [H|(token & c' & Hin & H)]; [now left|].
      right. exists token, c'. split; [now apply list_elem_of_further | exact H].
  - destruct (IH text) as [H|(token & c' & Hin & H)]; [now left|].
    right. exists token, c'. split; [now apply list_elem_of_further | exact H].
Qed.

End TagFacts.

(** X21: [expandTags] changes a text only on the strength of a tag.  A
    text without an at sign is returned as it is and the tag directory is
    not even requested; and whenever the returned text differs from the
    given one, the directory was requested and delivered, and some token
    of the text names a tag of the directory with non-empty content.  So a
    failed request, a directory without matching tags, and a failure of
    the regular expression engine all give the original text back. *)
Theorem expandTags_changes_only_by_a_tag
    (regexReplaceAll : string -> string -> string -> Result string)
    (text : string)
    (tagsAnswer : Result (Transport.Response (list TagExpansion.Tag))) :
  let expanded := TagExpansion.expandTags regexReplaceAll text tagsAnswer in
  (ResourceHandlers.allChars (fun c => negb (Ascii.eqb c "@")) text = true ->
     expanded = (text, false))
  /\ (snd expanded = false -> fst expanded = text)
  /\ (fst expanded <> text ->
        snd expanded = true
        /\ exists tags token c,
             tagsAnswer = Ok (Transport.Data (Some tags))
             /\ token ∈ TagExpansion.matchTokens text
             /\ TagExpansion.tagMapOf tags !! TagExpansion.slice1 token = Some c
             /\ JsString.truthy c = true).
Proof.
  intros expanded. subst expanded. unfold TagExpansion.expandTags.
  split; [|split].
  - intros H. unfold TagExpansion.matchTokens.
    now rewrite (scan_without_at text H).
  - destruct (TagExpansion.matchTokens text) as [|mt rest]; [reflexivity|].
    destruct tagsAnswer as [[|[tags|]]|m]; try discriminate.
    destruct (TagExpansion.substitute _ _ _ _); discriminate.
  - destruct (TagExpansion.matchTokens text) as [|mt rest] eqn:Em;
      [intros H; now destruct H|].
    destruct tagsAnswer as [[|[tags|]]|m]; try (intros H; now destruct H).
    destruct (substitute_unchanged regexReplaceAll
                (TagExpansion.tagMapOf tags) (mt :: rest) text)
      as [Hsame|(token & c & Hin & Hc & Ht)].
    + rewrite Hsame. intros H. now destruct H.
    + intros _. split.
      * now destruct (TagExpansion.substitute _ _ _ _).
      * now exists tags, token, c.
Qed.

Lemma expandTags_changes_only_by_a_tag_witness :
  let regex := fun _ _ _ : string => Ok "fix the login bug" in
  let tags := Ok (Transport.Data
                    (Some [{| TagExpansion.tag_name := "bug";
                              TagExpansion.content := "the login bug" |}])) in
  TagExpansion.expandTags regex "fix @bug" tags = ("fix the login bug", true)
  /\ TagExpansion.expandTags regex "fix @bug" (Throws "API error: down")
     = ("fix @bug", true)
  /\ TagExpansion.expandTags regex "fix bug" tags = ("fix bug", false).
Proof.
  intros regex tags.
  destruct (expandTags_changes_only_by_a_tag regex "fix bug" tags) as (Hplain & _).
  split; [reflexivity|]. split; [reflexivity|]. exact (Hplain eq_refl).
Defined.

(** ** The configuration loader *)

Section ConfigFacts.
Import JsString Config.

(** A string is left alone by [trimStart] when no white space character
    starts with its first byte. *)
Lemma trimStart_kept c r :
  existsb (fun w => match w with
                    | String a _ => Ascii.eqb a c
                    | EmptyString => false
                    end) whiteSpace = false ->
  trimStart (String c r) = String c r.
Proof.
  intros H. unfold trimStart.
  destruct (chars_head c r) as (t & rest & E).
  pose proof (fromChars_chars (String c r)) as F. rewrite E in *.
  cbn [dropWhiteSpace].
  destruct (isWhiteSpaceChar (String c t)) eqn:W; [|exact F].
  apply not_true_iff_false in H. destruct H.
  apply existsb_exists in W as (w & Hw & Ew).
  apply String.eqb_eq in Ew. subst w. apply existsb_exists.
  exists (String c t). split; [exact Hw | apply Ascii.eqb_refl].
Qed.

Lemma isDigit_plain c :
  isDigit c = true ->
  existsb (fun w => match w with
                    | String a _ => Ascii.eqb a c
                    | EmptyString => false
                    end) whiteSpace = false
  /\ Ascii.eqb c "-" = false /\ Ascii.eqb c "+" = false.
Proof.
  revert c.
  assert (H : forall c,
            (negb (isDigit c)
             || (negb (existsb (fun w => match w with
                                         | String a _ => Ascii.eqb a c
                                         | EmptyString => false
                                         end) whiteSpace)
                 && negb (Ascii.eqb c "-")
                 && negb (Ascii.eqb c "+"))) = true)
    by (apply all_chars; vm_compute; reflexivity).
  intros c Hc. specialize (H c). rewrite Hc in H. simpl in H.
  apply andb_true_iff in H as [H H3]. apply andb_true_iff in H as [H1 H2].
  now rewrite !negb_true_iff in *.
Qed.

Lemma pretty_N_char_digit r :
  (r < 10)%N ->
  isDigit (pretty_N_char r) = true /\ (code (pretty_N_char r) - 48 = r)%N.
Proof.
  intros Hr.
  assert (H : (r = 0 \/ r = 1 \/ r = 2 \/ r = 3 \/ r = 4 \/ r = 5 \/ r = 6
               \/ r = 7 \/ r = 8 \/ r = 9)%N) by lia.
  repeat (destruct H as [->|H]; [split; reflexivity|]). subst. split; reflexivity.
Qed.

(** Reading the numeral of [x] from an accumulator worth nothing gives
    [x]. *)
Lemma digits_pretty_go x : forall s acc,
  default 0%N acc = 0%N ->
  exists acc', digits (pretty_N_go x s) acc = digits s acc'
               /\ default 0%N acc' = x
               /\ ((0 < x)%N -> acc' <> None).
Proof.
  induction x as [x IH] using (well_founded_induction N.lt_wf_0).
  intros s acc Hacc. destruct (N.eq_dec x 0) as [->|Hx].
  - rewrite pretty_N_go_0. exists acc. split; [reflexivity|].
    split; [exact Hacc | lia].
  - rewrite pretty_N_go_step by lia.
    destruct (IH (x `div` 10)%N ltac:(apply N.div_lt; lia)
                (String (pretty_N_char (x `mod` 10)) s) acc Hacc)
      as (acc1 & -> & Hval & _).
    destruct (pretty_N_char_digit (x `mod` 10)%N
                ltac:(apply N.mod_lt; lia)) as [Hd Hc].
    simpl. rewrite Hd, Hc, Hval. eexists. split; [reflexivity|].
    split; [|discriminate]. simpl.
    symmetry. apply N.div_mod. lia.
Qed.

Lemma pretty_go_head x : forall s,
  (0 < x)%N ->
  exists c r, pretty_N_go x s = String c r /\ isDigit c = true.
Proof.
  induction x as [x IH] using (well_founded_induction N.lt_wf_0).
  intros s Hx. rewrite pretty_N_go_step by exact Hx.
  destruct (N.eq_dec (x `div` 10) 0) as [E|E].
  - rewrite E, pretty_N_go_0. eexists _, _. split; [reflexivity|].
    apply pretty_N_char_digit, N.mod_lt. lia.
  - apply IH; [apply N.div_lt; lia | now apply N.neq_0_lt_0].
Qed.

Lemma parseInt10_digit_head c r :
  isDigit c = true ->
  parseInt10 (String c r)
  = option_map Z.of_N (digits (String c r) None).
Proof.
  intros Hc. destruct (isDigit_plain c Hc) as (Hw & Hm & Hp).
  unfold parseInt10. rewrite (trimStart_kept c r Hw), Hm, Hp.
  now destruct (digits (String c r) None).
Qed.

Lemma parseInt10_pretty (n : N) : parseInt10 (pretty n) = Some (Z.of_N n).
Proof.
  unfold pretty, pretty_N. destruct (decide (n = 0%N)) as [->|Hn]; [reflexivity|].
  destruct (pretty_go_head n "" ltac:(lia)) as (c & r & E & Hc).
  rewrite E, (parseInt10_digit_head c r Hc), <- E.
  destruct (digits_pretty_go n "" None eq_refl) as (acc' & -> & Hval & Hsome).
  simpl. destruct acc' as [v|]; [|now destruct Hsome; [lia|]].
  simpl in Hval. now subst.
Qed.

Lemma hexRun_length n : forall s rest,
  hexRun n s = Some rest -> String.length s = n + String.length rest.
Proof.
  induction n as [|n IH]; intros s rest H; simpl in H.
  - now inversion H.
  - destruct s as [|c s]; [discriminate|].
    destruct (isHexDigit c); [|discriminate].
    simpl. now rewrite (IH s rest H).
Qed.

Lemma hyphen_length s rest :
  hyphen s = Some rest -> String.length s = 1 + String.length rest.
Proof.
  destruct s as [|c s]; [discriminate|]. simpl.
  destruct (Ascii.eqb c "-"); [|discriminate]. now intros [= ->].
Qed.

Lemma isUuid_length s : isUuid s = true -> String.length s = 36.
Proof.
  unfold isUuid. intros H.
  destruct (hexRun 8 s) as [s1|] eqn:E1; [|discriminate].
  destruct (hyphen s1) as [s2|] eqn:E2; [|discriminate].
  destruct (hexRun 4 s2) as [s3|] eqn:E3; [|discriminate].
  destruct (hyphen s3) as [s4|] eqn:E4; [|discriminate].
  destruct (hexRun 4 s4) as [s5|] eqn:E5; [|discriminate].
  destruct (hyphen s5) as [s6|] eqn:E6; [|discriminate].
  destruct (hexRun 4 s6) as [s7|] eqn:E7; [|discriminate].
  destruct (hyphen s7) as [s8|] eqn:E8; [|discriminate].
  destruct (hexRun 12 s8) as [rest|] eqn:E9; [|discriminate].
  destruct rest; [|discriminate].
  apply hexRun_length in E1, E3, E5, E7, E9.
  apply hyphen_length in E2, E4, E6, E8. simpl in *. lia.
Qed.

Lemma stripTrailingSlash_slash s :
  stripTrailingSlash (s ++ "/") = s.
Proof.
  induction s as [|c s IH]; [reflexivity|].
  rewrite string_app_cons. simpl. rewrite IH.
  destruct s; simpl; [now rewrite andb_false_r|].
  now rewrite andb_false_r.
Qed.

Lemma stripTrailingSlash_other s :
  (forall r, s <> (r ++ "/")%string) -> stripTrailingSlash s = s.
Proof.
  induction s as [|c s IH]; intros H; [reflexivity|]. simpl.
  destruct (Ascii.eqb c "/" && isEmpty s) eqn:E.
  - apply andb_true_iff in E as [Ec Es]. apply Ascii.eqb_eq in Ec.
    destruct s; [|discriminate]. subst. now destruct (H EmptyString).
  - rewrite IH; [reflexivity|]. intros r ->. now apply (H (String c r)).
Qed.

End ConfigFacts.

(** X23: the loader accepts exactly the environments whose project id is
    a UUID and whose repository id, when set and not empty, is one too; an
    accepted id is passed on unchanged and is 36 characters long, an empty
    repository id counts as none, and every other environment ends the
    process. *)
Theorem loadConfig_validates (env : Config.Env) :
  ((exists cfg, Config.loadConfig env = Config.Configured cfg) <->
     (exists p, Config.VIBE_PROJECT_ID env = Some p /\ Config.isUuid p = true)
     /\ (forall r, Config.VIBE_REPO_ID env = Some r ->
           JsString.truthy r = true -> Config.isUuid r = true))
  /\ forall cfg, Config.loadConfig env = Config.Configured cfg ->
       Config.VIBE_PROJECT_ID env = Some (Config.projectId cfg)
       /\ String.length (Config.projectId cfg) = 36
       /\ Config.workspaceId cfg = Config.VIBE_WORKSPACE_ID env
       /\ match Config.repoId cfg with
          | Some r => Config.VIBE_REPO_ID env = Some r
                      /\ String.length r = 36
          | None => JsString.truthyOpt (Config.VIBE_REPO_ID env) = false
          end.
Proof.
  unfold Config.loadConfig.
  destruct (Config.VIBE_PROJECT_ID env) as [p|] eqn:Ep.
  2:{ split; [split; [intros [cfg H]; discriminate
                     | intros [(p & H & _) _]; discriminate]
             | intros cfg H; discriminate]. }
  destruct (JsString.truthy p) eqn:Etp; simpl.
  2:{ split; [split; [intros [cfg H]; discriminate|]
             | intros cfg H; discriminate].
      intros [(p' & H & Hu) _]. inversion H; subst p'.
      destruct p; [discriminate Hu | discriminate Etp]. }
  destruct (Config.isUuid p) eqn:Eu; simpl.
  2:{ split; [split; [intros [cfg H]; discriminate|]
             | intros cfg H; discriminate].
      intros [(p' & H & Hu) _]. inversion H; subst p'. congruence. }
  destruct (Config.VIBE_REPO_ID env) as [r|] eqn:Er; simpl.
  - destruct (JsString.truthy r) eqn:Etr.
    + destruct (Config.isUuid r) eqn:Eur; simpl.
      * split; [split; [intros _; split; [now exists p|]; intros r' [= <-] _;
                        exact Eur
                       | intros _; eauto]|].
        intros cfg [= <-]. simpl.
        split; [reflexivity|]. split; [now apply isUuid_length|].
        split; [reflexivity|]. split; [reflexivity | now apply isUuid_length].
      * split; [split; [intros [cfg H]; discriminate|]
               | intros cfg H; discriminate].
        intros [_ H]. specialize (H r eq_refl Etr). congruence.
    + split; [split; [intros _; split; [now exists p|]; intros r' [= <-] Ht;
                      congruence
                     | intros _; eauto]|].
      intros cfg [= <-]. simpl.
      split; [reflexivity|]. split; [now apply isUuid_length|].
      split; reflexivity.
  - split; [split; [intros _; split; [now exists p|]; intros r' H; discriminate
                   | intros _; eauto]|].
    intros cfg [= <-]. simpl.
    split; [reflexivity|]. split; [now apply isUuid_length|].
    split; reflexivity.
Qed.

Lemma loadConfig_validates_witness :
  let env := {| Config.VIBE_PROJECT_ID := Some "123e4567-e89b-12d3-a456-426614174000";
                Config.VIBE_REPO_ID := Some "";
                Config.VIBE_API_URL := None;
                Config.VIBE_WORKSPACE_ID := None;
                Config.VIBE_RESOURCE_POLL_INTERVAL := None |} in
  exists cfg, Config.loadConfig env = Config.Configured cfg
              /\ Config.repoId cfg = None
              /\ String.length (Config.projectId cfg) = 36.
Proof.
  intros env.
  destruct (loadConfig_validates env) as [Hiff Hcfg].
  assert (H : exists cfg, Config.loadConfig env = Config.Configured cfg).
  { apply Hiff. split; [eexists; split; reflexivity|].
    intros r [= <-] Ht. discriminate Ht. }
  destruct H as [cfg H]. exists cfg. split; [exact H|].
  destruct (Hcfg cfg H) as (_ & Hlen & _ & _).
  split; [|exact Hlen]. rewrite (f_equal (fun l => match l with
    | Config.Configured c => Config.repoId c | Config.Exit _ => None end) (eq_sym H)).
  reflexivity.
Defined.

(** X24: the poll interval.  An accepted environment whose interval
    variable is the decimal numeral of [n], [n] below 2^53 so that the
    number is held exactly, is configured with exactly [n] milliseconds
    (zero included); one whose variable is unset, empty or does not
    begin, after white space and a sign, with a digit is configured with
    10000. *)
Theorem loadConfig_poll_interval (env : Config.Env) (cfg : Config.Config) :
  Config.loadConfig env = Config.Configured cfg ->
  (forall n : N, (n < 2 ^ 53)%N ->
     Config.VIBE_RESOURCE_POLL_INTERVAL env = Some (pretty n) ->
     Config.resourcePollIntervalMs cfg = Z.of_N n)
  /\ (JsString.truthyOpt (Config.VIBE_RESOURCE_POLL_INTERVAL env) = false ->
      Config.resourcePollIntervalMs cfg = 10000%Z)
  /\ (forall s, Config.VIBE_RESOURCE_POLL_INTERVAL env = Some s ->
        Config.parseInt10 s = None ->
        Config.resourcePollIntervalMs cfg = 10000%Z).
Proof.
  intros Hload.
  assert (Hint : Config.resourcePollIntervalMs cfg
                 = default 10000%Z
                     (Config.parseInt10
                        (Config.orDefault (Config.VIBE_RESOURCE_POLL_INTERVAL env)
                           "10000"))).
  { unfold Config.loadConfig in Hload.
    destruct (Config.VIBE_PROJECT_ID env) as [p|]; [|discriminate].
    destruct (negb (JsString.truthy p)); [discriminate|].
    destruct (negb (Config.isUuid p)); [discriminate|].
    destruct (if JsString.truthyOpt (Config.VIBE_REPO_ID env)
              then Config.VIBE_REPO_ID env else None) as [r|].
    - destruct (negb (Config.isUuid r)); [discriminate|].
      now inversion Hload.
    - now inversion Hload. }
  rewrite Hint. unfold Config.orDefault. split; [|split].
  - intros n _ ->.
    assert (Ht : JsString.truthy (pretty n) = true).
    { unfold pretty, pretty_N. destruct (decide (n = 0%N)); [reflexivity|].
      destruct (pretty_go_head n "" ltac:(lia)) as (c & r & -> & _).
      reflexivity. }
    now rewrite Ht, parseInt10_pretty.
  - destruct (Config.VIBE_RESOURCE_POLL_INTERVAL env) as [s|]; simpl;
      [intros ->|]; reflexivity.
  - intros s -> Hnan. destruct (JsString.truthy s); [now rewrite Hnan | reflexivity].
Qed.

Lemma loadConfig_poll_interval_witness :
  let env := {| Config.VIBE_PROJECT_ID := Some "123e4567-e89b-12d3-a456-426614174000";
                Config.VIBE_REPO_ID := None;
                Config.VIBE_API_URL := Some "http://10.0.0.2:9119/";
                Config.VIBE_WORKSPACE_ID := None;
                Config.VIBE_RESOURCE_POLL_INTERVAL := Some (pretty 2500%N) |} in
  exists cfg, Config.loadConfig env = Config.Configured cfg
              /\ Config.resourcePollIntervalMs cfg = 2500%Z.
Proof.
  intros env. eexists. split; [reflexivity|].
  exact (proj1 (loadConfig_poll_interval env _ eq_refl) 2500%N
           eq_refl eq_refl).
Defined.

(** X25: the base URL of an accepted environment is the variable, or
    http://localhost:9119 when it is unset or empty, with one trailing
    slash removed and nothing else changed. *)
Theorem loadConfig_base_url (env : Config.Env) (cfg : Config.Config) :
  Config.loadConfig env = Config.Configured cfg ->
  (JsString.truthyOpt (Config.VIBE_API_URL env) = false ->
     Config.baseUrl cfg = "http://localhost:9119")
  /\ (forall u, Config.VIBE_API_URL env = Some (u ++ "/")%string ->
        Config.baseUrl cfg = u)
  /\ (forall u, Config.VIBE_API_URL env = Some u -> JsString.truthy u = true ->
        (forall r, u <> (r ++ "/")%string) -> Config.baseUrl cfg = u).
Proof.
  intros Hload.
  assert (Hbase : Config.baseUrl cfg
                  = Config.stripTrailingSlash
                      (Config.orDefault (Config.VIBE_API_URL env)
                         "http://localhost:9119")).
  { unfold Config.loadConfig in Hload.
    destruct (Config.VIBE_PROJECT_ID env) as [p|]; [|discriminate].
    destruct (negb (JsString.truthy p)); [discriminate|].
    destruct (negb (Config.isUuid p)); [discriminate|].
    destruct (if JsString.truthyOpt (Config.VIBE_REPO_ID env)
              then Config.VIBE_REPO_ID env else None) as [r|].
    - destruct (negb (Config.isUuid r)); [discriminate|].
      now inversion Hload.
    - now inversion Hload. }
  rewrite Hbase. unfold Config.orDefault. split; [|split].
  - destruct (Config.VIBE_API_URL env) as [u|]; simpl; [intros ->|]; reflexivity.
  - intros u ->.
    assert (Ht : JsString.truthy (u ++ "/") = true) by now destruct u.
    rewrite Ht. apply stripTrailingSlash_slash.
  - intros u -> Ht Hno. rewrite Ht. now apply stripTrailingSlash_other.
Qed.

Lemma loadConfig_base_url_witness :
  let env := {| Config.VIBE_PROJECT_ID := Some "123e4567-e89b-12d3-a456-426614174000";
                Config.VIBE_REPO_ID := None;
                Config.VIBE_API_URL := Some "http://10.0.0.2:9119/";
                Config.VIBE_WORKSPACE_ID := None;
                Config.VIBE_RESOURCE_POLL_INTERVAL := None |} in
  exists cfg, Config.loadConfig env = Config.Configured cfg
              /\ Config.baseUrl cfg = "http://10.0.0.2:9119".
Proof.
  intros env. eexists. split; [reflexivity|].
  exact (proj1 (proj2 (loadConfig_base_url env _ eq_refl))
           "http://10.0.0.2:9119" eq_refl).
Defined.

Lemma subscriptions_are_a_plain_set_witness :
  let m := Samples.polledOnce in
  let often := Nat.iter 3 (Resources.subscribe "vibe://context") m in
  ("vibe://context" ∉ Resources.subscriptions
                        (Resources.unsubscribe "vibe://context" often))
  /\ Samples.tasksUri <> "vibe://context"
  /\ Resources.lastHashes (Resources.unsubscribe "vibe://context" m)
       !! Samples.tasksUri
     = Resources.lastHashes m !! Samples.tasksUri.
Proof.
  intros m often.
  destruct (subscriptions_are_a_plain_set m "vibe://context" 3)
    as (Hgone & _ & Hframe).
  assert (Hne : Samples.tasksUri <> "vibe://context") by discriminate.
  destruct (Hframe Samples.tasksUri Hne) as (_ & _ & _ & Hhash).
  split; [exact Hgone|]. split; [exact Hne | exact Hhash].
Defined.

Lemma tracker_call_budget_witness :
  let ws := fun _ : nat => Samples.fallbackWorld (Throws "API error: down") in
  Tasks.CallListProcesses "5e55" ∈ TrackerCalls.pollCalls ws "e1" "5e55"
  /\ List.length (TrackerCalls.pollCalls ws "e1" "5e55") = 240.
Proof.
  intros ws.
  assert (Hin : Tasks.CallListProcesses "5e55"
                ∈ TrackerCalls.pollCalls ws "e1" "5e55")
    by (apply list_elem_of_further, list_elem_of_here).
  destruct (tracker_call_budget ws "e1" "5e55") as [Hlen Honly].
  destruct (Honly _ Hin) as [H|_]; [discriminate H|].
  split; [exact Hin | vm_compute; reflexivity].
Defined.
